(** * Checkpoint snapshot of the default engine (engines/default/chkpt_snapshot.c)

    A shallow embedding of the snapshot writer (buffer manager, key and data
    encoders, scan-drain loop, controller) and of the recovery replayer,
    followed by the properties proved about them.

    Conventions.
    - C integers are [Z]; where the source computes in a fixed width the
      wrap-around is written out with [u32] / [u64].
    - [snapshot_st] is the global anchor [snapshot_anch]; functions that
      receive [snapshot_st *ss] take the record and return the updated one.
    - Everything outside the process (the file behind the descriptor, the
      clock, the answers of the kernel to read/write/fsync, thread creation)
      lives in [world]; every call that leaves the module is appended to
      [w_trace], oldest first.  Three kinds of entries in the trace are
      marks rather than calls: [EvDump] and [EvDone] (a step of the
      function table is entered), [EvRecord] (the replayer holds a complete
      record) and [EvItemGet] (the replayer was handed an item reference).
    - What chkpt_snapshot.c takes from the other headers of the engine
      (default_engine.h, cmdlogrec.h, the item and collection modules) is
      collected in the classes [ExtDecls] and [Engine]. *)

From Stdlib Require Import ZArith List String Ascii Bool Lia.
From Stdlib.Strings Require Import Byte.
Import ListNotations.
Local Open Scope Z_scope.

(** ** Machine integers and bytes *)

Definition bytes := list byte.

Definition u32 (z : Z) : Z := z mod 2 ^ 32.
Definition u64 (z : Z) : Z := z mod 2 ^ 64.

Definition blen (b : bytes) : Z := Z.of_nat (List.length b).

Definition bytes_of (s : string) : bytes := list_byte_of_string s.

(** '\n' *)
Definition NL : byte := x0a.

Definition byte_of_Z (z : Z) : byte :=
  match Byte.of_N (Z.to_N (z mod 256)) with
  | Some b => b
  | None => x00
  end.

Definition Z_of_byte (b : byte) : Z := Z.of_N (Byte.to_N b).

(** The decimal digits of [z] in front of [acc], at most [fuel] of them. *)
Fixpoint utoa (fuel : nat) (z : Z) (acc : bytes) : bytes :=
  match fuel with
  | O => acc
  | S f =>
      let acc' := byte_of_Z (48 + z mod 10) :: acc in
      if z / 10 =? 0 then acc' else utoa f (z / 10) acc'
  end.

(** printf's %u / %PRIu64 conversion of an unsigned value of at most 64
    bits, which has at most 20 digits. *)
Definition fmt_u (z : Z) : bytes := utoa 20 z [].

(** A C array of bytes is a map from index to byte. *)
Definition mem := Z -> byte.

Fixpoint mem_load_from (m : mem) (off : Z) (n : nat) : bytes :=
  match n with
  | O => []
  | S k => m off :: mem_load_from m (off + 1) k
  end.

(** The [n] bytes of [m] starting at [off]. *)
Definition mem_load (m : mem) (off n : Z) : bytes :=
  mem_load_from m off (Z.to_nat n).

(** memcpy(&m[off], b, |b|) *)
Definition mem_store (m : mem) (off : Z) (b : bytes) : mem :=
  fun i =>
    if (off <=? i) && (i <? off + blen b)
    then nth (Z.to_nat (i - off)) b x00
    else m i.

(** ** Engine-wide enumerations *)

Inductive ENGINE_ERROR_CODE :=
| ENGINE_SUCCESS
| ENGINE_KEY_ENOENT
| ENGINE_KEY_EEXISTS
| ENGINE_ENOMEM
| ENGINE_NOT_STORED
| ENGINE_EINVAL
| ENGINE_E2BIG
| ENGINE_EBADVALUE
| ENGINE_FAILED.

Definition err_eqb (a b : ENGINE_ERROR_CODE) : bool :=
  match a, b with
  | ENGINE_SUCCESS, ENGINE_SUCCESS
  | ENGINE_KEY_ENOENT, ENGINE_KEY_ENOENT
  | ENGINE_KEY_EEXISTS, ENGINE_KEY_EEXISTS
  | ENGINE_ENOMEM, ENGINE_ENOMEM
  | ENGINE_NOT_STORED, ENGINE_NOT_STORED
  | ENGINE_EINVAL, ENGINE_EINVAL
  | ENGINE_E2BIG, ENGINE_E2BIG
  | ENGINE_EBADVALUE, ENGINE_EBADVALUE
  | ENGINE_FAILED, ENGINE_FAILED => true
  | _, _ => false
  end.

Inductive EXTENSION_LOG_LEVEL := EXTENSION_LOG_INFO | EXTENSION_LOG_WARNING.

(** enum chkpt_snapshot_mode; the values follow the tables
    [snapshot_mode_string] and [snapshot_func], which have three entries
    indexed by mode. *)
Definition CHKPT_SNAPSHOT_MODE_KEY : Z := 0.
Definition CHKPT_SNAPSHOT_MODE_DATA : Z := 1.
Definition CHKPT_SNAPSHOT_MODE_CHKPT : Z := 2.
Definition CHKPT_SNAPSHOT_MODE_MAX : Z := 3.

Definition SNAPSHOT_BUFFER_SIZE : Z := 10 * 1024 * 1024.
Definition SCAN_ITEM_ARRAY_SIZE : Z := 16.

Definition item_type_string : list string := ["K"; "L"; "S"; "M"; "B"]%string.

(** ** Items, collection elements and log records *)

(** The fields of [hash_item] this file reads.  [ittype] is what
    GET_ITEM_TYPE yields (the index into [item_type_string]); an item is a
    collection item when its type is not the first one (plain key-value). *)
Record hash_item := {
  ittype : Z;
  item_key : bytes;
  exptime : Z
}.

Definition nkey (it : hash_item) : Z := blen (item_key it).
Definition GET_ITEM_TYPE (it : hash_item) : Z := ittype it.
Definition IS_COLL_ITEM (it : hash_item) : bool := negb (ittype it =? 0).

(** An element handed out by the collection subsystem. *)
Definition elem := bytes.

(** elems_result_t: [elem_array] with [elem_count] entries. *)
Record elems_result_t := {
  elem_array : list elem
}.
Definition elem_count (e : elems_result_t) : Z := Z.of_nat (List.length (elem_array e)).

Record LogHdr := {
  logtype : Z;
  body_length : Z
}.

(** A log record as the replayer holds it in its buffer: header, body, and
    the item a SnapshotElem record has been tied to by
    lrec_set_item_in_snapshot_elem. *)
Record LogRec := {
  header : LogHdr;
  body : bytes;
  elem_owner : option hash_item
}.

(** ** The world outside the module *)

Inductive event :=
| EvLog (lvl : EXTENSION_LOG_LEVEL) (msg : string)
| EvOpen (path : string) (fd : Z)
| EvWrite (fd : Z) (buf : bytes) (ret : Z)
| EvRead (fd : Z) (count : Z) (ret : Z)
| EvFsync (fd : Z) (ret : Z)
| EvLseekEnd (fd : Z) (off : Z) (ret : Z)
| EvLseekSet (fd : Z) (off : Z)
| EvClose (fd : Z)
| EvCollResultInit
| EvCollResultFree
| EvScanOpen (chkpt_hook : bool)
| EvScanGetnext (ret : Z)
| EvScanRelease (count : Z)
| EvScanClose (chkpt_hook : bool) (success : bool)
| EvDump (mode : Z) (count : Z)
| EvDone (mode : Z)
| EvUnlock
| EvLock
| EvUsleep (usec : Z)
| EvThreadCreate (ok : bool)
| EvCallback (cb : Z)
| EvRecord (rec : LogRec)
| EvRedo (rec : LogRec) (err : ENGINE_ERROR_CODE)
| EvItemGet (it : hash_item)
| EvItemRelease (it : hash_item).

(** What the kernel answers to one read, write or fsync call. *)
Inductive io_outcome :=
| IoOk                (* the call does all it was asked to *)
| IoShort (k : Z)     (* read/write transfer at most [k] bytes *)
| IoErr.              (* the call fails with -1 *)

Record world := {
  w_disk : bytes;            (* contents of the file behind the descriptor *)
  w_pos : Z;                 (* its read offset *)
  w_io : list io_outcome;    (* answers to the coming read/write/fsync calls;
                                when exhausted every call is [IoOk] *)
  w_open : Z;                (* what open() returns; negative on failure *)
  w_thread_ok : bool;        (* whether a thread can be created *)
  w_time : Z;                (* time(NULL) *)
  w_curtime : Z;             (* get_current_time(), a rel_time_t *)
  w_trace : list event
}.

Definition set_disk (w : world) (d : bytes) : world :=
  {| w_disk := d; w_pos := w_pos w; w_io := w_io w; w_open := w_open w;
     w_thread_ok := w_thread_ok w; w_time := w_time w;
     w_curtime := w_curtime w; w_trace := w_trace w |}.

Definition set_pos (w : world) (p : Z) : world :=
  {| w_disk := w_disk w; w_pos := p; w_io := w_io w; w_open := w_open w;
     w_thread_ok := w_thread_ok w; w_time := w_time w;
     w_curtime := w_curtime w; w_trace := w_trace w |}.

Definition set_io (w : world) (io : list io_outcome) : world :=
  {| w_disk := w_disk w; w_pos := w_pos w; w_io := io; w_open := w_open w;
     w_thread_ok := w_thread_ok w; w_time := w_time w;
     w_curtime := w_curtime w; w_trace := w_trace w |}.

Definition emit (w : world) (e : event) : world :=
  {| w_disk := w_disk w; w_pos := w_pos w; w_io := w_io w; w_open := w_open w;
     w_thread_ok := w_thread_ok w; w_time := w_time w;
     w_curtime := w_curtime w; w_trace := w_trace w ++ [e] |}.

Definition logger_log (w : world) (lvl : EXTENSION_LOG_LEVEL) (msg : string) : world :=
  emit w (EvLog lvl msg).

(** The answer for the next call and the remaining answers. *)
Definition next_io (w : world) : io_outcome * world :=
  match w_io w with
  | [] => (IoOk, w)
  | o :: rest => (o, set_io w rest)
  end.

Definition clamp (k n : Z) : Z := Z.max 0 (Z.min k n).

(** write(fd, buf, |buf|).  The descriptor was opened with O_TRUNC and is
    only ever written front to back, so the bytes land at the end of the
    file.  Returns the number of bytes written, or -1. *)
Definition sys_write (w : world) (fd : Z) (buf : bytes) : world * Z :=
  let '(o, w1) := next_io w in
  match o with
  | IoOk =>
      (emit (set_disk w1 (w_disk w1 ++ buf)) (EvWrite fd buf (blen buf)), blen buf)
  | IoShort k =>
      let n := clamp k (blen buf) in
      (emit (set_disk w1 (w_disk w1 ++ firstn (Z.to_nat n) buf)) (EvWrite fd buf n), n)
  | IoErr => (emit w1 (EvWrite fd buf (-1)), -1)
  end.

Definition sys_fsync (w : world) (fd : Z) : world * Z :=
  let '(o, w1) := next_io w in
  match o with
  | IoOk => (emit w1 (EvFsync fd 0), 0)
  | _ => (emit w1 (EvFsync fd (-1)), -1)
  end.

(** read(fd, buf, count): the bytes delivered and the return value. *)
Definition sys_read (w : world) (fd : Z) (count : Z) : world * bytes * Z :=
  let '(o, w1) := next_io w in
  let avail := Z.max 0 (blen (w_disk w1) - w_pos w1) in
  let deliver (n : Z) :=
    let got := firstn (Z.to_nat n) (skipn (Z.to_nat (w_pos w1)) (w_disk w1)) in
    (emit (set_pos w1 (w_pos w1 + n)) (EvRead fd count n), got, n) in
  match o with
  | IoOk => deliver (clamp count avail)
  | IoShort k => deliver (clamp (Z.min k count) avail)
  | IoErr => (emit w1 (EvRead fd count (-1)), [], -1)
  end.

(** lseek(fd, off, SEEK_END): fails when the resulting offset is negative. *)
Definition sys_lseek_end (w : world) (fd : Z) (off : Z) : world * Z :=
  let p := blen (w_disk w) + off in
  if p <? 0 then (emit w (EvLseekEnd fd off (-1)), -1)
  else (emit (set_pos w p) (EvLseekEnd fd off p), p).

(** lseek(fd, off, SEEK_SET) with off >= 0. *)
Definition sys_lseek_set (w : world) (fd : Z) (off : Z) : world :=
  emit (set_pos w off) (EvLseekSet fd off).

(** open(path, O_WRONLY | O_CREAT | O_TRUNC, ...) *)
Definition sys_open_trunc (w : world) (path : string) : world * Z :=
  let fd := w_open w in
  if fd <? 0 then (emit w (EvOpen path fd), fd)
  else (emit (set_pos (set_disk w []) 0) (EvOpen path fd), fd).

Definition sys_close (w : world) (fd : Z) : world := emit w (EvClose fd).

(** ** Declarations taken from headers outside this file *)

Class ExtDecls := {
  (** default_engine.h *)
  MAX_FILEPATH_LENGTH : Z;
  (** whether the build defines ENABLE_STICKY_ITEM *)
  ENABLE_STICKY_ITEM : bool;
  (** cmdlogrec.h: sizes, record kinds, and how the bytes of a header read
      as a [LogHdr] *)
  sizeof_LogHdr : Z;
  sizeof_SnapshotDoneLog : Z;
  MAX_LOG_RECORD_SIZE : Z;
  LOG_IT_LINK : Z;
  LOG_SNAPSHOT_ELEM : Z;
  LOG_SNAPSHOT_DONE : Z;
  LogHdr_of_bytes : bytes -> LogHdr;
  (** lrec_check_snapshot_done on the bytes of a SnapshotDoneLog *)
  lrec_check_snapshot_done : bytes -> Z;
  (** lrec_construct_xxx followed by lrec_write_to_buffer: the bytes of the
      record; the size lrec_construct_xxx returns is their number *)
  lrec_link_item : hash_item -> bytes;
  lrec_snapshot_elem : hash_item -> elem -> bytes;
  lrec_snapshot_done : bytes;
  sizeof_LogHdr_pos : 0 < sizeof_LogHdr;
  sizeof_SnapshotDoneLog_pos : 0 < sizeof_SnapshotDoneLog;
  (** the record buffer, MAX_LOG_RECORD_SIZE bytes, holds at least a header *)
  sizeof_LogHdr_fits : sizeof_LogHdr <= MAX_LOG_RECORD_SIZE;
  logtype_link_elem : LOG_IT_LINK <> LOG_SNAPSHOT_ELEM;
  logtype_link_done : LOG_IT_LINK <> LOG_SNAPSHOT_DONE;
  logtype_elem_done : LOG_SNAPSHOT_ELEM <> LOG_SNAPSHOT_DONE
}.

(** The engine as the replayer sees it. *)
Class Engine := {
  engine_st : Type;
  engine_initialized : engine_st -> bool;
  lrec_redo_from_record : engine_st -> LogRec -> engine_st * ENGINE_ERROR_CODE;
  lrec_get_item_if_collection_link : engine_st -> LogRec -> engine_st * option hash_item;
  item_release : engine_st -> hash_item -> engine_st
}.

(** ** Snapshot structures *)

Record snapshot_file := {
  path : string;
  fd : Z;
  size : Z
}.

Record snapshot_buffer := {
  memory : mem;
  maxlen : Z;
  curlen : Z
}.

Record snapshot_st := {
  running : bool;
  success : bool;
  reqstop : bool;
  mode : Z;
  snapped : Z;
  started : Z;
  stopped : Z;
  prefix : option string;
  nprefix : Z;
  file : snapshot_file;
  buffer : snapshot_buffer;
  cb_snapshot_done : option Z;
  initialized : bool
}.

Definition with_buffer (ss : snapshot_st) (b : snapshot_buffer) : snapshot_st :=
  {| running := running ss; success := success ss; reqstop := reqstop ss;
     mode := mode ss; snapped := snapped ss; started := started ss;
     stopped := stopped ss; prefix := prefix ss; nprefix := nprefix ss;
     file := file ss; buffer := b; cb_snapshot_done := cb_snapshot_done ss;
     initialized := initialized ss |}.

Definition with_file (ss : snapshot_st) (f : snapshot_file) : snapshot_st :=
  {| running := running ss; success := success ss; reqstop := reqstop ss;
     mode := mode ss; snapped := snapped ss; started := started ss;
     stopped := stopped ss; prefix := prefix ss; nprefix := nprefix ss;
     file := f; buffer := buffer ss; cb_snapshot_done := cb_snapshot_done ss;
     initialized := initialized ss |}.

Definition with_running (ss : snapshot_st) (b : bool) : snapshot_st :=
  {| running := b; success := success ss; reqstop := reqstop ss;
     mode := mode ss; snapped := snapped ss; started := started ss;
     stopped := stopped ss; prefix := prefix ss; nprefix := nprefix ss;
     file := file ss; buffer := buffer ss; cb_snapshot_done := cb_snapshot_done ss;
     initialized := initialized ss |}.

Definition with_reqstop (ss : snapshot_st) (b : bool) : snapshot_st :=
  {| running := running ss; success := success ss; reqstop := b;
     mode := mode ss; snapped := snapped ss; started := started ss;
     stopped := stopped ss; prefix := prefix ss; nprefix := nprefix ss;
     file := file ss; buffer := buffer ss; cb_snapshot_done := cb_snapshot_done ss;
     initialized := initialized ss |}.

Definition with_snapped (ss : snapshot_st) (n : Z) : snapshot_st :=
  {| running := running ss; success := success ss; reqstop := reqstop ss;
     mode := mode ss; snapped := n; started := started ss;
     stopped := stopped ss; prefix := prefix ss; nprefix := nprefix ss;
     file := file ss; buffer := buffer ss; cb_snapshot_done := cb_snapshot_done ss;
     initialized := initialized ss |}.

Definition with_result (ss : snapshot_st) (ok : bool) (t : Z) : snapshot_st :=
  {| running := running ss; success := ok; reqstop := reqstop ss;
     mode := mode ss; snapped := snapped ss; started := started ss;
     stopped := t; prefix := prefix ss; nprefix := nprefix ss;
     file := file ss; buffer := buffer ss; cb_snapshot_done := cb_snapshot_done ss;
     initialized := initialized ss |}.

Definition with_curlen (ss : snapshot_st) (n : Z) : snapshot_st :=
  with_buffer ss {| memory := memory (buffer ss); maxlen := maxlen (buffer ss);
                    curlen := n |}.

Definition with_memory (ss : snapshot_st) (m : mem) : snapshot_st :=
  with_buffer ss {| memory := m; maxlen := maxlen (buffer ss);
                    curlen := curlen (buffer ss) |}.

Definition with_fd (ss : snapshot_st) (d : Z) : snapshot_st :=
  with_file ss {| path := path (file ss); fd := d; size := size (file ss) |}.

Definition with_size (ss : snapshot_st) (n : Z) : snapshot_st :=
  with_file ss {| path := path (file ss); fd := fd (file ss); size := n |}.

(** The bytes currently held in the buffer: memory[0 .. curlen). *)
Definition buffered (ss : snapshot_st) : bytes :=
  mem_load (memory (buffer ss)) 0 (curlen (buffer ss)).

(** ** Snapshot buffer functions *)

Definition do_snapshot_buffer_check_space (ss : snapshot_st) (w : world) (needsize : Z)
  : snapshot_st * world * Z :=
  let ssb := buffer ss in
  if u32 (curlen ssb + needsize) >? maxlen ssb then
    let '(w1, nwritten) := sys_write w (fd (file ss)) (mem_load (memory ssb) 0 (curlen ssb)) in
    if negb (u32 nwritten =? curlen ssb) then
      (ss, logger_log w1 EXTENSION_LOG_WARNING
                      "Failed to write the snapshot: nwritten != request", -1)
    else (with_curlen ss 0, w1, 0)
  else (ss, w, 0).

Definition do_snapshot_buffer_flush (ss : snapshot_st) (w : world)
  : snapshot_st * world * Z :=
  let ssb := buffer ss in
  let '(ss1, w1, failed) :=
    if curlen ssb >? 0 then
      let '(w1, nwritten) := sys_write w (fd (file ss)) (mem_load (memory ssb) 0 (curlen ssb)) in
      if negb (u32 nwritten =? curlen ssb) then
        (ss, logger_log w1 EXTENSION_LOG_WARNING
                        "Failed to write the snapshot: nwritten != request", true)
      else (with_curlen ss 0, w1, false)
    else (ss, w, false) in
  if failed then (ss1, w1, -1)
  else
    (* (void)fsync(ss->file.fd): the result is dropped *)
    let '(w2, _) := sys_fsync w1 (fd (file ss1)) in
    (ss1, w2, 0).

Definition do_snapshot_buffer_reset (ss : snapshot_st) : snapshot_st :=
  with_curlen ss 0.

(** The step every encoder repeats once the space check has passed:
    bufptr = &ssb->memory[ssb->curlen]; copy [b] there; curlen += [n]. *)
Definition buffer_put (ss : snapshot_st) (b : bytes) (n : Z) : snapshot_st :=
  let ssb := buffer ss in
  with_curlen (with_memory ss (mem_store (memory ssb) (curlen ssb) b))
              (u32 (curlen ssb + n)).

(** A function that contains an assert either returns or stops the process. *)
Inductive outcome (A : Type) :=
| Returns (a : A)
| AssertFails.
Arguments Returns {A} a.
Arguments AssertFails {A}.

Section Writer.
Context {D : ExtDecls}.

(** ** mode == CHKPT_SNAPSHOT_MODE_KEY *)

(** Step 3) of the key line, "<exptime>": the bytes stored at bufptr and
    the value of [length].  sprintf also stores the terminating NUL, which
    [length] does not count. *)
Definition key_exptime_field (it : hash_item) (curtime : Z) : bytes * Z :=
  if exptime it =? 0 then
    (bytes_of " 0" ++ [NL], 3)
  else if ENABLE_STICKY_ITEM && (exptime it =? u32 (-1)) then
    (bytes_of " -1" ++ [NL], 4)
  else
    let diff_time :=
      if exptime it >? curtime then u32 (exptime it - curtime) else 1 in
    let s := bytes_of " " ++ fmt_u diff_time ++ [NL] in
    (s ++ [x00], blen s).

(** One round of the for loop of do_snapshot_key_dump. *)
Definition key_dump_item (ss : snapshot_st) (w : world) (curtime : Z) (it : hash_item)
  : snapshot_st * world * Z :=
  let needsize := 24 in
  let '(ss1, w1, r) := do_snapshot_buffer_check_space ss w (needsize + nkey it) in
  if r <? 0 then (ss1, w1, -1)
  else
    let type := GET_ITEM_TYPE it in
    let tchar := firstn 1 (bytes_of (nth (Z.to_nat type) item_type_string ""%string)) in
    let '(fld, length) := key_exptime_field it curtime in
    let line := tchar ++ bytes_of " " ++ item_key it ++ fld in
    let ss2 := buffer_put ss1 line (length + nkey it + 2) in
    (with_snapped ss2 (u64 (snapped ss2 + 1)), w1, 0).

Fixpoint key_dump_loop (ss : snapshot_st) (w : world) (curtime : Z)
         (items : list hash_item) : snapshot_st * world * Z :=
  match items with
  | [] => (ss, w, 0)
  | it :: rest =>
      let '(ss1, w1, r) := key_dump_item ss w curtime it in
      if r <? 0 then (ss1, w1, -1)
      else key_dump_loop ss1 w1 curtime rest
  end.

Definition do_snapshot_key_dump (ss : snapshot_st) (w : world)
           (item_array : list hash_item) (item_count : Z)
           (args : option (list elems_result_t)) : snapshot_st * world * Z :=
  let curtime := w_curtime w in
  key_dump_loop ss w curtime (firstn (Z.to_nat item_count) item_array).

Definition prefix_string (ss : snapshot_st) : string :=
  if nprefix ss >? 0 then match prefix ss with Some p => p | None => ""%string end
  else if nprefix ss =? 0 then "<null>"%string else "<all>"%string.

Definition do_snapshot_key_done (ss : snapshot_st) (w : world)
  : snapshot_st * world * Z :=
  let needsize := 256 in
  let '(ss1, w1, r) := do_snapshot_buffer_check_space ss w needsize in
  if r <? 0 then (ss1, w1, -1)
  else
    let text :=
      bytes_of "SNAPSHOT SUMMARY: { prefix=" ++ bytes_of (prefix_string ss1)
      ++ bytes_of ", count=" ++ fmt_u (snapped ss1)
      ++ bytes_of ", elapsed=" ++ fmt_u (u64 (w_time w1 - started ss1))
      ++ bytes_of " }" ++ [NL] in
    (* snprintf stores at most needsize - 1 characters and a NUL, and
       returns the length of the whole text *)
    let stored := firstn (Z.to_nat (needsize - 1)) text ++ [x00] in
    let length := blen text in
    let ss2 := buffer_put ss1 stored length in
    let '(ss3, w3, r3) := do_snapshot_buffer_flush ss2 w1 in
    if r3 <? 0 then (ss3, w3, -1) else (ss3, w3, 0).

(** ** mode == CHKPT_SNAPSHOT_MODE_DATA || mode == CHKPT_SNAPSHOT_MODE_CHKPT *)

(** The inner for loop over eresult->elem_array. *)
Fixpoint data_dump_elems (ss : snapshot_st) (w : world) (it : hash_item)
         (elems : list elem) : snapshot_st * world * Z :=
  match elems with
  | [] => (ss, w, 0)
  | e :: rest =>
      let elog := lrec_snapshot_elem it e in
      let logsize := blen elog in
      let '(ss1, w1, r) := do_snapshot_buffer_check_space ss w logsize in
      if r <? 0 then (ss1, w1, -1)
      else data_dump_elems (buffer_put ss1 elog logsize) w1 it rest
  end.

(** The outer for loop, at index [i] of item_array. *)
Fixpoint data_dump_loop (ss : snapshot_st) (w : world) (items : list hash_item)
         (erst_array : option (list elems_result_t)) (i : nat)
  : snapshot_st * world * Z :=
  match items with
  | [] => (ss, w, 0)
  | it :: rest =>
      let log := lrec_link_item it in
      let logsize := blen log in
      let '(ss1, w1, r) := do_snapshot_buffer_check_space ss w logsize in
      if r <? 0 then (ss1, w1, -1)
      else
        let ss2 := buffer_put ss1 log logsize in
        let '(ss3, w3, ret) :=
          match erst_array with
          | Some arr =>
              if IS_COLL_ITEM it then
                let eresult := nth i arr {| elem_array := [] |} in
                data_dump_elems ss2 w1 it (elem_array eresult)
              else (ss2, w1, 0)
          | None => (ss2, w1, 0)
          end in
        if ret =? -1 then (ss3, w3, -1)
        else data_dump_loop (with_snapped ss3 (u64 (snapped ss3 + 1))) w3 rest
                            erst_array (S i)
  end.

Definition do_snapshot_data_dump (ss : snapshot_st) (w : world)
           (item_array : list hash_item) (item_count : Z)
           (args : option (list elems_result_t)) : snapshot_st * world * Z :=
  data_dump_loop ss w (firstn (Z.to_nat item_count) item_array) args 0.

Definition do_snapshot_data_done (ss : snapshot_st) (w : world)
  : snapshot_st * world * Z :=
  let log := lrec_snapshot_done in
  let logsize := blen log in
  let '(ss1, w1, r) := do_snapshot_buffer_check_space ss w logsize in
  if r <? 0 then (ss1, w1, -1)
  else
    let ss2 := buffer_put ss1 log logsize in
    let '(ss3, w3, r3) := do_snapshot_buffer_flush ss2 w1 in
    if r3 <? 0 then (ss3, w3, -1) else (ss3, w3, 0).

(** snapshot_func[mode].dump and snapshot_func[mode].done: entry 0 is the
    key pair, entries 1 and 2 are the data pair. *)
Definition snapshot_func_dump (m : Z) :=
  if m =? CHKPT_SNAPSHOT_MODE_KEY then do_snapshot_key_dump else do_snapshot_data_dump.

Definition snapshot_func_done (m : Z) :=
  if m =? CHKPT_SNAPSHOT_MODE_KEY then do_snapshot_key_done else do_snapshot_data_done.

(** ** Controller helpers *)

Definition do_snapshot_argcheck (m : Z) (w : world) : world * ENGINE_ERROR_CODE :=
  if m >=? CHKPT_SNAPSHOT_MODE_MAX then
    (logger_log w EXTENSION_LOG_WARNING
                "Failed to start snapshot. Given mode is invalid.", ENGINE_EBADVALUE)
  else (w, ENGINE_SUCCESS).

Definition do_snapshot_prepare (ss : snapshot_st) (w : world) (m : Z)
           (pfx : option string) (npfx : Z) (filepath : option string)
           (callback : option Z) : snapshot_st :=
  let fp := match filepath with Some p => p | None => "chkpt_snapshot"%string end in
  do_snapshot_buffer_reset
    {| running := running ss;
       success := false;
       reqstop := false;
       mode := m;
       snapped := 0;
       started := w_time w;
       stopped := 0;
       prefix := pfx;
       nprefix := npfx;
       file := {| path := substring 0 (Z.to_nat (MAX_FILEPATH_LENGTH - 1)) fp;
                  fd := -1;
                  size := 0 |};
       buffer := buffer ss;
       cb_snapshot_done := callback;
       initialized := initialized ss |}.

(** ** The scan-drain loop *)

(** One answer of the item scanner to item_scan_getnext, together with what
    the stop path has done to ss->reqstop by the time the loop tests it. *)
Record scan_result := {
  sr_reqstop : bool;
  sr_count : Z;
  sr_items : list hash_item;
  sr_elems : list elems_result_t
}.

(** The scanner has nothing left. *)
Definition scan_exhausted : scan_result :=
  {| sr_reqstop := false; sr_count := -1; sr_items := []; sr_elems := [] |}.

Inductive loop_ctl :=
| Continue
| Break (snapshot_done : bool).

(** The body of while (1) in do_snapshot_action. *)
Definition scan_body (ss : snapshot_st) (w : world) (use_erst : bool) (r : scan_result)
  : snapshot_st * world * loop_ctl :=
  let ss0 := if sr_reqstop r then with_reqstop ss true else ss in
  if reqstop ss0 then
    (ss0, logger_log w EXTENSION_LOG_INFO "Ongoing snapshot recognized stop request.",
     Break false)
  else
    let item_count := sr_count r in
    let erst_array := if use_erst then Some (sr_elems r) else None in
    let w1 := emit w (EvScanGetnext item_count) in
    if item_count =? -2 then
      (ss0, logger_log w1 EXTENSION_LOG_WARNING
                       "The item scan function has failed by out of memory.",
       Break false)
    else if item_count <? 0 then
      let '(ss1, w2, rd) := snapshot_func_done (mode ss0) ss0 (emit w1 (EvDone (mode ss0))) in
      if rd <? 0 then
        (ss1, logger_log w2 EXTENSION_LOG_WARNING "The snapshot done function has failed.",
         Break false)
      else (ss1, w2, Break true)
    else if item_count >? 0 then
      let '(ss1, w2, ret) :=
        snapshot_func_dump (mode ss0) ss0 (emit w1 (EvDump (mode ss0) item_count))
                           (sr_items r) item_count erst_array in
      let w3 := emit w2 (EvScanRelease item_count) in
      if ret <? 0 then
        (ss1, logger_log w3 EXTENSION_LOG_WARNING "The snapshot dump function has failed.",
         Break false)
      else (ss1, w3, Continue)
    else (ss0, w1, Continue).

(** while (1) over the answers the scanner gives; once they are used up the
    scanner reports the end of the scan. *)
Fixpoint scan_loop (ss : snapshot_st) (w : world) (use_erst : bool)
         (scan : list scan_result) : snapshot_st * world * bool :=
  match scan with
  | [] =>
      match scan_body ss w use_erst scan_exhausted with
      | (ss1, w1, Break d) => (ss1, w1, d)
      | (ss1, w1, Continue) => (ss1, w1, false)
      end
  | r :: rest =>
      match scan_body ss w use_erst r with
      | (ss1, w1, Break d) => (ss1, w1, d)
      | (ss1, w1, Continue) => scan_loop ss1 w1 use_erst rest
      end
  end.

Fixpoint emit_n (w : world) (e : event) (n : nat) : world :=
  match n with
  | O => w
  | S k => emit_n (emit w e) e k
  end.

Definition do_snapshot_action (ss : snapshot_st) (w : world) (scan : list scan_result)
  : snapshot_st * world * bool :=
  let '(w1, newfd) := sys_open_trunc w (path (file ss)) in
  let ss1 := with_fd ss newfd in
  let '(ss2, w2, use_erst, snapshot_done) :=
    if newfd <? 0 then
      (ss1, logger_log w1 EXTENSION_LOG_WARNING "Failed to open the snapshot file.",
       false, false)
    else
      let use_erst := (mode ss1 =? CHKPT_SNAPSHOT_MODE_DATA)
                      || (mode ss1 =? CHKPT_SNAPSHOT_MODE_CHKPT) in
      let w2 := if use_erst
                then emit_n w1 EvCollResultInit (Z.to_nat SCAN_ITEM_ARRAY_SIZE)
                else w1 in
      let hook := mode ss1 =? CHKPT_SNAPSHOT_MODE_CHKPT in
      let w3 := emit w2 (EvScanOpen hook) in
      let '(ss4, w4, d) := scan_loop ss1 w3 use_erst scan in
      (ss4, emit w4 (EvScanClose hook d), use_erst, d) in
  (* done: *)
  let w3 := if use_erst
            then emit_n w2 EvCollResultFree (Z.to_nat SCAN_ITEM_ARRAY_SIZE)
            else w2 in
  let '(ss3, w4) :=
    if fd (file ss2) >? 0 then
      let '(w', sz) := sys_lseek_end w3 (fd (file ss2)) 0 in
      (with_fd (with_size ss2 sz) (-1), sys_close w' (fd (file ss2)))
    else (ss2, w3) in
  (with_result ss3 snapshot_done (w_time w4), w4, snapshot_done).

(** ** Controller *)

Definition do_snapshot_direct (ss : snapshot_st) (w : world) (m : Z)
           (pfx : option string) (npfx : Z) (filepath : option string)
           (scan : list scan_result) : snapshot_st * world * ENGINE_ERROR_CODE :=
  if running ss then
    (ss, logger_log w EXTENSION_LOG_INFO "Failed to start snapshot. Already started.",
     ENGINE_FAILED)
  else
    let ss1 := with_running (do_snapshot_prepare ss w m pfx npfx filepath None) true in
    let w1 := emit w EvUnlock in
    let '(ss2, w2, ok) := do_snapshot_action ss1 w1 scan in
    let '(w3, ret) :=
      if ok then (logger_log w2 EXTENSION_LOG_INFO "Done the snapshot action.", ENGINE_SUCCESS)
      else (logger_log w2 EXTENSION_LOG_INFO "Failed to do snapshot action", ENGINE_FAILED) in
    let w4 := emit w3 EvLock in
    (with_running ss2 false, w4, ret).


(** The worker itself runs beside the caller; here only its creation shows. *)
Definition do_snapshot_start (ss : snapshot_st) (w : world) (m : Z)
           (pfx : option string) (npfx : Z) (filepath : option string)
           (callback : option Z) : snapshot_st * world * ENGINE_ERROR_CODE :=
  if running ss then
    (ss, logger_log w EXTENSION_LOG_INFO "Failed to start snapshot. Already started.",
     ENGINE_FAILED)
  else
    let ss1 := with_running (do_snapshot_prepare ss w m pfx npfx filepath callback) true in
    if negb (w_thread_ok w) then
      (with_running ss1 false,
       logger_log (emit w (EvThreadCreate false)) EXTENSION_LOG_WARNING
                  "Failed to create the snapshot thread.",
       ENGINE_FAILED)
    else (ss1, emit w (EvThreadCreate true), ENGINE_SUCCESS).

(** while (ss->running) of do_snapshot_stop.  While the caller sleeps with
    the lock released the other threads act on the anchor; [others] lists
    what they do to it in each such window.  With no window left and the run
    still going the loop keeps polling: [None]. *)
Fixpoint stop_loop (ss : snapshot_st) (w : world) (wait_stop : bool)
         (others : list (snapshot_st -> snapshot_st)) : option (snapshot_st * world) :=
  if running ss then
    let ss1 := with_reqstop ss true in
    if wait_stop then
      match others with
      | [] => None
      | act :: rest =>
          stop_loop (act ss1) (emit (emit (emit w EvUnlock) (EvUsleep 1000)) EvLock)
                    wait_stop rest
      end
    else Some (ss1, w)
  else Some (ss, w).

Definition do_snapshot_stop (ss : snapshot_st) (w : world) (wait_stop : bool)
           (others : list (snapshot_st -> snapshot_st)) : option (snapshot_st * world) :=
  if negb (running ss) || (mode ss =? CHKPT_SNAPSHOT_MODE_CHKPT) then Some (ss, w)
  else
    match stop_loop ss w wait_stop others with
    | Some (ss1, w1) =>
        Some (ss1, logger_log w1 EXTENSION_LOG_INFO "Snapshot thread stopped.")
    | None => None
    end.

(** ** External functions of the writer *)

(** The anchor after chkpt_snapshot_init with the buffer obtained from
    malloc: its contents [m] are whatever the allocator left there. *)
Definition chkpt_snapshot_init (m : mem) : snapshot_st :=
  {| running := false;
     success := false;
     reqstop := false;
     mode := CHKPT_SNAPSHOT_MODE_MAX;
     snapped := 0;
     started := 0;
     stopped := 0;
     prefix := None;
     nprefix := -1;
     file := {| path := ""%string; fd := -1; size := 0 |};
     buffer := {| memory := m; maxlen := SNAPSHOT_BUFFER_SIZE; curlen := 0 |};
     cb_snapshot_done := None;
     initialized := true |}.

Definition chkpt_snapshot_direct (ss : snapshot_st) (w : world) (m : Z)
           (pfx : option string) (npfx : Z) (filepath : option string)
           (scan : list scan_result)
  : snapshot_st * world * ENGINE_ERROR_CODE * option Z :=
  let '(w0, ret) := do_snapshot_argcheck m w in
  if negb (err_eqb ret ENGINE_SUCCESS) then (ss, w0, ret, None)
  else
    let w1 := emit w0 EvLock in
    let '(ss2, w2, ret2) := do_snapshot_direct ss w1 m pfx npfx filepath scan in
    let filesize := if err_eqb ret2 ENGINE_SUCCESS then Some (size (file ss2)) else None in
    (ss2, emit w2 EvUnlock, ret2, filesize).

Definition chkpt_snapshot_start (ss : snapshot_st) (w : world) (m : Z)
           (pfx : option string) (npfx : Z) (filepath : option string)
           (callback : option Z) : snapshot_st * world * ENGINE_ERROR_CODE :=
  let '(w0, ret) := do_snapshot_argcheck m w in
  if negb (err_eqb ret ENGINE_SUCCESS) then (ss, w0, ret)
  else
    let w1 := emit w0 EvLock in
    let '(ss2, w2, ret2) := do_snapshot_start ss w1 m pfx npfx filepath callback in
    (ss2, emit w2 EvUnlock, ret2).

Definition chkpt_snapshot_stop (ss : snapshot_st) (w : world)
           (others : list (snapshot_st -> snapshot_st)) : option (snapshot_st * world) :=
  match do_snapshot_stop ss (emit w EvLock) true others with
  | Some (ss1, w1) => Some (ss1, emit w1 EvUnlock)
  | None => None
  end.

End Writer.

(** ** Recovery *)

Section Recovery.
Context {D : ExtDecls} {E : Engine}.

(** open(filepath, O_RDONLY) *)
Definition sys_open_rdonly (w : world) (filepath : string) : world * Z :=
  let newfd := w_open w in
  if newfd <? 0 then (emit w (EvOpen filepath newfd), newfd)
  else (emit (set_pos w 0) (EvOpen filepath newfd), newfd).

(** Check snapshot file validity by inspecting SnapshotDone log record.
    [filesize] is the value behind the caller's pointer; the second
    component of the result is its value afterwards. *)
Definition chkpt_snapshot_check_file_validity (w : world) (fd : Z) (filesize : Z)
  : outcome (world * Z * Z) :=
  if negb (fd >? 0) then AssertFails
  else
    let sizeof_log := sizeof_SnapshotDoneLog in
    let '(w1, offset) := sys_lseek_end w fd (- sizeof_log) in
    if offset <? 0 then Returns (w1, filesize, -1)
    else
      let '(w2, log, nread) := sys_read w1 fd sizeof_log in
      if negb (nread =? sizeof_log) then Returns (w2, filesize, -1)
      else
        let w3 := sys_lseek_set w2 fd 0 in
        Returns (w3, offset + sizeof_log, lrec_check_snapshot_done log).

(** The first half of the loop body of chkpt_snapshot_file_apply: read one
    record into the buffer.  [None] is the path that sets ret = -1 and
    leaves the loop.  [EvRecord] marks in the trace a record that has been
    read completely. *)
Definition read_logrec (w : world) (fd : Z) : world * option LogRec :=
  let '(w1, hbytes, nread) := sys_read w fd sizeof_LogHdr in
  if negb (nread =? sizeof_LogHdr) then
    (logger_log w1 EXTENSION_LOG_WARNING
                "[RECOVERY - SNAPSHOT] failed : read header data", None)
  else
    let loghdr := LogHdr_of_bytes hbytes in
    if body_length loghdr >? 0 then
      let max_body_length := MAX_LOG_RECORD_SIZE - sizeof_LogHdr in
      if max_body_length <? body_length loghdr then
        (logger_log w1 EXTENSION_LOG_WARNING
                    "[RECOVERY - SNAPSHOT] failed : body length is abnormally too big", None)
      else
        let '(w2, bbytes, nread2) := sys_read w1 fd (body_length loghdr) in
        if negb (nread2 =? body_length loghdr) then
          (logger_log w2 EXTENSION_LOG_WARNING
                      "[RECOVERY - SNAPSHOT] failed : read body data", None)
        else
          let logrec := {| header := loghdr; body := bbytes; elem_owner := None |} in
          (emit w2 (EvRecord logrec), Some logrec)
    else
      let logrec := {| header := loghdr; body := []; elem_owner := None |} in
      (emit w1 (EvRecord logrec), Some logrec).

(** lrec_set_item_in_snapshot_elem *)
Definition lrec_set_item_in_snapshot_elem (logrec : LogRec) (it : hash_item) : LogRec :=
  {| header := header logrec; body := body logrec; elem_owner := Some it |}.

Inductive apply_ctl :=
| ApContinue (last_coll_it : option hash_item)
| ApBreak (ret : Z)
| ApAssert.

(** The second half of the loop body: dispatch on the record kind.
    [EvItemGet] marks the reference that comes back from
    lrec_get_item_if_collection_link. *)
Definition apply_logrec (e : engine_st) (w : world) (last_coll_it : option hash_item)
           (logrec : LogRec) : engine_st * world * apply_ctl :=
  let loghdr := header logrec in
  if logtype loghdr =? LOG_IT_LINK then
    let '(e1, err) := lrec_redo_from_record e logrec in
    let w1 := emit w (EvRedo logrec err) in
    let w2 :=
      if negb (err_eqb err ENGINE_SUCCESS) then
        logger_log w1 EXTENSION_LOG_WARNING
          "[RECOVERY - SNAPSHOT] warning : item link log record redo failed."
      else w1 in
    if negb (err_eqb err ENGINE_SUCCESS) && err_eqb err ENGINE_ENOMEM then
      (e1, logger_log w2 EXTENSION_LOG_WARNING
                      "[RECOVERY - SNAPSHOT] failed : out of memory.", ApBreak (-1))
    else
      let '(e2, w3) :=
        match last_coll_it with
        | Some it => (item_release e1 it, emit w2 (EvItemRelease it))
        | None => (e1, w2)
        end in
      let '(e3, got) := lrec_get_item_if_collection_link e2 logrec in
      let w4 := match got with Some it => emit w3 (EvItemGet it) | None => w3 end in
      (e3, w4, ApContinue got)
  else
    match (if logtype loghdr =? LOG_SNAPSHOT_ELEM then last_coll_it else None) with
    | Some it =>
        if negb (IS_COLL_ITEM it) then (e, w, ApAssert)
        else
          let logrec1 := lrec_set_item_in_snapshot_elem logrec it in
          let '(e1, err) := lrec_redo_from_record e logrec1 in
          let w1 := emit w (EvRedo logrec1 err) in
          let w2 :=
            if negb (err_eqb err ENGINE_SUCCESS) then
              logger_log w1 EXTENSION_LOG_WARNING
                "[RECOVERY - SNAPSHOT] warning : snapshot elem log record redo failed."
            else w1 in
          if negb (err_eqb err ENGINE_SUCCESS) && err_eqb err ENGINE_ENOMEM then
            (e1, logger_log w2 EXTENSION_LOG_WARNING
                            "[RECOVERY - SNAPSHOT] failed : out of memory.", ApBreak (-1))
          else (e1, w2, ApContinue last_coll_it)
    | None =>
        if logtype loghdr =? LOG_SNAPSHOT_DONE then
          let '(e1, w1) :=
            match last_coll_it with
            | Some it => (item_release e it, emit w (EvItemRelease it))
            | None => (e, w)
            end in
          (e1, logger_log w1 EXTENSION_LOG_INFO "[RECOVERY - SNAPSHOT] success.", ApBreak 0)
        else (e, w, ApContinue last_coll_it)
    end.

(** while (engine->initialized) { ... }.  Every round that goes on has read
    a whole header, so the rounds are bounded by the bytes left in the
    file; [fuel] counts them and [None] means it ran out. *)
Fixpoint apply_loop (fuel : nat) (e : engine_st) (w : world) (fd : Z)
         (last_coll_it : option hash_item)
  : option (engine_st * world * outcome Z) :=
  match fuel with
  | O => None
  | S fuel' =>
      if negb (engine_initialized e) then Some (e, w, Returns 0)
      else
        match read_logrec w fd with
        | (w1, None) => Some (e, w1, Returns (-1))
        | (w1, Some logrec) =>
            match apply_logrec e w1 last_coll_it logrec with
            | (e2, w2, ApContinue last') => apply_loop fuel' e2 w2 fd last'
            | (e2, w2, ApBreak ret) => Some (e2, w2, Returns ret)
            | (e2, w2, ApAssert) => Some (e2, w2, AssertFails)
            end
        end
  end.

Definition chkpt_snapshot_file_apply (e : engine_st) (w : world) (filepath : string)
  : option (engine_st * world * outcome Z) :=
  let w0 := logger_log w EXTENSION_LOG_INFO
                       "[RECOVERY - SNAPSHOT] applying snapshot file." in
  let '(w1, newfd) := sys_open_rdonly w0 filepath in
  if newfd <? 0 then
    Some (e, logger_log w1 EXTENSION_LOG_WARNING
                        "[RECOVERY - SNAPSHOT] failed : file open.", Returns (-1))
  else
    match apply_loop (S (List.length (w_disk w1))) e w1 newfd None with
    | Some (e1, w2, Returns ret) => Some (e1, sys_close w2 newfd, Returns ret)
    | Some (e1, w2, AssertFails) => Some (e1, w2, AssertFails)
    | None => None
    end.

End Recovery.

(** ** A concrete record layout and a concrete engine

    Used to run the definitions above on concrete files: an 8-byte header
    (kind, update kind, two reserved bytes, little-endian body length), a
    link body made of the item type followed by the key, an element body
    that is the element itself, and an engine that keeps the records it has
    redone, refusing a body that contains 0xff with ENGINE_ENOMEM and one
    that contains 0xfe with ENGINE_E2BIG. *)

Definition le32 (z : Z) : bytes :=
  [byte_of_Z z; byte_of_Z (z / 256); byte_of_Z (z / 65536); byte_of_Z (z / 16777216)].

Definition le32_decode (b : bytes) : Z :=
  Z_of_byte (nth 0 b x00) + 256 * Z_of_byte (nth 1 b x00)
  + 65536 * Z_of_byte (nth 2 b x00) + 16777216 * Z_of_byte (nth 3 b x00).

Definition sample_hdr (kind len : Z) : bytes :=
  [byte_of_Z kind; x00; x00; x00] ++ le32 len.

Definition sample_hdr_decode (b : bytes) : LogHdr :=
  {| logtype := Z_of_byte (nth 0 b x00); body_length := le32_decode (skipn 4 b) |}.

Definition sample_check_done (b : bytes) : Z :=
  if (logtype (sample_hdr_decode b) =? 18) && (body_length (sample_hdr_decode b) =? 0)
  then 0 else -1.

Definition sample_decls : ExtDecls := {|
  MAX_FILEPATH_LENGTH := 4096;
  ENABLE_STICKY_ITEM := true;
  sizeof_LogHdr := 8;
  sizeof_SnapshotDoneLog := 8;
  MAX_LOG_RECORD_SIZE := 2 * 1024 * 1024;
  LOG_IT_LINK := 0;
  LOG_SNAPSHOT_ELEM := 17;
  LOG_SNAPSHOT_DONE := 18;
  LogHdr_of_bytes := sample_hdr_decode;
  lrec_check_snapshot_done := sample_check_done;
  lrec_link_item := fun it =>
    sample_hdr 0 (1 + nkey it) ++ byte_of_Z (ittype it) :: item_key it;
  lrec_snapshot_elem := fun _ e => sample_hdr 17 (blen e) ++ e;
  lrec_snapshot_done := sample_hdr 18 0;
  sizeof_LogHdr_pos := eq_refl;
  sizeof_SnapshotDoneLog_pos := eq_refl;
  sizeof_LogHdr_fits := fun H => match H with eq_refl => I end;
  logtype_link_elem := fun H => match H with eq_refl => I end;
  logtype_link_done := fun H => match H with eq_refl => I end;
  logtype_elem_done := fun H => match H with eq_refl => I end
|}.

Definition sample_redo_err (b : bytes) : ENGINE_ERROR_CODE :=
  if existsb (Byte.eqb xff) b then ENGINE_ENOMEM
  else if existsb (Byte.eqb xfe) b then ENGINE_E2BIG
  else ENGINE_SUCCESS.

Definition sample_link_item (r : LogRec) : option hash_item :=
  match body r with
  | t :: key =>
      if Z_of_byte t =? 0 then None
      else Some {| ittype := Z_of_byte t; item_key := key; exptime := 0 |}
  | [] => None
  end.

Definition sample_engine : Engine := {|
  engine_st := list LogRec;
  engine_initialized := fun _ => true;
  lrec_redo_from_record := fun e r =>
    match sample_redo_err (body r) with
    | ENGINE_SUCCESS => (e ++ [r], ENGINE_SUCCESS)
    | err => (e, err)
    end;
  lrec_get_item_if_collection_link := fun e r => (e, sample_link_item r);
  item_release := fun e _ => e
|}.

(** A world with nothing on disk, no failing call, and an empty trace. *)
Definition quiet_world : world :=
  {| w_disk := []; w_pos := 0; w_io := []; w_open := 5; w_thread_ok := true;
     w_time := 1000; w_curtime := 100; w_trace := [] |}.

Definition world_with_disk (d : bytes) : world := set_disk quiet_world d.
Definition world_with_io (io : list io_outcome) : world := set_io quiet_world io.

(** The anchor right after chkpt_snapshot_init, on zeroed memory. *)
Definition anchor0 : snapshot_st := chkpt_snapshot_init (fun _ => x00).

(** The anchor while a run in mode [m] is going on. *)
Definition anchor_running (m : Z) : snapshot_st :=
  with_running
    (do_snapshot_prepare (D := sample_decls) anchor0 quiet_world m None (-1)
                         (Some "/tmp/f"%string) None)
    true.

Definition item_kv (key : string) (exp : Z) : hash_item :=
  {| ittype := 0; item_key := bytes_of key; exptime := exp |}.

Definition item_coll (t : Z) (key : string) (exp : Z) : hash_item :=
  {| ittype := t; item_key := bytes_of key; exptime := exp |}.

Definition batch (items : list hash_item) (elems : list elems_result_t) : scan_result :=
  {| sr_reqstop := false; sr_count := Z.of_nat (List.length items);
     sr_items := items; sr_elems := elems |}.

(** ** Vocabulary of the statements below *)

(** The world after the log line of a rejected start. *)
Definition already_started (w : world) : world :=
  logger_log w EXTENSION_LOG_INFO "Failed to start snapshot. Already started.".


(** The bytes of the <exptime> field that count into curlen. *)
Definition exptime_text {D : ExtDecls} (it : hash_item) (curtime : Z) : bytes :=
  let '(b, n) := key_exptime_field it curtime in firstn (Z.to_nat n) b.


(** The key line of an item: "<type> <key><exptime field>". *)
Definition key_line {D : ExtDecls} (it : hash_item) (curtime : Z) : bytes :=
  firstn 1 (bytes_of (nth (Z.to_nat (GET_ITEM_TYPE it)) item_type_string ""%string))
  ++ bytes_of " " ++ item_key it ++ exptime_text it curtime.

(** What one round of the waiting loop of do_snapshot_stop does outside the
    module: release the lock, sleep 1000 microseconds, take the lock. *)
Definition poll_window : list event := [EvUnlock; EvUsleep 1000; EvLock].

(** The anchor after the waiting loop went through the windows [acts]:
    before each one the loop has set reqstop. *)
Definition after_windows (ss : snapshot_st) (acts : list (snapshot_st -> snapshot_st))
  : snapshot_st :=
  fold_left (fun s act => act (with_reqstop s true)) acts ss.

Definition stopped_line : event :=
  EvLog EXTENSION_LOG_INFO "Snapshot thread stopped.".

(** The worker finishing a run in some window: running := false. *)
Definition worker_finishes (ss : snapshot_st) : snapshot_st := with_running ss false.

(** The worker still busy in some window: a few more items snapped. *)
Definition worker_busy (ss : snapshot_st) : snapshot_st :=
  with_snapped ss (u64 (snapped ss + 16)).

(** The last sizeof(SnapshotDoneLog) bytes of a file. *)
Definition trailing_record {D : ExtDecls} (disk : bytes) : bytes :=
  skipn (Z.to_nat (blen disk - sizeof_SnapshotDoneLog)) disk.

(** The file ends with a record that lrec_check_snapshot_done accepts. *)
Definition ends_with_done {D : ExtDecls} (disk : bytes) : Prop :=
  sizeof_SnapshotDoneLog <= blen disk
  /\ lrec_check_snapshot_done (trailing_record disk) = 0.

(** *** Writer *)

(** Calls an encoder may make: write, fsync and the logger. *)
Definition is_io_event (e : event) : bool :=
  match e with
  | EvWrite _ _ _ | EvFsync _ _ | EvLog _ _ => true
  | _ => false
  end.

(** A write that came back with anything but the number of bytes asked. *)
Definition short_write (e : event) : bool :=
  match e with
  | EvWrite _ buf ret => negb (ret =? blen buf)
  | _ => false
  end.

(** An fsync that failed. *)
Definition failed_fsync (e : event) : bool :=
  match e with
  | EvFsync _ ret => ret <? 0
  | _ => false
  end.

(** The bytes the write calls of a trace have put into the file. *)
Fixpoint transferred (evs : list event) : bytes :=
  match evs with
  | [] => []
  | EvWrite _ buf ret :: rest => firstn (Z.to_nat ret) buf ++ transferred rest
  | _ :: rest => transferred rest
  end.

(** The fill length is within the capacity, and the capacity is one a
    32-bit length can hold twice over. *)
Definition buf_ok (ss : snapshot_st) : Prop :=
  0 <= curlen (buffer ss) <= maxlen (buffer ss) /\ maxlen (buffer ss) < 2 ^ 31.

(** [ss'] differs from [ss] at most in the buffer contents, the fill length
    and the count of snapped items. *)
Definition same_run (ss ss' : snapshot_st) : Prop :=
  ss' = with_snapped (with_buffer ss (buffer ss')) (snapped ss')
  /\ maxlen (buffer ss') = maxlen (buffer ss).

(** The element records of one collection item, in order. *)
Definition elem_records {D : ExtDecls} (it : hash_item) (elems : list elem) : bytes :=
  List.concat (map (lrec_snapshot_elem it) elems).

Definition elems_at (erst_array : option (list elems_result_t)) (it : hash_item)
           (i : nat) : list elem :=
  match erst_array with
  | Some arr => if IS_COLL_ITEM it then elem_array (nth i arr {| elem_array := [] |}) else []
  | None => []
  end.

(** The records of a batch handed to do_snapshot_data_dump, in order: each
    item's link record followed by its element records. *)
Fixpoint data_records {D : ExtDecls} (items : list hash_item)
         (erst_array : option (list elems_result_t)) (i : nat) : bytes :=
  match items with
  | [] => []
  | it :: rest =>
      lrec_link_item it ++ elem_records it (elems_at erst_array it i)
      ++ data_records rest erst_array (S i)
  end.

(** Every record of the batch is at most [cap] bytes long. *)
Fixpoint data_fits {D : ExtDecls} (cap : Z) (items : list hash_item)
         (erst_array : option (list elems_result_t)) (i : nat) : Prop :=
  match items with
  | [] => True
  | it :: rest =>
      blen (lrec_link_item it) <= cap
      /\ Forall (fun e => blen (lrec_snapshot_elem it e) <= cap) (elems_at erst_array it i)
      /\ data_fits cap rest erst_array (S i)
  end.

(** The key lines of a batch handed to do_snapshot_key_dump. *)
Definition key_lines {D : ExtDecls} (items : list hash_item) (curtime : Z) : bytes :=
  List.concat (map (fun it => key_line it curtime) items).

(** Every item has one of the five item types and the space asked for its
    line is at most [cap]. *)
Definition key_fits (cap : Z) (items : list hash_item) : Prop :=
  Forall (fun it => 24 + nkey it <= cap /\ 0 <= ittype it < 5) items.

(** The parts of the world no encoder touches. *)
Definition same_env (w w' : world) : Prop :=
  w_time w' = w_time w /\ w_curtime w' = w_curtime w
  /\ w_open w' = w_open w /\ w_thread_ok w' = w_thread_ok w.

(** What an encoder that returned [r] has done to the world: it only
    wrote, synced and logged; the file grew by what its writes put there;
    and it returned -1 exactly when one of its writes came back short,
    0 otherwise. *)
Definition io_post (w w' : world) (r : Z) : Prop :=
  exists evs,
    w_trace w' = w_trace w ++ evs
    /\ forallb is_io_event evs = true
    /\ w_disk w' = w_disk w ++ transferred evs
    /\ (existsb short_write evs = true <-> r = -1)
    /\ (r = 0 \/ r = -1)
    /\ same_env w w'.

(** [io_post], plus: the anchor changed in buffer and count only, the
    buffer is still within its capacity, and on success the file followed
    by the buffer has grown by exactly [out]. *)
Definition enc_post (ss : snapshot_st) (w : world) (out : bytes)
           (ss' : snapshot_st) (w' : world) (r : Z) : Prop :=
  io_post w w' r
  /\ same_run ss ss'
  /\ buf_ok ss'
  /\ (r = 0 -> w_disk w' ++ buffered ss' = w_disk w ++ buffered ss ++ out).



(** Between [w] and [w'] the module only wrote, synced and logged. *)
Definition emits_io (w w' : world) : Prop :=
  exists evs, w_trace w' = w_trace w ++ evs /\ forallb is_io_event evs = true.

(** The summary line do_snapshot_key_done formats. *)
Definition key_summary (ss : snapshot_st) (w : world) : bytes :=
  bytes_of "SNAPSHOT SUMMARY: { prefix=" ++ bytes_of (prefix_string ss)
  ++ bytes_of ", count=" ++ fmt_u (snapped ss)
  ++ bytes_of ", elapsed=" ++ fmt_u (u64 (w_time w - started ss))
  ++ bytes_of " }" ++ [NL].

(** Counting calls in a trace. *)
Definition count_ev (p : event -> bool) (evs : list event) : nat :=
  List.length (filter p evs).


Definition is_done (e : event) : bool :=
  match e with EvDone _ => true | _ => false end.


Definition is_getnext (e : event) : bool :=
  match e with EvScanGetnext _ => true | _ => false end.



Definition dump_failed_line : event :=
  EvLog EXTENSION_LOG_WARNING "The snapshot dump function has failed.".



Definition is_write (e : event) : bool :=
  match e with EvWrite _ _ _ => true | _ => false end.

(** The array of element results handed to the dump step. *)
Definition erst_of (use_erst : bool) (r : scan_result) : option (list elems_result_t) :=
  if use_erst then Some (sr_elems r) else None.

Definition batch_items (r : scan_result) : list hash_item :=
  firstn (Z.to_nat (sr_count r)) (sr_items r).

(** Every space request the dump step makes for this batch is at most the
    capacity [cap]. *)
Definition batch_fits {D : ExtDecls} (m cap : Z) (use_erst : bool) (r : scan_result) : Prop :=
  if m =? CHKPT_SNAPSHOT_MODE_KEY then key_fits cap (batch_items r)
  else data_fits cap (batch_items r) (erst_of use_erst r) 0.

(** The space request of the done step is at most the capacity; for the
    key summary, moreover, the prefix has a length an int can hold with
    room for the rest of the line. *)
Definition done_fits {D : ExtDecls} (ss : snapshot_st) : Prop :=
  if mode ss =? CHKPT_SNAPSHOT_MODE_KEY
  then 256 <= maxlen (buffer ss) /\ blen (bytes_of (prefix_string ss)) < 2 ^ 31 - 88
  else blen lrec_snapshot_done <= maxlen (buffer ss).

Definition run_fits {D : ExtDecls} (ss : snapshot_st) (use_erst : bool)
           (scan : list scan_result) : Prop :=
  done_fits ss /\ Forall (batch_fits (mode ss) (maxlen (buffer ss)) use_erst) scan.

(** What a data snapshot that runs to completion over the answers [scan]
    writes: the records of every batch up to the end of the scan, then the
    SnapshotDone record. *)
Fixpoint data_run_output {D : ExtDecls} (use_erst : bool) (scan : list scan_result) : bytes :=
  match scan with
  | [] => lrec_snapshot_done
  | r :: rest =>
      if sr_count r <? 0 then lrec_snapshot_done
      else if sr_count r >? 0 then
        data_records (batch_items r) (erst_of use_erst r) 0 ++ data_run_output use_erst rest
      else data_run_output use_erst rest
  end.

(** Between [w] and [w'] the file grew by what the writes put there, and
    [ok] is false if one of them came back short. *)
Definition run_post (w w' : world) (ok : bool) : Prop :=
  exists evs,
    w_trace w' = w_trace w ++ evs
    /\ w_disk w' = w_disk w ++ transferred evs
    /\ (existsb short_write evs = true -> ok = false)
    /\ same_env w w'.

(** Between [w] and [w'] nothing was written. *)
Definition quiet (w w' : world) : Prop :=
  run_post w w' true /\ w_disk w' = w_disk w.

(** The flag do_snapshot_action computes to decide whether element results
    are collected. *)
Definition uses_erst (m : Z) : bool :=
  (m =? CHKPT_SNAPSHOT_MODE_DATA) || (m =? CHKPT_SNAPSHOT_MODE_CHKPT).

(** The anchor prepared for a run in mode [m] writing to /tmp/f. *)
Definition anchor_prepared (m : Z) : snapshot_st :=
  do_snapshot_prepare (D := sample_decls) anchor0 quiet_world m None (-1)
                      (Some "/tmp/f"%string) None.

(** A list, a set element and a plain item with what the collection
    subsystem returns for them. *)
Definition sample_batch : scan_result :=
  batch [item_kv "a" 0; item_coll 2 "bb" 150]
        [{| elem_array := [] |}; {| elem_array := [bytes_of "x"; bytes_of "yz"] |}].

(** *** Recovery *)

Definition is_close (e : event) : bool :=
  match e with EvClose _ => true | _ => false end.

(** The lines the replayer logs on the paths that set ret = -1. *)
Definition fatal_lines : list string :=
  ["[RECOVERY - SNAPSHOT] failed : read header data";
   "[RECOVERY - SNAPSHOT] failed : body length is abnormally too big";
   "[RECOVERY - SNAPSHOT] failed : read body data";
   "[RECOVERY - SNAPSHOT] failed : out of memory.";
   "[RECOVERY - SNAPSHOT] failed : file open."]%string.

Definition fatal_line (e : event) : bool :=
  match e with
  | EvLog EXTENSION_LOG_WARNING msg => existsb (String.eqb msg) fatal_lines
  | _ => false
  end.

Definition is_redo (e : event) : bool :=
  match e with EvRedo _ _ => true | _ => false end.

Definition is_log (e : event) : bool :=
  match e with EvLog _ _ => true | _ => false end.

(** The item reference held after the events [evs], when [held] was held
    before them. *)
Fixpoint holder (held : option hash_item) (evs : list event) : option hash_item :=
  match evs with
  | [] => held
  | EvItemGet it :: rest => holder (Some it) rest
  | EvItemRelease _ :: rest => holder None rest
  | _ :: rest => holder held rest
  end.

(** The discipline of item references along a trace: a reference is only
    taken while none is held, only the held one is released, a link record
    is redone as it was read, and any other record is redone only as an
    element tied to the reference held at that moment. *)
Fixpoint refs_ok {D : ExtDecls} (held : option hash_item) (evs : list event) : Prop :=
  match evs with
  | [] => True
  | EvItemGet it :: rest => held = None /\ refs_ok (Some it) rest
  | EvItemRelease it :: rest => held = Some it /\ refs_ok None rest
  | EvRedo rec _ :: rest =>
      (if logtype (header rec) =? LOG_IT_LINK then elem_owner rec = None
       else logtype (header rec) = LOG_SNAPSHOT_ELEM
            /\ exists it, elem_owner rec = Some it /\ held = Some it)
      /\ refs_ok held rest
  | _ :: rest => refs_ok held rest
  end.

(** The element records read while a reference was held, each tied to that
    reference, in the order read. *)
Fixpoint offered {D : ExtDecls} (held : option hash_item) (evs : list event) : list LogRec :=
  match evs with
  | [] => []
  | EvItemGet it :: rest => offered (Some it) rest
  | EvItemRelease _ :: rest => offered None rest
  | EvRecord rec :: rest =>
      match held with
      | Some it =>
          if logtype (header rec) =? LOG_SNAPSHOT_ELEM
          then {| header := header rec; body := body rec; elem_owner := Some it |}
               :: offered held rest
          else offered held rest
      | None => offered held rest
      end
  | _ :: rest => offered held rest
  end.

(** The element records handed to the redo path, in the order of the calls. *)
Fixpoint attached (evs : list event) : list LogRec :=
  match evs with
  | [] => []
  | EvRedo rec _ :: rest =>
      match elem_owner rec with
      | Some _ => rec :: attached rest
      | None => attached rest
      end
  | _ :: rest => attached rest
  end.

Definition is_get (e : event) : bool :=
  match e with EvItemGet _ => true | _ => false end.

Definition is_item_release (e : event) : bool :=
  match e with EvItemRelease _ => true | _ => false end.

(** Sample files for the replayer. *)
Definition rec_bytes (kind : Z) (b : bytes) : bytes := sample_hdr kind (blen b) ++ b.

(** A set "bb" with elements "x" and "yz", then the end mark. *)
Definition sample_file : bytes :=
  rec_bytes 0 (byte_of_Z 2 :: bytes_of "bb")
  ++ rec_bytes 17 (bytes_of "x") ++ rec_bytes 17 (bytes_of "yz") ++ rec_bytes 18 [].

(** The same, where the engine runs out of memory on the first element. *)
Definition sample_file_oom : bytes :=
  rec_bytes 0 (byte_of_Z 2 :: bytes_of "bb")
  ++ rec_bytes 17 [xff] ++ rec_bytes 17 (bytes_of "yz") ++ rec_bytes 18 [].

(** An element before any link, a record of an unknown kind, a link whose
    redo fails without being out of memory, then the end mark. *)
Definition sample_file_odd : bytes :=
  rec_bytes 17 (bytes_of "x") ++ rec_bytes 99 (bytes_of "??")
  ++ rec_bytes 0 (byte_of_Z 2 :: [xfe]) ++ rec_bytes 18 [].

(** Entries of the trace that neither take nor release a reference, nor
    redo or mark a record. *)
Definition plain (e : event) : bool :=
  match e with
  | EvItemGet _ | EvItemRelease _ | EvRedo _ _ | EvRecord _ => false
  | _ => true
  end.

Definition is_read (e : event) : bool :=
  match e with EvRead _ _ _ => true | _ => false end.

(** How many references are held: one or none. *)
Definition held_count (h : option hash_item) : nat :=
  match h with Some _ => 1 | None => 0 end.

(** What one round of the replay loop may add to the trace, given the
    reference held before it and the record it works on. *)
Definition apply_step_ok {D : ExtDecls} (last : option hash_item) (rec : LogRec)
           (evs : list event) (ctl_holder : option (option hash_item))
           (ret : option Z) : Prop :=
  refs_ok last evs
  /\ (forall h, offered h evs = [])
  /\ count_ev is_close evs = 0%nat
  /\ attached evs = offered last [EvRecord rec]
  /\ match ctl_holder with
     | Some l' => holder last evs = l' /\ existsb fatal_line evs = false
     | None => True
     end
  /\ match ret with
     | Some r => (r = 0 \/ r = -1) /\ (r = -1 <-> existsb fatal_line evs = true)
     | None => True
     end.

(** What a replay that returned [ret] has left in the trace. *)
Definition replay_ok {D : ExtDecls} (w : world) (evs : list event) (ret : Z) : Prop :=
  attached evs = offered None evs
  /\ (ret = 0 \/ ret = -1)
  /\ (ret = -1 <-> existsb fatal_line evs = true)
  /\ (0 <= w_open w ->
      count_ev is_close evs = 1%nat /\ exists pre, evs = pre ++ [EvClose (w_open w)])
  /\ (w_open w < 0 -> count_ev is_close evs = 0%nat /\ ret = -1).




(** A record the dispatch has no branch for: its kind is none of the three
    known ones, or it is an element and no item is held. *)
Definition no_branch {D : ExtDecls} (last : option hash_item) (rec : LogRec) : Prop :=
  (logtype (header rec) <> LOG_IT_LINK
   /\ logtype (header rec) <> LOG_SNAPSHOT_ELEM
   /\ logtype (header rec) <> LOG_SNAPSHOT_DONE)
  \/ (logtype (header rec) = LOG_SNAPSHOT_ELEM /\ last = None).

(** A record of a kind the layout does not know. *)
Definition odd_record : LogRec :=
  {| header := {| logtype := 99; body_length := 2 |}; body := bytes_of "??";
     elem_owner := None |}.

(** A prefix of 300 bytes, and the anchor prepared for a key snapshot of it. *)
Definition long_prefix : string := string_of_list_byte (repeat "a"%byte 300).

Definition anchor_long_prefix : snapshot_st :=
  do_snapshot_prepare (D := sample_decls) anchor0 quiet_world CHKPT_SNAPSHOT_MODE_KEY
                      (Some long_prefix) 300 (Some "/tmp/f"%string) None.

(** ** Statistics *)








(** ** Shutdown *)

Definition with_initialized (ss : snapshot_st) (b : bool) : snapshot_st :=
  {| running := running ss; success := success ss; reqstop := reqstop ss;
     mode := mode ss; snapped := snapped ss; started := started ss;
     stopped := stopped ss; prefix := prefix ss; nprefix := nprefix ss;
     file := file ss; buffer := buffer ss; cb_snapshot_done := cb_snapshot_done ss;
     initialized := b |}.

(** chkpt_snapshot_final.  [memory_live] tells whether ss->buffer.memory is
    not NULL; the second component of the result is its value afterwards
    (free followed by memory = NULL).  [others] and the result [None] are
    those of the stop it calls. *)
Definition chkpt_snapshot_final (ss : snapshot_st) (memory_live : bool) (w : world)
           (others : list (snapshot_st -> snapshot_st))
  : option (snapshot_st * bool * world) :=
  if negb (initialized ss) then Some (ss, memory_live, w)
  else
    match chkpt_snapshot_stop ss w others with
    | None => None
    | Some (ss1, w1) =>
        let '(ss2, w2) :=
          if negb (fd (file ss1) =? -1)
          then (with_fd ss1 (-1), sys_close w1 (fd (file ss1)))
          else (ss1, w1) in
        let live := if memory_live then false else memory_live in
        (* pthread_mutex_destroy(&ss->lock) *)
        Some (with_initialized ss2 false, live,
              logger_log w2 EXTENSION_LOG_INFO "SNAPSHOT module destroyed.")
    end.

(** ** Vocabulary of the further properties *)

(** The fields of the anchor that no step of a run touches once the file is
    open: everything but the buffer, the count, the stop request and the
    result. *)
Definition same_anchor (ss ss' : snapshot_st) : Prop :=
  file ss' = file ss /\ mode ss' = mode ss /\ running ss' = running ss
  /\ started ss' = started ss /\ prefix ss' = prefix ss /\ nprefix ss' = nprefix ss
  /\ cb_snapshot_done ss' = cb_snapshot_done ss /\ initialized ss' = initialized ss
  /\ maxlen (buffer ss') = maxlen (buffer ss).

(** Calls and marks the scan-drain loop may leave in the trace. *)
Definition is_loop_event (e : event) : bool :=
  match e with
  | EvWrite _ _ _ | EvFsync _ _ | EvLog _ _
  | EvScanGetnext _ | EvScanRelease _ | EvDump _ _ | EvDone _ => true
  | _ => false
  end.

(** Between [w] and [w'] only events accepted by [p] were added, the file
    grew by what the writes among them put there, and clock, open() and
    thread creation answer as before. *)
Definition trace_post (p : event -> bool) (w w' : world) : Prop :=
  same_env w w'
  /\ exists evs,
       w_trace w' = w_trace w ++ evs
       /\ forallb p evs = true
       /\ w_disk w' = w_disk w ++ transferred evs.

Definition open_failed_line : event :=
  EvLog EXTENSION_LOG_WARNING "Failed to open the snapshot file.".

Definition is_lock_event (e : event) : bool :=
  match e with EvLock | EvUnlock => true | _ => false end.

Definition is_callback (e : event) : bool :=
  match e with EvCallback _ => true | _ => false end.

Definition is_open (e : event) : bool :=
  match e with EvOpen _ _ => true | _ => false end.

(** The items a run over the answers [scan] hands to the dump step, up to
    the answer that ends the scan. *)
Fixpoint scan_items (scan : list scan_result) : list hash_item :=
  match scan with
  | [] => []
  | r :: rest =>
      if sr_count r <? 0 then [] else batch_items r ++ scan_items rest
  end.


(** The name a run is started with: the argument cut to the size of
    ss->file.path, or the default. *)
Definition snapshot_path {D : ExtDecls} (filepath : option string) : string :=
  substring 0 (Z.to_nat (MAX_FILEPATH_LENGTH - 1))
            (match filepath with Some p => p | None => "chkpt_snapshot"%string end).


(** Calls and marks do_snapshot_action may leave in the trace. *)
Definition is_action_event (e : event) : bool :=
  match e with
  | EvOpen _ _ | EvCollResultInit | EvCollResultFree | EvScanOpen _ | EvScanClose _ _
  | EvLseekEnd _ _ _ | EvClose _ => true
  | _ => is_loop_event e
  end.



Definition action_done_line : event :=
  EvLog EXTENSION_LOG_INFO "Done the snapshot action.".

Definition action_failed_line : event :=
  EvLog EXTENSION_LOG_INFO "Failed to do snapshot action".


Definition stop_seen_line : event :=
  EvLog EXTENSION_LOG_INFO "Ongoing snapshot recognized stop request.".

(** *** From the writer to the replayer *)

(** A record as the writer lays it out for the replayer: at least a header
    and at most MAX_LOG_RECORD_SIZE bytes, whose header declares the kind
    [kind] and, as the length of the body, the number of bytes that follow
    the header. *)
Definition framed {D : ExtDecls} (kind : Z) (r : bytes) : Prop :=
  sizeof_LogHdr <= blen r <= MAX_LOG_RECORD_SIZE
  /\ logtype (LogHdr_of_bytes (firstn (Z.to_nat sizeof_LogHdr) r)) = kind
  /\ body_length (LogHdr_of_bytes (firstn (Z.to_nat sizeof_LogHdr) r))
     = blen r - sizeof_LogHdr.

(** The record the replayer holds once it has read those bytes. *)
Definition frame_rec {D : ExtDecls} (r : bytes) : LogRec :=
  {| header := LogHdr_of_bytes (firstn (Z.to_nat sizeof_LogHdr) r);
     body := skipn (Z.to_nat sizeof_LogHdr) r;
     elem_owner := None |}.

(** The records of a batch one by one, each with its kind: what
    [data_records] concatenates. *)
Fixpoint data_frames {D : ExtDecls} (items : list hash_item)
         (erst_array : option (list elems_result_t)) (i : nat) : list (Z * bytes) :=
  match items with
  | [] => []
  | it :: rest =>
      (LOG_IT_LINK, lrec_link_item it)
      :: map (fun e => (LOG_SNAPSHOT_ELEM, lrec_snapshot_elem it e))
             (elems_at erst_array it i)
      ++ data_frames rest erst_array (S i)
  end.

(** The records of a complete data snapshot before the SnapshotDone record:
    what [data_run_output] concatenates. *)
Fixpoint data_run_frames {D : ExtDecls} (use_erst : bool) (scan : list scan_result)
  : list (Z * bytes) :=
  match scan with
  | [] => []
  | r :: rest =>
      if sr_count r <? 0 then []
      else if sr_count r >? 0 then
        data_frames (batch_items r) (erst_of use_erst r) 0 ++ data_run_frames use_erst rest
      else data_run_frames use_erst rest
  end.

(** The records a replay has read completely, in the order read. *)
Definition records_read (evs : list event) : list LogRec :=
  flat_map (fun e => match e with EvRecord r => [r] | _ => [] end) evs.

(** Whether the line [msg] was logged. *)
Definition logged (msg : string) (evs : list event) : bool :=
  existsb (fun e => match e with EvLog _ m => String.eqb m msg | _ => false end) evs.

Definition replay_success_msg : string := "[RECOVERY - SNAPSHOT] success.".
Definition replay_oom_msg : string := "[RECOVERY - SNAPSHOT] failed : out of memory.".

(** The lines the replayer logs when the file itself is not what it
    expects: a short header, an oversized body, a short body. *)
Definition corrupt_line (e : event) : bool :=
  match e with
  | EvLog _ m =>
      existsb (String.eqb m)
              ["[RECOVERY - SNAPSHOT] failed : read header data";
               "[RECOVERY - SNAPSHOT] failed : body length is abnormally too big";
               "[RECOVERY - SNAPSHOT] failed : read body data"]%string
  | _ => false
  end.

Definition replay_success_line : event :=
  EvLog EXTENSION_LOG_INFO replay_success_msg.

Definition replay_start_line : event :=
  EvLog EXTENSION_LOG_INFO "[RECOVERY - SNAPSHOT] applying snapshot file.".

(** What the replayer releases when it meets the SnapshotDone record. *)
Definition release_events (last : option hash_item) : list event :=
  match last with Some it => [EvItemRelease it] | None => [] end.

Definition destroyed_line : event :=
  EvLog EXTENSION_LOG_INFO "SNAPSHOT module destroyed.".

(** The close chkpt_snapshot_final issues for a descriptor still in the
    anchor. *)
Definition final_close (d : Z) : list event :=
  if d =? -1 then [] else [EvClose d].

(** No byte outside the [maxlen] bytes of the buffer differs between the
    two anchors: whatever was stored in between went into the buffer. *)
Definition stores_within (ss ss' : snapshot_st) : Prop :=
  forall i, i < 0 \/ maxlen (buffer ss) <= i ->
            memory (buffer ss') i = memory (buffer ss) i.

(** *** Sample data for the further properties *)

(** A world in which open() fails. *)
Definition world_no_open : world :=
  {| w_disk := bytes_of "old"; w_pos := 0; w_io := []; w_open := -1; w_thread_ok := true;
     w_time := 1000; w_curtime := 100; w_trace := [] |}.


(** An answer of the scanner that comes with a stop request. *)
Definition stop_round : scan_result :=
  {| sr_reqstop := true; sr_count := 1; sr_items := [item_kv "z" 0]; sr_elems := [] |}.
(** * Properties *)

(** ** Basic facts about the world *)

Lemma next_io_quiet (w : world) :
  w_io w = [] -> next_io w = (IoOk, w).
Proof. unfold next_io. intros ->. reflexivity. Qed.

Lemma blen_nonneg (b : bytes) : 0 <= blen b.
Proof. unfold blen. lia. Qed.

Lemma blen_app (a b : bytes) : blen (a ++ b) = blen a + blen b.
Proof. unfold blen. rewrite length_app. lia. Qed.

Lemma blen_firstn (n : Z) (b : bytes) :
  0 <= n <= blen b -> blen (firstn (Z.to_nat n) b) = n.
Proof. unfold blen. intros Hn. rewrite length_firstn. lia. Qed.

Lemma blen_skipn (n : Z) (b : bytes) :
  0 <= n <= blen b -> blen (skipn (Z.to_nat n) b) = blen b - n.
Proof. unfold blen. intros Hn. rewrite length_skipn. lia. Qed.

Lemma clamp_full (n avail : Z) : 0 <= n <= avail -> clamp n avail = n.
Proof. unfold clamp. lia. Qed.

Lemma clamp_bounds (k n : Z) : 0 <= n -> 0 <= clamp k n <= n.
Proof. unfold clamp. lia. Qed.

(** ** Controller: a start while a run is going on *)

Section ControllerFacts.
Context {D : ExtDecls}.

(** C4.  While [running] is set, do_snapshot_start and do_snapshot_direct
    return ENGINE_FAILED at once: the anchor they return is the anchor they
    were given (mode, snapped, started, stopped, prefix, file and buffer
    included), the scanner is not consulted, and the only call that leaves
    the module is the log line, so no lock is released or taken and nothing
    sleeps.  For a valid mode the same holds for the external entry points,
    which only add taking and releasing the lock around the call. *)
Theorem start_while_running_rejected
        (ss : snapshot_st) (w : world) (m : Z) (pfx : option string) (npfx : Z)
        (filepath : option string) (callback : option Z) (scan : list scan_result) :
  0 <= m < CHKPT_SNAPSHOT_MODE_MAX ->
  running ss = true ->
  do_snapshot_start ss w m pfx npfx filepath callback
    = (ss, already_started w, ENGINE_FAILED)
  /\ do_snapshot_direct ss w m pfx npfx filepath scan
    = (ss, already_started w, ENGINE_FAILED)
  /\ chkpt_snapshot_start ss w m pfx npfx filepath callback
    = (ss, emit (already_started (emit w EvLock)) EvUnlock, ENGINE_FAILED)
  /\ chkpt_snapshot_direct ss w m pfx npfx filepath scan
    = (ss, emit (already_started (emit w EvLock)) EvUnlock, ENGINE_FAILED, None)
  /\ w_trace (already_started w)
    = w_trace w ++ [EvLog EXTENSION_LOG_INFO "Failed to start snapshot. Already started."].
Proof.
  intros Hm Hrun.
  assert (Harg : do_snapshot_argcheck m w = (w, ENGINE_SUCCESS)).
  { unfold do_snapshot_argcheck.
    destruct (m >=? CHKPT_SNAPSHOT_MODE_MAX) eqn:Em; [lia | reflexivity]. }
  assert (Hs : do_snapshot_start ss w m pfx npfx filepath callback
               = (ss, already_started w, ENGINE_FAILED)).
  { unfold do_snapshot_start. rewrite Hrun. reflexivity. }
  assert (Hd : do_snapshot_direct ss w m pfx npfx filepath scan
               = (ss, already_started w, ENGINE_FAILED)).
  { unfold do_snapshot_direct. rewrite Hrun. reflexivity. }
  repeat split; trivial.
  - unfold chkpt_snapshot_start. rewrite Harg. cbn.
    unfold do_snapshot_start. rewrite Hrun. reflexivity.
  - unfold chkpt_snapshot_direct. rewrite Harg. cbn.
    unfold do_snapshot_direct. rewrite Hrun. reflexivity.
Qed.

End ControllerFacts.

Lemma start_while_running_rejected_witness :
  0 <= CHKPT_SNAPSHOT_MODE_KEY < CHKPT_SNAPSHOT_MODE_MAX
  /\ running (anchor_running CHKPT_SNAPSHOT_MODE_DATA) = true
  /\ do_snapshot_start (D := sample_decls) (anchor_running CHKPT_SNAPSHOT_MODE_DATA)
       quiet_world CHKPT_SNAPSHOT_MODE_KEY None (-1) None None
     = (anchor_running CHKPT_SNAPSHOT_MODE_DATA, already_started quiet_world, ENGINE_FAILED).
Proof.
  assert (Hm : 0 <= CHKPT_SNAPSHOT_MODE_KEY < CHKPT_SNAPSHOT_MODE_MAX)
    by (unfold CHKPT_SNAPSHOT_MODE_KEY, CHKPT_SNAPSHOT_MODE_MAX; lia).
  assert (Hr : running (anchor_running CHKPT_SNAPSHOT_MODE_DATA) = true) by reflexivity.
  split; [exact Hm | split; [exact Hr |]].
  exact (proj1 (start_while_running_rejected (D := sample_decls)
                  (anchor_running CHKPT_SNAPSHOT_MODE_DATA) quiet_world
                  CHKPT_SNAPSHOT_MODE_KEY None (-1) None None [] Hm Hr)).
Defined.

(** ** The buffer as a byte sequence *)

Lemma mem_load_from_ext (m m' : mem) (n : nat) : forall off,
  (forall i, off <= i < off + Z.of_nat n -> m i = m' i) ->
  mem_load_from m off n = mem_load_from m' off n.
Proof.
  induction n as [|n IH]; intros off Hext; simpl; [reflexivity|].
  f_equal.
  - apply Hext. lia.
  - apply IH. intros i Hi. apply Hext. lia.
Qed.

Lemma mem_load_from_app (m : mem) (a b : nat) : forall off,
  mem_load_from m off (a + b) = mem_load_from m off a ++ mem_load_from m (off + Z.of_nat a) b.
Proof.
  induction a as [|a IH]; intros off.
  - simpl. replace (off + 0) with off by lia. reflexivity.
  - simpl (mem_load_from m off (S a + b)). rewrite IH. simpl. f_equal. f_equal. f_equal. lia.
Qed.

Lemma mem_load_from_length (m : mem) (n : nat) : forall off,
  List.length (mem_load_from m off n) = n.
Proof. induction n; intros; simpl; auto. Qed.

Lemma skipn_nth_cons (b : bytes) (k : nat) :
  (k < List.length b)%nat -> skipn k b = nth k b x00 :: skipn (S k) b.
Proof.
  revert k. induction b as [|x b IH]; intros k Hk; simpl in Hk; [lia|].
  destruct k as [|k]; [reflexivity|].
  simpl. apply IH. lia.
Qed.

Lemma mem_load_from_store_at (m : mem) (off : Z) (b : bytes) (n : nat) : forall k,
  (k + n <= List.length b)%nat ->
  mem_load_from (mem_store m off b) (off + Z.of_nat k) n = firstn n (skipn k b).
Proof.
  induction n as [|n IH]; intros k Hk; [reflexivity|].
  simpl mem_load_from.
  rewrite (skipn_nth_cons b k) by lia. simpl firstn. f_equal.
  - unfold mem_store, blen.
    destruct ((off <=? off + Z.of_nat k) && (off + Z.of_nat k <? off + Z.of_nat (List.length b))) eqn:Er.
    + f_equal. lia.
    + apply andb_false_iff in Er. destruct Er as [Er|Er]; lia.
  - replace (off + Z.of_nat k + 1) with (off + Z.of_nat (S k)) by lia.
    apply IH. lia.
Qed.

Lemma mem_load_store_below (m : mem) (off : Z) (b : bytes) (n : Z) :
  n <= off -> mem_load (mem_store m off b) 0 n = mem_load m 0 n.
Proof.
  intros Hn. unfold mem_load. apply mem_load_from_ext.
  intros i Hi. unfold mem_store.
  destruct (off <=? i) eqn:E1; [|reflexivity]. lia.
Qed.

(** After the put the buffer holds what it held before, followed by the
    first [n] of the bytes stored. *)
Lemma buffered_buffer_put (ss : snapshot_st) (b : bytes) (n : Z) :
  0 <= curlen (buffer ss) -> 0 <= n <= blen b ->
  curlen (buffer ss) + n < 2 ^ 32 ->
  buffered (buffer_put ss b n) = buffered ss ++ firstn (Z.to_nat n) b.
Proof.
  intros Hc Hn Hlt. unfold buffered, buffer_put. cbn.
  unfold u32. rewrite Z.mod_small by lia.
  unfold mem_load at 1.
  replace (Z.to_nat (curlen (buffer ss) + n))
    with (Z.to_nat (curlen (buffer ss)) + Z.to_nat n)%nat by lia.
  rewrite mem_load_from_app. f_equal.
  - apply mem_load_from_ext. intros i Hi. unfold mem_store.
    destruct (curlen (buffer ss) <=? i) eqn:E1; [lia | reflexivity].
  - rewrite Z2Nat.id by lia. cbn.
    replace (curlen (buffer ss)) with (curlen (buffer ss) + Z.of_nat 0) at 2 by lia.
    rewrite mem_load_from_store_at.
    + reflexivity.
    + unfold blen in Hn. lia.
Qed.

Lemma curlen_buffer_put (ss : snapshot_st) (b : bytes) (n : Z) :
  curlen (buffer (buffer_put ss b n)) = u32 (curlen (buffer ss) + n).
Proof. reflexivity. Qed.

Lemma maxlen_buffer_put (ss : snapshot_st) (b : bytes) (n : Z) :
  maxlen (buffer (buffer_put ss b n)) = maxlen (buffer ss).
Proof. reflexivity. Qed.



(** ** Controller: stop *)

Lemma w_trace_emit (w : world) (e : event) : w_trace (emit w e) = w_trace w ++ [e].
Proof. reflexivity. Qed.

Lemma stop_loop_wait_result (others : list (snapshot_st -> snapshot_st)) :
  forall ss w ss' w',
  stop_loop ss w true others = Some (ss', w') ->
  running ss' = false
  /\ exists k, (k <= List.length others)%nat
       /\ (running ss = true -> (0 < k)%nat)
       /\ ss' = after_windows ss (firstn k others)
       /\ w_trace w' = w_trace w ++ List.concat (repeat poll_window k).
Proof.
  induction others as [|act rest IH]; intros ss w ss' w' Hst.
  - simpl in Hst. destruct (running ss) eqn:Er; [discriminate|].
    injection Hst as <- <-. split; [exact Er|].
    exists 0%nat. simpl. rewrite app_nil_r. repeat split; auto; discriminate.
  - simpl in Hst. destruct (running ss) eqn:Er.
    + apply IH in Hst. destruct Hst as [Hf (k & Hk & _ & Hss & Htr)].
      split; [exact Hf|]. exists (S k). simpl. repeat split.
      * lia.
      * lia.
      * exact Hss.
      * rewrite Htr. rewrite !w_trace_emit. rewrite <- !app_assoc. reflexivity.
    + injection Hst as <- <-. split; [exact Er|].
      exists 0%nat. simpl. rewrite app_nil_r. repeat split; auto; try lia; discriminate.
Qed.

Lemma stop_loop_wait_returns (others : list (snapshot_st -> snapshot_st)) :
  forall ss w k,
  (k <= List.length others)%nat ->
  running (after_windows ss (firstn k others)) = false ->
  exists r, stop_loop ss w true others = Some r.
Proof.
  induction others as [|act rest IH]; intros ss w k Hk Hidle.
  - simpl. destruct k; [|simpl in Hk; lia]. simpl in Hidle. rewrite Hidle. eauto.
  - simpl. destruct (running ss) eqn:Er; [|eauto].
    destruct k as [|k]; [simpl in Hidle; congruence|].
    simpl in Hidle, Hk. eapply IH; [|exact Hidle]. lia.
Qed.

Section StopFacts.
Context {D : ExtDecls}.

(** C9.  do_snapshot_stop returns the anchor and the world untouched when
    no run is going on or the mode is CHKPT.  Otherwise it sets reqstop;
    without wait it returns right after that; with wait it goes through
    rounds of unlock, usleep(1000), lock, and when it returns [running] is
    false, the anchor is what the other threads left after that many
    rounds, and nothing else left the module but the final log line.  It
    does return as soon as some round ends with [running] false. *)
Theorem stop_behaviour (ss : snapshot_st) (w : world) (wait_stop : bool)
        (others : list (snapshot_st -> snapshot_st)) :
  (running ss = false \/ mode ss = CHKPT_SNAPSHOT_MODE_CHKPT ->
   do_snapshot_stop ss w wait_stop others = Some (ss, w))
  /\ (running ss = true -> mode ss <> CHKPT_SNAPSHOT_MODE_CHKPT ->
      do_snapshot_stop ss w false others
      = Some (with_reqstop ss true, emit w stopped_line))
  /\ (running ss = true -> mode ss <> CHKPT_SNAPSHOT_MODE_CHKPT ->
      forall ss' w',
      do_snapshot_stop ss w true others = Some (ss', w') ->
      running ss' = false
      /\ exists k, (0 < k <= List.length others)%nat
           /\ ss' = after_windows ss (firstn k others)
           /\ w_trace w' = w_trace w ++ List.concat (repeat poll_window k) ++ [stopped_line])
  /\ (running ss = true -> mode ss <> CHKPT_SNAPSHOT_MODE_CHKPT ->
      forall k, (k <= List.length others)%nat ->
      running (after_windows ss (firstn k others)) = false ->
      exists ss' w', do_snapshot_stop ss w true others = Some (ss', w')
                     /\ running ss' = false).
Proof.
  split; [| split; [| split]].
  - intros [Hr | Hm]; unfold do_snapshot_stop.
    + rewrite Hr. reflexivity.
    + rewrite Hm. rewrite Z.eqb_refl, orb_true_r. reflexivity.
  - intros Hr Hm. unfold do_snapshot_stop. rewrite Hr.
    apply Z.eqb_neq in Hm. rewrite Hm. simpl.
    destruct others; simpl; rewrite Hr; reflexivity.
  - intros Hr Hm ss' w' Hst. unfold do_snapshot_stop in Hst. rewrite Hr in Hst.
    apply Z.eqb_neq in Hm. rewrite Hm in Hst. simpl in Hst.
    destruct (stop_loop ss w true others) as [[ss1 w1]|] eqn:El; [|discriminate].
    injection Hst as <- <-.
    apply stop_loop_wait_result in El. destruct El as [Hf (k & Hk & Hpos & Hss & Htr)].
    split; [exact Hf|]. exists k. repeat split.
    + auto.
    + exact Hk.
    + exact Hss.
    + unfold logger_log. rewrite w_trace_emit, Htr, <- app_assoc. reflexivity.
  - intros Hr Hm k Hk Hidle.
    destruct (stop_loop_wait_returns others ss w k Hk Hidle) as [[ss1 w1] El].
    unfold do_snapshot_stop. rewrite Hr. apply Z.eqb_neq in Hm. rewrite Hm. simpl.
    rewrite El. do 2 eexists. split; [reflexivity|].
    apply stop_loop_wait_result in El. tauto.
Qed.

End StopFacts.

Lemma stop_behaviour_witness :
  running (anchor_running CHKPT_SNAPSHOT_MODE_DATA) = true
  /\ mode (anchor_running CHKPT_SNAPSHOT_MODE_DATA) <> CHKPT_SNAPSHOT_MODE_CHKPT
  /\ exists ss' w',
       do_snapshot_stop (anchor_running CHKPT_SNAPSHOT_MODE_DATA) quiet_world true
                        [worker_busy; worker_finishes] = Some (ss', w')
       /\ running ss' = false.
Proof.
  assert (Hr : running (anchor_running CHKPT_SNAPSHOT_MODE_DATA) = true) by reflexivity.
  assert (Hm : mode (anchor_running CHKPT_SNAPSHOT_MODE_DATA) <> CHKPT_SNAPSHOT_MODE_CHKPT)
    by (cbn; unfold CHKPT_SNAPSHOT_MODE_DATA, CHKPT_SNAPSHOT_MODE_CHKPT; lia).
  split; [exact Hr | split; [exact Hm |]].
  destruct (stop_behaviour (anchor_running CHKPT_SNAPSHOT_MODE_DATA) quiet_world true
                           [worker_busy; worker_finishes]) as (_ & _ & _ & H4).
  apply (H4 Hr Hm 2%nat); [simpl; lia | reflexivity].
Defined.

(** ** Reading from the file *)

Lemma sys_read_quiet (w : world) (fd n : Z) :
  w_io w = [] -> 0 <= w_pos w -> 0 <= n -> w_pos w + n <= blen (w_disk w) ->
  sys_read w fd n
  = (emit (set_pos w (w_pos w + n)) (EvRead fd n n),
     firstn (Z.to_nat n) (skipn (Z.to_nat (w_pos w)) (w_disk w)), n).
Proof.
  intros Hio Hp Hn Hle. unfold sys_read. rewrite (next_io_quiet w Hio).
  rewrite clamp_full by lia. reflexivity.
Qed.

(** What any read does: it fails and leaves the offset alone, or it
    delivers [r] bytes from the current offset and advances by [r]. *)
Lemma sys_read_cases (w : world) (fd n : Z) :
  forall w' got r, sys_read w fd n = (w', got, r) ->
  w_disk w' = w_disk w
  /\ w_trace w' = w_trace w ++ [EvRead fd n r]
  /\ ((r = -1 /\ w_pos w' = w_pos w /\ got = [])
      \/ (0 <= r <= Z.max 0 n
          /\ r <= Z.max 0 (blen (w_disk w) - w_pos w)
          /\ w_pos w' = w_pos w + r
          /\ got = firstn (Z.to_nat r) (skipn (Z.to_nat (w_pos w)) (w_disk w)))).
Proof.
  intros w' got r Hrd. unfold sys_read, next_io in Hrd.
  destruct (w_io w) as [|o rest]; [| destruct o]; cbn in Hrd;
    injection Hrd as <- <- <-; cbn; (split; [reflexivity | split; [reflexivity |]]);
    try (right; unfold clamp; repeat split; try reflexivity; lia).
  left. auto.
Qed.

(** ** Recovery: validity of a snapshot file *)

Section ValidityFacts.
Context {D : ExtDecls}.

(** C1.  chkpt_snapshot_check_file_validity on an open descriptor always
    returns.  It first seeks to sizeof(SnapshotDoneLog) before the end; if
    the file is shorter than that it returns -1, and so it does when the
    read that follows fails or delivers fewer bytes, leaving *filesize
    alone.  Whenever it returns 0 the file ends with a record accepted by
    lrec_check_snapshot_done, *filesize is the length of the file (the
    offset of that record plus its size) and the offset is back at 0.
    When the kernel delivers what is there, it asks the kernel for exactly
    the seek, one read of sizeof(SnapshotDoneLog) bytes and the seek back,
    and it returns 0 exactly when the file ends with such a record. *)
Theorem check_file_validity_correct (w : world) (fd filesize : Z) :
  0 < fd ->
  exists w' filesize' r,
    chkpt_snapshot_check_file_validity w fd filesize = Returns (w', filesize', r)
    /\ (blen (w_disk w) < sizeof_SnapshotDoneLog -> r = -1 /\ filesize' = filesize)
    /\ (forall rest, w_io w = IoErr :: rest -> r = -1 /\ filesize' = filesize)
    /\ (forall k rest, w_io w = IoShort k :: rest -> k < sizeof_SnapshotDoneLog ->
        r = -1 /\ filesize' = filesize)
    /\ (r = 0 ->
        ends_with_done (w_disk w)
        /\ filesize' = (blen (w_disk w) - sizeof_SnapshotDoneLog) + sizeof_SnapshotDoneLog
        /\ w_pos w' = 0)
    /\ (w_io w = [] ->
        (r = 0 <-> ends_with_done (w_disk w))
        /\ (sizeof_SnapshotDoneLog <= blen (w_disk w) ->
            r = lrec_check_snapshot_done (trailing_record (w_disk w))
            /\ w_trace w' = w_trace w
                 ++ [EvLseekEnd fd (- sizeof_SnapshotDoneLog)
                                (blen (w_disk w) - sizeof_SnapshotDoneLog);
                     EvRead fd sizeof_SnapshotDoneLog sizeof_SnapshotDoneLog;
                     EvLseekSet fd 0])).
Proof.
  intros Hfd. pose proof sizeof_SnapshotDoneLog_pos as Hsz.
  pose proof (blen_nonneg (w_disk w)) as Hlen.
  unfold chkpt_snapshot_check_file_validity.
  replace (fd >? 0) with true by lia. cbn [negb].
  unfold sys_lseek_end.
  replace (blen (w_disk w) + - sizeof_SnapshotDoneLog)
    with (blen (w_disk w) - sizeof_SnapshotDoneLog) by lia.
  destruct (blen (w_disk w) - sizeof_SnapshotDoneLog <? 0) eqn:Eseek.
  - (* the seek fails *)
    replace (-1 <? 0) with true by reflexivity.
    do 3 eexists. split; [reflexivity|].
    unfold ends_with_done.
    repeat split; intros; try lia; try discriminate.
  - replace (blen (w_disk w) - sizeof_SnapshotDoneLog <? 0) with false.
    set (off := blen (w_disk w) - sizeof_SnapshotDoneLog) in *.
    set (w1 := emit (set_pos w off) (EvLseekEnd fd (- sizeof_SnapshotDoneLog) off)).
    assert (Hoff : 0 <= off) by lia.
    destruct (sys_read w1 fd sizeof_SnapshotDoneLog) as [[w2 log] nread] eqn:Erd.
    pose proof (sys_read_cases _ _ _ _ _ _ Erd) as (Hdisk & Htr & Hcase).
    assert (Hgot : nread = sizeof_SnapshotDoneLog -> log = trailing_record (w_disk w)).
    { intros Hn. destruct Hcase as [(Hm1 & _) | (_ & _ & _ & Hg)]; [lia|].
      rewrite Hg, Hn. cbn. unfold trailing_record. fold off.
      apply firstn_all2. rewrite length_skipn. unfold off, blen. lia. }
    destruct (nread =? sizeof_SnapshotDoneLog) eqn:En; cbn [negb].
    + apply Z.eqb_eq in En. specialize (Hgot En). subst log.
      do 3 eexists. split; [reflexivity|].
      split; [intros; lia|].
      split.
      { intros rest Hio. exfalso.
        unfold sys_read, next_io in Erd. cbn in Erd. rewrite Hio in Erd. cbn in Erd.
        injection Erd as _ _ Hn. lia. }
      split.
      { intros k rest Hio Hk. exfalso.
        unfold sys_read, next_io in Erd. cbn in Erd. rewrite Hio in Erd. cbn in Erd.
        injection Erd as _ _ Hn. unfold clamp in Hn. lia. }
      split.
      { intros Hr. unfold ends_with_done. repeat split; try lia; try exact Hr. }
      intros Hio. split.
      { unfold ends_with_done. split; [intros Hr; split; [lia | exact Hr] | tauto]. }
      intros _. split; [reflexivity|].
      cbn. rewrite Htr. cbn. rewrite En. rewrite <- !app_assoc. reflexivity.
    + apply Z.eqb_neq in En.
      do 3 eexists. split; [reflexivity|].
      split; [intros; lia|].
      split; [intros; split; reflexivity|].
      split; [intros; split; reflexivity|].
      split; [intros; discriminate|].
      intros Hio. exfalso. apply En.
      assert (Hq : sys_read w1 fd sizeof_SnapshotDoneLog
                   = (emit (set_pos w1 (w_pos w1 + sizeof_SnapshotDoneLog))
                           (EvRead fd sizeof_SnapshotDoneLog sizeof_SnapshotDoneLog),
                      firstn (Z.to_nat sizeof_SnapshotDoneLog)
                             (skipn (Z.to_nat (w_pos w1)) (w_disk w1)),
                      sizeof_SnapshotDoneLog)).
      { apply sys_read_quiet; cbn; try lia. exact Hio. }
      rewrite Hq in Erd. injection Erd as _ _ Hn. lia.
Qed.

End ValidityFacts.

Lemma check_file_validity_correct_witness :
  0 < 5
  /\ exists w' filesize' r,
       chkpt_snapshot_check_file_validity (D := sample_decls)
         (world_with_disk (lrec_snapshot_done (ExtDecls := sample_decls))) 5 0
       = Returns (w', filesize', r).
Proof.
  assert (Hfd : 0 < 5) by lia.
  split; [exact Hfd|].
  destruct (check_file_validity_correct (D := sample_decls)
              (world_with_disk (lrec_snapshot_done (ExtDecls := sample_decls))) 5 0 Hfd)
    as (w' & fs' & r & Heq & _).
  exists w', fs', r. exact Heq.
Defined.

(** ** Decimal conversion *)

Lemma utoa_length (fuel : nat) : forall (z : Z) (acc : bytes) (k : nat),
  (1 <= k <= fuel)%nat -> 0 <= z < 10 ^ Z.of_nat k ->
  (List.length (utoa fuel z acc) <= k + List.length acc)%nat.
Proof.
  induction fuel as [|f IH]; intros z acc k Hk Hz; [lia|].
  simpl. destruct (z / 10 =? 0) eqn:Ez.
  - simpl. lia.
  - apply Z.eqb_neq in Ez.
    assert (Hk2 : (2 <= k)%nat).
    { destruct k as [|[|k]]; try lia.
      exfalso. apply Ez. apply Z.div_small. simpl in Hz. lia. }
    specialize (IH (z / 10) (byte_of_Z (48 + z mod 10) :: acc) (k - 1)%nat).
    simpl in IH.
    assert (Hz' : 0 <= z / 10 < 10 ^ Z.of_nat (k - 1)).
    { split; [apply Z.div_pos; lia|].
      apply Z.div_lt_upper_bound; [lia|].
      replace (10 * 10 ^ Z.of_nat (k - 1)) with (10 ^ Z.of_nat k); [lia|].
      replace (Z.of_nat k) with (Z.succ (Z.of_nat (k - 1))) by lia.
      rewrite Z.pow_succ_r by lia. reflexivity. }
    specialize (IH ltac:(lia) Hz'). lia.
Qed.

Lemma utoa_mono (fuel : nat) : forall (z : Z) (acc : bytes),
  (List.length acc <= List.length (utoa fuel z acc))%nat.
Proof.
  induction fuel as [|f IH]; intros z acc; cbn [utoa]; [lia|].
  destruct (z / 10 =? 0); [cbn [List.length]; lia|].
  specialize (IH (z / 10) (byte_of_Z (48 + z mod 10) :: acc)).
  cbn [List.length] in IH. lia.
Qed.

Lemma utoa_nonempty (fuel : nat) (z : Z) (acc : bytes) :
  (List.length acc < List.length (utoa (S fuel) z acc))%nat.
Proof.
  cbn [utoa]. destruct (z / 10 =? 0); [cbn [List.length]; lia|].
  pose proof (utoa_mono fuel (z / 10) (byte_of_Z (48 + z mod 10) :: acc)) as H.
  cbn [List.length] in H. lia.
Qed.

Lemma fmt_u_length_u32 (z : Z) : 0 <= z < 2 ^ 32 -> 1 <= blen (fmt_u z) <= 10.
Proof.
  intros Hz. unfold fmt_u, blen. split.
  - pose proof (utoa_nonempty 19 z []) as H. cbn [List.length] in H. lia.
  - assert (Hz' : 0 <= z < 10 ^ Z.of_nat 10) by (change (10 ^ Z.of_nat 10) with 10000000000; lia).
    pose proof (utoa_length 20 z [] 10 ltac:(lia) Hz') as H.
    cbn [List.length] in H. lia.
Qed.

Lemma fmt_u_length_u64 (z : Z) : 0 <= z < 2 ^ 64 -> blen (fmt_u z) <= 20.
Proof.
  intros Hz. unfold fmt_u, blen.
  assert (Hz' : 0 <= z < 10 ^ Z.of_nat 20)
    by (change (10 ^ Z.of_nat 20) with 100000000000000000000; lia).
  pose proof (utoa_length 20 z [] 20 ltac:(lia) Hz') as H.
  cbn [List.length] in H. lia.
Qed.

Lemma u32_range (z : Z) : 0 <= u32 z < 2 ^ 32.
Proof. unfold u32. apply Z.mod_pos_bound. lia. Qed.

Lemma u64_range (z : Z) : 0 <= u64 z < 2 ^ 64.
Proof. unfold u64. apply Z.mod_pos_bound. lia. Qed.

Lemma u32_small (z : Z) : 0 <= z < 2 ^ 32 -> u32 z = z.
Proof. unfold u32. intros. apply Z.mod_small. lia. Qed.

(** ** Buffer manager *)

Lemma blen_mem_load (m : mem) (off n : Z) : 0 <= n -> blen (mem_load m off n) = n.
Proof. intros Hn. unfold blen, mem_load. rewrite mem_load_from_length. lia. Qed.

Lemma blen_buffered (ss : snapshot_st) :
  0 <= curlen (buffer ss) -> blen (buffered ss) = curlen (buffer ss).
Proof. apply blen_mem_load. Qed.

Lemma same_env_refl (w : world) : same_env w w.
Proof. unfold same_env. auto. Qed.

Lemma same_env_trans (w1 w2 w3 : world) :
  same_env w1 w2 -> same_env w2 w3 -> same_env w1 w3.
Proof. unfold same_env. intuition congruence. Qed.

Lemma same_env_emit (w : world) (e : event) : same_env w (emit w e).
Proof. unfold same_env. auto. Qed.

Lemma same_run_refl (ss : snapshot_st) : same_run ss ss.
Proof. unfold same_run. destruct ss. auto. Qed.

Lemma same_run_trans (s1 s2 s3 : snapshot_st) :
  same_run s1 s2 -> same_run s2 s3 -> same_run s1 s3.
Proof.
  unfold same_run. intros [H1 M1] [H2 M2]. split; [|congruence].
  rewrite H2 at 1. rewrite H1. reflexivity.
Qed.

Lemma same_run_with_curlen (ss : snapshot_st) (n : Z) : same_run ss (with_curlen ss n).
Proof. unfold same_run. destruct ss. auto. Qed.

Lemma same_run_buffer_put (ss : snapshot_st) (b : bytes) (n : Z) :
  same_run ss (buffer_put ss b n).
Proof. unfold same_run. destruct ss. auto. Qed.

Lemma same_run_with_snapped (ss : snapshot_st) (n : Z) : same_run ss (with_snapped ss n).
Proof. unfold same_run. destruct ss. auto. Qed.

Lemma sys_write_cases (w : world) (fd : Z) (buf : bytes) :
  forall w' ret, sys_write w fd buf = (w', ret) ->
  w_trace w' = w_trace w ++ [EvWrite fd buf ret]
  /\ w_disk w' = w_disk w ++ firstn (Z.to_nat ret) buf
  /\ -1 <= ret <= blen buf
  /\ same_env w w'.
Proof.
  intros w' ret Hw. pose proof (blen_nonneg buf) as Hb.
  unfold sys_write, next_io in Hw.
  destruct (w_io w) as [|o rest]; [| destruct o]; cbn in Hw;
    injection Hw as <- <-; cbn; unfold same_env; cbn.
  - repeat split; try lia. unfold blen. rewrite Nat2Z.id, firstn_all. reflexivity.
  - repeat split; try lia. unfold blen. rewrite Nat2Z.id, firstn_all. reflexivity.
  - pose proof (clamp_bounds k (blen buf) Hb). repeat split; lia.
  - rewrite app_nil_r. repeat split; lia.
Qed.

Lemma sys_fsync_cases (w : world) (fd : Z) :
  forall w' ret, sys_fsync w fd = (w', ret) ->
  w_trace w' = w_trace w ++ [EvFsync fd ret]
  /\ w_disk w' = w_disk w
  /\ same_env w w'.
Proof.
  intros w' ret Hs. unfold sys_fsync, next_io in Hs.
  destruct (w_io w) as [|o rest]; [| destruct o]; cbn in Hs;
    injection Hs as <- <-; cbn; unfold same_env; cbn; repeat split; reflexivity.
Qed.

Lemma io_post_refl (w : world) : io_post w w 0.
Proof.
  exists []. rewrite !app_nil_r. cbn. repeat split; auto; try discriminate.
Qed.

Lemma forallb_app_true {A} (f : A -> bool) (l1 l2 : list A) :
  forallb f l1 = true -> forallb f l2 = true -> forallb f (l1 ++ l2) = true.
Proof. intros H1 H2. rewrite forallb_app, H1, H2. reflexivity. Qed.

Lemma transferred_app (l1 l2 : list event) :
  transferred (l1 ++ l2) = transferred l1 ++ transferred l2.
Proof.
  induction l1 as [|e l1 IH]; [reflexivity|].
  destruct e; simpl; rewrite ?IH, ?app_assoc; reflexivity.
Qed.

Lemma io_post_trans (w1 w2 w3 : world) (r : Z) :
  io_post w1 w2 0 -> io_post w2 w3 r -> io_post w1 w3 r.
Proof.
  intros (e1 & T1 & I1 & D1 & S1 & _ & V1) (e2 & T2 & I2 & D2 & S2 & R2 & V2).
  exists (e1 ++ e2). repeat split.
  - rewrite T2, T1, app_assoc. reflexivity.
  - apply forallb_app_true; assumption.
  - rewrite D2, D1, transferred_app, app_assoc. reflexivity.
  - rewrite existsb_app. intros Hs. apply orb_true_iff in Hs. destruct Hs as [Hs|Hs].
    + apply S1 in Hs. lia.
    + apply S2. exact Hs.
  - intros Hr. rewrite existsb_app. apply S2 in Hr. rewrite Hr. apply orb_true_r.
  - exact R2.
  - apply (same_env_trans _ _ _ V1 V2).
  - apply (same_env_trans _ _ _ V1 V2).
  - apply (same_env_trans _ _ _ V1 V2).
  - apply (same_env_trans _ _ _ V1 V2).
Qed.

(** A log line changes neither the file nor the verdict. *)
Lemma io_post_log (w1 w2 : world) (r : Z) (lvl : EXTENSION_LOG_LEVEL) (msg : string) :
  io_post w1 w2 r -> io_post w1 (logger_log w2 lvl msg) r.
Proof.
  intros (e & T & I & Dk & S & R & V).
  exists (e ++ [EvLog lvl msg]). unfold logger_log. repeat split.
  - cbn. rewrite T, app_assoc. reflexivity.
  - apply forallb_app_true; [assumption | reflexivity].
  - cbn. rewrite Dk, transferred_app. cbn. rewrite app_nil_r. reflexivity.
  - rewrite existsb_app. cbn. rewrite orb_false_r. apply S.
  - rewrite existsb_app. cbn. rewrite orb_false_r. apply S.
  - exact R.
  - apply V.
  - apply V.
  - apply V.
  - apply V.
Qed.

(** The write both buffer functions issue, and the test on its result. *)
Lemma buffer_write_post (ss : snapshot_st) (w w1 : world) (nwritten : Z) :
  0 <= curlen (buffer ss) < 2 ^ 32 - 1 ->
  sys_write w (fd (file ss)) (mem_load (memory (buffer ss)) 0 (curlen (buffer ss)))
    = (w1, nwritten) ->
  (u32 nwritten =? curlen (buffer ss)) = (nwritten =? curlen (buffer ss))
  /\ w_trace w1 = w_trace w ++ [EvWrite (fd (file ss)) (buffered ss) nwritten]
  /\ (nwritten = curlen (buffer ss) -> w_disk w1 = w_disk w ++ buffered ss)
  /\ io_post w w1 (if nwritten =? curlen (buffer ss) then 0 else -1).
Proof.
  intros Hc Hw. apply sys_write_cases in Hw. destruct Hw as (T & Dk & Hr & V).
  fold (buffered ss) in *. rewrite (blen_buffered ss) in Hr by lia.
  assert (Hu : (u32 nwritten =? curlen (buffer ss)) = (nwritten =? curlen (buffer ss))).
  { destruct (Z.eq_dec nwritten (-1)) as [-> | Hn].
    - change (u32 (-1)) with (2 ^ 32 - 1).
      destruct (2 ^ 32 - 1 =? curlen (buffer ss)) eqn:E1;
        destruct (-1 =? curlen (buffer ss)) eqn:E2; lia.
    - rewrite u32_small by lia. reflexivity. }
  split; [exact Hu|]. split; [exact T|]. split.
  - intros ->. rewrite Dk. f_equal. rewrite <- (blen_buffered ss) by lia.
    unfold blen. rewrite Nat2Z.id. apply firstn_all.
  - exists [EvWrite (fd (file ss)) (buffered ss) nwritten]. cbn.
    rewrite app_nil_r, orb_false_r. rewrite (blen_buffered ss) by lia.
    repeat split; try apply V; auto.
    + intros Hs. destruct (nwritten =? curlen (buffer ss)); [discriminate | reflexivity].
    + intros Hs. destruct (nwritten =? curlen (buffer ss)); [discriminate | reflexivity].
    + destruct (nwritten =? curlen (buffer ss)); auto.
Qed.

Lemma io_post_fsync (w w' : world) (fd ret : Z) :
  sys_fsync w fd = (w', ret) -> io_post w w' 0.
Proof.
  intros Hs. apply sys_fsync_cases in Hs. destruct Hs as (T & Dk & V).
  exists [EvFsync fd ret]. cbn. rewrite app_nil_r.
  repeat split; try apply V; auto; discriminate.
Qed.

Lemma buffered_with_curlen_0 (ss : snapshot_st) : buffered (with_curlen ss 0) = [].
Proof. reflexivity. Qed.


Lemma enc_post_intro (ss : snapshot_st) (w : world) (out : bytes)
      (ss' : snapshot_st) (w' : world) (r : Z) :
  io_post w w' r -> same_run ss ss' -> buf_ok ss' ->
  (r = 0 -> w_disk w' ++ buffered ss' = w_disk w ++ buffered ss ++ out) ->
  enc_post ss w out ss' w' r.
Proof. unfold enc_post. auto. Qed.

Lemma check_space_post (ss : snapshot_st) (w : world) (n : Z) :
  buf_ok ss -> 0 <= n <= maxlen (buffer ss) ->
  forall ss1 w1 r, do_snapshot_buffer_check_space ss w n = (ss1, w1, r) ->
  enc_post ss w [] ss1 w1 r
  /\ (r = 0 -> curlen (buffer ss1) + n <= maxlen (buffer ss1))
  /\ (r = -1 -> ss1 = ss).
Proof.
  intros Hok Hn ss1 w1 r Hcs. pose proof Hok as [Hc Hm].
  unfold do_snapshot_buffer_check_space in Hcs.
  rewrite u32_small in Hcs by lia.
  destruct (curlen (buffer ss) + n >? maxlen (buffer ss)) eqn:Eo.
  - destruct (sys_write w (fd (file ss))
                (mem_load (memory (buffer ss)) 0 (curlen (buffer ss)))) as [w2 nw] eqn:Ew.
    pose proof (buffer_write_post ss w w2 nw ltac:(lia) Ew) as (Hu & _ & Dk & P).
    rewrite Hu in Hcs.
    destruct (nw =? curlen (buffer ss)) eqn:En; cbn in Hcs; injection Hcs as <- <- <-.
    + apply Z.eqb_eq in En. split; [|split; [cbn; lia | lia]].
      apply enc_post_intro.
      * exact P.
      * apply same_run_with_curlen.
      * unfold buf_ok. cbn. lia.
      * intros _. rewrite buffered_with_curlen_0, !app_nil_r. auto.
    + split; [|split; [lia | reflexivity]].
      apply enc_post_intro.
      * apply io_post_log. exact P.
      * apply same_run_refl.
      * exact Hok.
      * lia.
  - injection Hcs as <- <- <-. split; [|split; [lia | reflexivity]].
    apply enc_post_intro.
    + apply io_post_refl.
    + apply same_run_refl.
    + exact Hok.
    + intros _. rewrite app_nil_r. reflexivity.
Qed.

Lemma flush_post (ss : snapshot_st) (w : world) :
  0 <= curlen (buffer ss) < 2 ^ 32 - 1 ->
  forall ss1 w1 r, do_snapshot_buffer_flush ss w = (ss1, w1, r) ->
  io_post w w1 r
  /\ same_run ss ss1
  /\ (r = 0 -> curlen (buffer ss1) = 0 /\ w_disk w1 = w_disk w ++ buffered ss)
  /\ (r = -1 -> ss1 = ss).
Proof.
  intros Hc ss1 w1 r Hfl. unfold do_snapshot_buffer_flush in Hfl.
  destruct (curlen (buffer ss) >? 0) eqn:Epos.
  - destruct (sys_write w (fd (file ss))
                (mem_load (memory (buffer ss)) 0 (curlen (buffer ss)))) as [w2 nw] eqn:Ew.
    pose proof (buffer_write_post ss w w2 nw Hc Ew) as (Hu & _ & Dk & P).
    rewrite Hu in Hfl.
    destruct (nw =? curlen (buffer ss)) eqn:En; cbn in Hfl.
    + apply Z.eqb_eq in En.
      destruct (sys_fsync w2 (fd (file ss))) as [w3 sret] eqn:Es.
      injection Hfl as <- <- <-.
      pose proof (io_post_fsync _ _ _ _ Es) as P2.
      apply sys_fsync_cases in Es. destruct Es as (_ & Dk2 & _).
      split; [apply (io_post_trans _ _ _ _ P P2)|].
      split; [apply same_run_with_curlen|].
      split; [|lia].
      intros _. split; [reflexivity|]. rewrite Dk2. auto.
    + injection Hfl as <- <- <-.
      split; [apply io_post_log; exact P|].
      split; [apply same_run_refl|].
      split; [lia | reflexivity].
  - destruct (sys_fsync w (fd (file ss))) as [w3 sret] eqn:Es.
    injection Hfl as <- <- <-.
    pose proof (io_post_fsync _ _ _ _ Es) as P2.
    apply sys_fsync_cases in Es. destruct Es as (_ & Dk2 & _).
    split; [exact P2|].
    split; [apply same_run_refl|].
    split; [|lia].
    intros _. split; [lia|].
    rewrite Dk2. unfold buffered.
    replace (curlen (buffer ss)) with 0 by lia. cbn. rewrite app_nil_r. reflexivity.
Qed.

(** ** Encoders *)

Lemma io_post_result (w w' : world) (r : Z) : io_post w w' r -> r = 0 \/ r = -1.
Proof. intros (e & _ & _ & _ & _ & R & _). exact R. Qed.

Lemma enc_post_result (ss : snapshot_st) (w : world) (out : bytes)
      (ss' : snapshot_st) (w' : world) (r : Z) :
  enc_post ss w out ss' w' r -> r = 0 \/ r = -1.
Proof. intros [P _]. apply (io_post_result _ _ _ P). Qed.

Lemma enc_post_refl (ss : snapshot_st) (w : world) :
  buf_ok ss -> enc_post ss w [] ss w 0.
Proof.
  intros Hok. apply enc_post_intro; auto.
  - apply io_post_refl.
  - apply same_run_refl.
  - intros _. rewrite app_nil_r. reflexivity.
Qed.

(** A failed encoder promises nothing about the bytes. *)
Lemma enc_post_fail (ss : snapshot_st) (w : world) (out out' : bytes)
      (ss' : snapshot_st) (w' : world) :
  enc_post ss w out ss' w' (-1) -> enc_post ss w out' ss' w' (-1).
Proof.
  intros (P & S & B & _). apply enc_post_intro; auto. intros Hr. lia.
Qed.

Lemma enc_post_trans (s1 s2 s3 : snapshot_st) (w1 w2 w3 : world) (o1 o2 : bytes) (r : Z) :
  enc_post s1 w1 o1 s2 w2 0 -> enc_post s2 w2 o2 s3 w3 r ->
  enc_post s1 w1 (o1 ++ o2) s3 w3 r.
Proof.
  intros (P1 & S1 & B1 & O1) (P2 & S2 & B2 & O2). apply enc_post_intro.
  - apply (io_post_trans _ _ _ _ P1 P2).
  - apply (same_run_trans _ _ _ S1 S2).
  - exact B2.
  - intros Hr. rewrite (O2 Hr). rewrite app_assoc, (O1 eq_refl).
    rewrite <- !app_assoc. reflexivity.
Qed.

(** The put that follows a successful space check. *)
Lemma enc_post_put (ss ss1 : snapshot_st) (w w1 : world) (stored : bytes) (n needsize : Z) :
  enc_post ss w [] ss1 w1 0 ->
  curlen (buffer ss1) + needsize <= maxlen (buffer ss1) ->
  0 <= n <= needsize -> n <= blen stored ->
  enc_post ss w (firstn (Z.to_nat n) stored) (buffer_put ss1 stored n) w1 0.
Proof.
  intros (P & S & [Hc Hm] & O) Hfit Hn Hs. apply enc_post_intro.
  - exact P.
  - apply (same_run_trans _ _ _ S). apply same_run_buffer_put.
  - unfold buf_ok. rewrite curlen_buffer_put, maxlen_buffer_put.
    rewrite u32_small by lia. lia.
  - intros _. rewrite buffered_buffer_put by lia.
    rewrite app_assoc, (O eq_refl), app_nil_r, <- app_assoc. reflexivity.
Qed.

Lemma enc_post_with_snapped (ss ss1 : snapshot_st) (w w1 : world) (out : bytes) (r n : Z) :
  enc_post ss w out ss1 w1 r -> enc_post ss w out (with_snapped ss1 n) w1 r.
Proof.
  intros (P & S & B & O). apply enc_post_intro; auto.
  apply (same_run_trans _ _ _ S). apply same_run_with_snapped.
Qed.

Lemma enc_post_maxlen (ss : snapshot_st) (w : world) (out : bytes)
      (ss' : snapshot_st) (w' : world) (r : Z) :
  enc_post ss w out ss' w' r -> maxlen (buffer ss') = maxlen (buffer ss).
Proof. intros (_ & [_ M] & _). exact M. Qed.

Lemma enc_post_buf_ok (ss : snapshot_st) (w : world) (out : bytes)
      (ss' : snapshot_st) (w' : world) (r : Z) :
  enc_post ss w out ss' w' r -> buf_ok ss'.
Proof. intros (_ & _ & B & _). exact B. Qed.

Lemma enc_post_curtime (ss : snapshot_st) (w : world) (out : bytes)
      (ss' : snapshot_st) (w' : world) (r : Z) :
  enc_post ss w out ss' w' r -> w_curtime w' = w_curtime w.
Proof. intros ((e & _ & _ & _ & _ & _ & V) & _). apply V. Qed.

Section EncoderFacts.
Context {D : ExtDecls}.

(** One record: space check for its size, then the put. *)
Lemma record_post (ss : snapshot_st) (w : world) (rec : bytes) :
  buf_ok ss -> blen rec <= maxlen (buffer ss) ->
  forall ss1 w1 r, do_snapshot_buffer_check_space ss w (blen rec) = (ss1, w1, r) ->
  (r = -1 /\ enc_post ss w rec ss1 w1 (-1))
  \/ (r = 0 /\ enc_post ss w rec (buffer_put ss1 rec (blen rec)) w1 0).
Proof.
  intros Hok Hfit ss1 w1 r Hcs. pose proof (blen_nonneg rec) as Hb.
  destruct (check_space_post ss w (blen rec) Hok ltac:(lia) _ _ _ Hcs) as (P & Hsp & _).
  destruct (enc_post_result _ _ _ _ _ _ P) as [-> | ->].
  - right. split; [reflexivity|].
    pose proof (enc_post_put ss ss1 w w1 rec (blen rec) (blen rec) P (Hsp eq_refl)
                             ltac:(lia) ltac:(lia)) as Q.
    unfold blen in Q at 1. rewrite Nat2Z.id, firstn_all in Q. exact Q.
  - left. split; [reflexivity|]. apply (enc_post_fail _ _ [] _ _ _ P).
Qed.

Lemma data_dump_elems_post (it : hash_item) (elems : list elem) :
  forall ss w ss' w' r,
  buf_ok ss ->
  Forall (fun e => blen (lrec_snapshot_elem it e) <= maxlen (buffer ss)) elems ->
  data_dump_elems ss w it elems = (ss', w', r) ->
  enc_post ss w (elem_records it elems) ss' w' r.
Proof.
  induction elems as [|e rest IH]; intros ss w ss' w' r Hok Hfit Hd.
  - simpl in Hd. injection Hd as <- <- <-. apply enc_post_refl. exact Hok.
  - simpl in Hd. inversion Hfit as [|? ? Hfe Hfr]; subst.
    destruct (do_snapshot_buffer_check_space ss w (blen (lrec_snapshot_elem it e)))
      as [[ss1 w1] r1] eqn:Ecs.
    destruct (record_post ss w _ Hok Hfe _ _ _ Ecs) as [[-> P] | [-> P]].
    + cbn in Hd. injection Hd as <- <- <-. apply (enc_post_fail _ _ _ _ _ _ P).
    + cbn in Hd. unfold elem_records. cbn [map List.concat].
      apply (enc_post_trans _ _ _ _ _ _ _ _ _ P).
      apply IH; [apply (enc_post_buf_ok _ _ _ _ _ _ P) | | exact Hd].
      rewrite (enc_post_maxlen _ _ _ _ _ _ P). exact Hfr.
Qed.

Lemma data_dump_loop_post (erst_array : option (list elems_result_t))
      (items : list hash_item) :
  forall ss w i ss' w' r,
  buf_ok ss ->
  data_fits (maxlen (buffer ss)) items erst_array i ->
  data_dump_loop ss w items erst_array i = (ss', w', r) ->
  enc_post ss w (data_records items erst_array i) ss' w' r.
Proof.
  induction items as [|it rest IH]; intros ss w i ss' w' r Hok Hfit Hd.
  - simpl in Hd. injection Hd as <- <- <-. apply enc_post_refl. exact Hok.
  - simpl in Hd. destruct Hfit as (Hfl & Hfe & Hfr).
    destruct (do_snapshot_buffer_check_space ss w (blen (lrec_link_item it)))
      as [[ss1 w1] r1] eqn:Ecs.
    destruct (record_post ss w _ Hok Hfl _ _ _ Ecs) as [[-> P] | [-> P]].
    + cbn in Hd. injection Hd as <- <- <-. apply (enc_post_fail _ _ _ _ _ _ P).
    + cbn [Z.ltb Z.compare] in Hd. cbn iota in Hd.
      set (ss2 := buffer_put ss1 (lrec_link_item it) (blen (lrec_link_item it))) in *.
      assert (Helems : exists ss3 w3 ret,
                 match erst_array with
                 | Some arr =>
                     if IS_COLL_ITEM it
                     then data_dump_elems ss2 w1 it
                            (elem_array (nth i arr {| elem_array := [] |}))
                     else (ss2, w1, 0)
                 | None => (ss2, w1, 0)
                 end = (ss3, w3, ret)
                 /\ enc_post ss2 w1 (elem_records it (elems_at erst_array it i)) ss3 w3 ret).
      { unfold elems_at in *.
        destruct erst_array as [arr|]; [destruct (IS_COLL_ITEM it)|].
        - destruct (data_dump_elems ss2 w1 it (elem_array (nth i arr {| elem_array := [] |})))
            as [[ss3 w3] ret] eqn:Ee.
          exists ss3, w3, ret. split; [reflexivity|].
          apply (data_dump_elems_post _ _ _ _ _ _ _ (enc_post_buf_ok _ _ _ _ _ _ P)); [|exact Ee].
          rewrite (enc_post_maxlen _ _ _ _ _ _ P). exact Hfe.
        - exists ss2, w1, 0. split; [reflexivity|].
          apply enc_post_refl. apply (enc_post_buf_ok _ _ _ _ _ _ P).
        - exists ss2, w1, 0. split; [reflexivity|].
          apply enc_post_refl. apply (enc_post_buf_ok _ _ _ _ _ _ P). }
      destruct Helems as (ss3 & w3 & ret & Heq & Q). rewrite Heq in Hd.
      pose proof (enc_post_trans _ _ _ _ _ _ _ _ _ P Q) as PQ.
      cbn [data_records].
      destruct (enc_post_result _ _ _ _ _ _ Q) as [-> | ->].
      * cbn in Hd. rewrite app_assoc.
        apply (enc_post_trans _ _ _ _ _ _ _ _ _
                 (enc_post_with_snapped _ _ _ _ _ _ (u64 (snapped ss3 + 1)) PQ)).
        apply IH; [apply (enc_post_buf_ok _ _ _ _ _ _ Q) | | exact Hd].
        cbn. rewrite (enc_post_maxlen _ _ _ _ _ _ PQ). exact Hfr.
      * cbn in Hd. injection Hd as <- <- <-. apply (enc_post_fail _ _ _ _ _ _ PQ).
Qed.

End EncoderFacts.

Lemma buffered_empty (ss : snapshot_st) : curlen (buffer ss) = 0 -> buffered ss = [].
Proof. unfold buffered. intros ->. reflexivity. Qed.

(** The flush that ends a done function. *)
Lemma enc_post_flush (ss ss2 : snapshot_st) (w w1 : world) (out : bytes) :
  enc_post ss w out ss2 w1 0 ->
  forall ss3 w3 r3, do_snapshot_buffer_flush ss2 w1 = (ss3, w3, r3) ->
  enc_post ss w out ss3 w3 r3
  /\ (r3 = 0 -> curlen (buffer ss3) = 0 /\ w_disk w3 = w_disk w ++ buffered ss ++ out).
Proof.
  intros (P & S & B & O) ss3 w3 r3 Hfl. pose proof B as [Hc Hm].
  destruct (flush_post ss2 w1 ltac:(lia) _ _ _ Hfl) as (P2 & S2 & Hok & Hfail).
  assert (Hstream : r3 = 0 -> w_disk w3 = w_disk w ++ buffered ss ++ out).
  { intros Hr. destruct (Hok Hr) as [_ Hd]. rewrite Hd. apply O. reflexivity. }
  split; [|intros Hr; split; [apply Hok; exact Hr | apply Hstream; exact Hr]].
  apply enc_post_intro.
  - apply (io_post_trans _ _ _ _ P P2).
  - apply (same_run_trans _ _ _ S S2).
  - destruct (io_post_result _ _ _ P2) as [Hr | Hr].
    + destruct (Hok Hr) as [Hz _]. destruct S2 as [_ M]. unfold buf_ok. lia.
    + rewrite (Hfail Hr). exact B.
  - intros Hr. destruct (Hok Hr) as [Hz _].
    rewrite (buffered_empty _ Hz), app_nil_r. apply Hstream. exact Hr.
Qed.

Section KeyEncoderFacts.
Context {D : ExtDecls}.

Lemma data_done_post (ss : snapshot_st) (w : world) :
  buf_ok ss -> blen lrec_snapshot_done <= maxlen (buffer ss) ->
  forall ss' w' r, do_snapshot_data_done ss w = (ss', w', r) ->
  enc_post ss w lrec_snapshot_done ss' w' r
  /\ (r = 0 -> curlen (buffer ss') = 0
               /\ w_disk w' = w_disk w ++ buffered ss ++ lrec_snapshot_done).
Proof.
  intros Hok Hfit ss' w' r Hd. unfold do_snapshot_data_done in Hd.
  destruct (do_snapshot_buffer_check_space ss w (blen lrec_snapshot_done))
    as [[ss1 w1] r1] eqn:Ecs.
  destruct (record_post ss w _ Hok Hfit _ _ _ Ecs) as [[-> P] | [-> P]].
  - cbn in Hd. injection Hd as <- <- <-. split; [exact P | lia].
  - cbn [Z.ltb Z.compare] in Hd. cbn iota in Hd.
    destruct (do_snapshot_buffer_flush
                (buffer_put ss1 lrec_snapshot_done (blen lrec_snapshot_done)) w1)
      as [[ss3 w3] r3] eqn:Efl.
    destruct (enc_post_flush _ _ _ _ _ P _ _ _ Efl) as [Q Hq].
    destruct (enc_post_result _ _ _ _ _ _ Q) as [-> | ->];
      cbn in Hd; injection Hd as <- <- <-; split; auto.
Qed.

Lemma key_exptime_field_length (it : hash_item) (curtime : Z) :
  3 <= snd (key_exptime_field it curtime) <= 12
  /\ snd (key_exptime_field it curtime) <= blen (fst (key_exptime_field it curtime)).
Proof.
  unfold key_exptime_field.
  destruct (exptime it =? 0); [cbn; lia|].
  destruct (ENABLE_STICKY_ITEM && (exptime it =? u32 (-1))); [cbn; lia|].
  cbn [fst snd]. rewrite !blen_app.
  set (d := if exptime it >? curtime then u32 (exptime it - curtime) else 1).
  assert (Hd : 0 <= d < 2 ^ 32).
  { unfold d. destruct (exptime it >? curtime); [apply u32_range | lia]. }
  pose proof (fmt_u_length_u32 d Hd) as Hl.
  change (blen (bytes_of " ")) with 1. change (blen [NL]) with 1. change (blen [x00]) with 1.
  lia.
Qed.

Lemma type_char_length (it : hash_item) :
  0 <= ittype it < 5 ->
  List.length (firstn 1 (bytes_of (nth (Z.to_nat (GET_ITEM_TYPE it)) item_type_string
                                        ""%string))) = 1%nat.
Proof.
  intros Ht. unfold GET_ITEM_TYPE.
  assert (Hc : ittype it = 0 \/ ittype it = 1 \/ ittype it = 2 \/ ittype it = 3
               \/ ittype it = 4) by lia.
  destruct Hc as [-> | [-> | [-> | [-> | ->]]]]; reflexivity.
Qed.

Lemma key_dump_item_post (ss : snapshot_st) (w : world) (curtime : Z) (it : hash_item) :
  buf_ok ss -> 24 + nkey it <= maxlen (buffer ss) -> 0 <= ittype it < 5 ->
  forall ss' w' r, key_dump_item ss w curtime it = (ss', w', r) ->
  enc_post ss w (key_line it curtime) ss' w' r.
Proof.
  intros Hok Hfit Ht ss' w' r Hk. unfold key_dump_item in Hk.
  pose proof (blen_nonneg (item_key it)) as Hnk. fold (nkey it) in Hnk.
  destruct (do_snapshot_buffer_check_space ss w (24 + nkey it)) as [[ss1 w1] r1] eqn:Ecs.
  destruct (check_space_post ss w (24 + nkey it) Hok ltac:(lia) _ _ _ Ecs) as (P & Hsp & _).
  destruct (enc_post_result _ _ _ _ _ _ P) as [-> | ->].
  - cbn [Z.ltb Z.compare] in Hk. cbn iota in Hk.
    pose proof (key_exptime_field_length it curtime) as [Hlen Hfld].
    unfold key_line, exptime_text.
    destruct (key_exptime_field it curtime) as [fld len] eqn:Ef. cbn [fst snd] in *.
    injection Hk as <- <- <-.
    apply enc_post_with_snapped.
    set (tchar := firstn 1 (bytes_of (nth (Z.to_nat (GET_ITEM_TYPE it)) item_type_string
                                           ""%string))).
    pose proof (type_char_length it Ht) as Htc. fold tchar in Htc.
    assert (Hcut : firstn (Z.to_nat (len + nkey it + 2))
                          (tchar ++ bytes_of " " ++ item_key it ++ fld)
                   = tchar ++ bytes_of " " ++ item_key it ++ firstn (Z.to_nat len) fld).
    { rewrite !app_assoc.
      replace (Z.to_nat (len + nkey it + 2))
        with (List.length ((tchar ++ bytes_of " ") ++ item_key it) + Z.to_nat len)%nat.
      - apply firstn_app_2.
      - rewrite !length_app, Htc. unfold nkey, blen. cbn. lia. }
    rewrite <- Hcut.
    apply (enc_post_put ss ss1 w w1 _ (len + nkey it + 2) (24 + nkey it) P (Hsp eq_refl)).
    + lia.
    + rewrite !blen_app. unfold blen at 1. rewrite Htc.
      change (blen (bytes_of " ")) with 1. fold (nkey it). lia.
  - cbn in Hk. injection Hk as <- <- <-. apply (enc_post_fail _ _ [] _ _ _ P).
Qed.

Lemma key_dump_loop_post (curtime : Z) (items : list hash_item) :
  forall ss w ss' w' r,
  buf_ok ss -> key_fits (maxlen (buffer ss)) items ->
  key_dump_loop ss w curtime items = (ss', w', r) ->
  enc_post ss w (key_lines items curtime) ss' w' r.
Proof.
  induction items as [|it rest IH]; intros ss w ss' w' r Hok Hfit Hk.
  - simpl in Hk. injection Hk as <- <- <-. apply enc_post_refl. exact Hok.
  - simpl in Hk. inversion Hfit as [|? ? [Hf Ht] Hfr]; subst.
    destruct (key_dump_item ss w curtime it) as [[ss1 w1] r1] eqn:Ei.
    pose proof (key_dump_item_post ss w curtime it Hok Hf Ht _ _ _ Ei) as P.
    destruct (enc_post_result _ _ _ _ _ _ P) as [-> | ->].
    + cbn [Z.ltb Z.compare] in Hk. cbn iota in Hk.
      unfold key_lines. cbn [map List.concat].
      apply (enc_post_trans _ _ _ _ _ _ _ _ _ P).
      apply IH; [apply (enc_post_buf_ok _ _ _ _ _ _ P) | | exact Hk].
      unfold key_fits. rewrite (enc_post_maxlen _ _ _ _ _ _ P). exact Hfr.
    + cbn in Hk. injection Hk as <- <- <-. apply (enc_post_fail _ _ _ _ _ _ P).
Qed.

End KeyEncoderFacts.

(** ** Key listing: the expiration field *)

Section KeyListing.
Context {D : ExtDecls}.



End KeyListing.



(** ** Encoders only write, sync and log *)

Lemma emits_io_refl (w : world) : emits_io w w.
Proof. exists []. rewrite app_nil_r. auto. Qed.

Lemma emits_io_trans (w1 w2 w3 : world) :
  emits_io w1 w2 -> emits_io w2 w3 -> emits_io w1 w3.
Proof.
  intros (e1 & T1 & I1) (e2 & T2 & I2). exists (e1 ++ e2). split.
  - rewrite T2, T1, app_assoc. reflexivity.
  - apply forallb_app_true; assumption.
Qed.

Lemma emits_io_log (w : world) (lvl : EXTENSION_LOG_LEVEL) (msg : string) :
  emits_io w (logger_log w lvl msg).
Proof. exists [EvLog lvl msg]. auto. Qed.

Lemma emits_io_write (w w' : world) (fd : Z) (buf : bytes) (ret : Z) :
  sys_write w fd buf = (w', ret) -> emits_io w w'.
Proof.
  intros Hw. apply sys_write_cases in Hw. destruct Hw as (T & _).
  exists [EvWrite fd buf ret]. auto.
Qed.


Lemma check_space_emits_io (ss : snapshot_st) (w : world) (n : Z) :
  forall ss1 w1 r, do_snapshot_buffer_check_space ss w n = (ss1, w1, r) -> emits_io w w1.
Proof.
  intros ss1 w1 r Hcs. unfold do_snapshot_buffer_check_space in Hcs.
  destruct (u32 (curlen (buffer ss) + n) >? maxlen (buffer ss)).
  - destruct (sys_write w (fd (file ss))
                (mem_load (memory (buffer ss)) 0 (curlen (buffer ss)))) as [w2 nw] eqn:Ew.
    apply emits_io_write in Ew.
    destruct (negb (u32 nw =? curlen (buffer ss))); injection Hcs as <- <- <-.
    + apply (emits_io_trans _ _ _ Ew). apply emits_io_log.
    + exact Ew.
  - injection Hcs as <- <- <-. apply emits_io_refl.
Qed.


Section EmitsIo.
Context {D : ExtDecls}.

Lemma key_dump_loop_emits_io (curtime : Z) (items : list hash_item) :
  forall ss w ss' w' r, key_dump_loop ss w curtime items = (ss', w', r) -> emits_io w w'.
Proof.
  induction items as [|it rest IH]; intros ss w ss' w' r Hk; simpl in Hk.
  - injection Hk as <- <- <-. apply emits_io_refl.
  - unfold key_dump_item in Hk.
    destruct (do_snapshot_buffer_check_space ss w (24 + nkey it)) as [[ss1 w1] r1] eqn:Ecs.
    apply check_space_emits_io in Ecs.
    destruct (r1 <? 0).
    + cbn in Hk. injection Hk as <- <- <-. exact Ecs.
    + destruct (key_exptime_field it curtime) as [fld len].
      cbn [Z.ltb Z.compare] in Hk. cbn iota in Hk.
      apply IH in Hk. apply (emits_io_trans _ _ _ Ecs Hk).
Qed.


Lemma data_dump_elems_emits_io (it : hash_item) (elems : list elem) :
  forall ss w ss' w' r, data_dump_elems ss w it elems = (ss', w', r) -> emits_io w w'.
Proof.
  induction elems as [|e rest IH]; intros ss w ss' w' r Hd; simpl in Hd.
  - injection Hd as <- <- <-. apply emits_io_refl.
  - destruct (do_snapshot_buffer_check_space ss w (blen (lrec_snapshot_elem it e)))
      as [[ss1 w1] r1] eqn:Ecs.
    apply check_space_emits_io in Ecs.
    destruct (r1 <? 0).
    + injection Hd as <- <- <-. exact Ecs.
    + apply IH in Hd. apply (emits_io_trans _ _ _ Ecs Hd).
Qed.

Lemma data_dump_loop_emits_io (erst_array : option (list elems_result_t))
      (items : list hash_item) :
  forall ss w i ss' w' r,
  data_dump_loop ss w items erst_array i = (ss', w', r) -> emits_io w w'.
Proof.
  induction items as [|it rest IH]; intros ss w i ss' w' r Hd; simpl in Hd.
  - injection Hd as <- <- <-. apply emits_io_refl.
  - destruct (do_snapshot_buffer_check_space ss w (blen (lrec_link_item it)))
      as [[ss1 w1] r1] eqn:Ecs.
    apply check_space_emits_io in Ecs.
    destruct (r1 <? 0).
    + injection Hd as <- <- <-. exact Ecs.
    + set (ss2 := buffer_put ss1 (lrec_link_item it) (blen (lrec_link_item it))) in *.
      assert (He : forall ss3 w3 ret,
                 match erst_array with
                 | Some arr =>
                     if IS_COLL_ITEM it
                     then data_dump_elems ss2 w1 it
                            (elem_array (nth i arr {| elem_array := [] |}))
                     else (ss2, w1, 0)
                 | None => (ss2, w1, 0)
                 end = (ss3, w3, ret) -> emits_io w1 w3).
      { intros ss3 w3 ret Heq.
        destruct erst_array as [arr|]; [destruct (IS_COLL_ITEM it)|].
        - apply (data_dump_elems_emits_io _ _ _ _ _ _ _ Heq).
        - injection Heq as <- <- <-. apply emits_io_refl.
        - injection Heq as <- <- <-. apply emits_io_refl. }
      match type of Hd with
      | (let '(_, _) := ?x in _) = _ => destruct x as [[ss3 w3] ret] eqn:Ee
      end.
      specialize (He _ _ _ eq_refl).
      destruct (ret =? -1).
      * injection Hd as <- <- <-. apply (emits_io_trans _ _ _ Ecs He).
      * apply IH in Hd. apply (emits_io_trans _ _ _ Ecs (emits_io_trans _ _ _ He Hd)).
Qed.


Lemma snapshot_func_dump_emits_io (m : Z) (ss : snapshot_st) (w : world)
      (items : list hash_item) (n : Z) (args : option (list elems_result_t)) :
  forall ss' w' r, snapshot_func_dump m ss w items n args = (ss', w', r) -> emits_io w w'.
Proof.
  intros ss' w' r Hd. unfold snapshot_func_dump in Hd.
  destruct (m =? CHKPT_SNAPSHOT_MODE_KEY).
  - apply (key_dump_loop_emits_io _ _ _ _ _ _ _ Hd).
  - apply (data_dump_loop_emits_io _ _ _ _ _ _ _ _ Hd).
Qed.


End EmitsIo.

(** ** The scan-drain loop *)

Lemma count_ev_app (p : event -> bool) (l1 l2 : list event) :
  count_ev p (l1 ++ l2) = (count_ev p l1 + count_ev p l2)%nat.
Proof. unfold count_ev. rewrite filter_app, length_app. reflexivity. Qed.

Lemma count_ev_io (p : event -> bool) (evs : list event) :
  (forall e, is_io_event e = true -> p e = false) ->
  forallb is_io_event evs = true -> count_ev p evs = 0%nat.
Proof.
  intros Hp. induction evs as [|e evs IH]; intros Hio; [reflexivity|].
  simpl in Hio. apply andb_true_iff in Hio. destruct Hio as [He Hr].
  unfold count_ev in *. simpl. rewrite (Hp e He). apply IH. exact Hr.
Qed.


Lemma io_not_done (e : event) : is_io_event e = true -> is_done e = false.
Proof. destruct e; simpl; congruence. Qed.


Lemma io_not_getnext (e : event) : is_io_event e = true -> is_getnext e = false.
Proof. destruct e; simpl; congruence. Qed.



Section ScanLoopFacts.
Context {D : ExtDecls}.



End ScanLoopFacts.

Section ScanLoopClaims.
Context {D : ExtDecls}.

Lemma do_snapshot_action_success (ss : snapshot_st) (w : world) (scan : list scan_result) :
  forall ss' w' d, do_snapshot_action ss w scan = (ss', w', d) -> success ss' = d.
Proof.
  intros ss' w' d Ha. unfold do_snapshot_action in Ha.
  destruct (sys_open_trunc w (path (file ss))) as [w1 newfd].
  repeat match type of Ha with
         | context [match ?x with _ => _ end] => destruct x
         end;
    injection Ha as <- <- <-; reflexivity.
Qed.


End ScanLoopClaims.

(** ** Runs: short writes and the bytes in the file *)

Lemma utoa_length_fuel (fuel : nat) : forall (z : Z) (acc : bytes),
  (List.length (utoa fuel z acc) <= fuel + List.length acc)%nat.
Proof.
  induction fuel as [|f IH]; intros z acc; simpl; [lia|].
  destruct (z / 10 =? 0); simpl; [lia|].
  specialize (IH (z / 10) (byte_of_Z (48 + z mod 10) :: acc)). simpl in IH. lia.
Qed.

Lemma fmt_u_length (z : Z) : 0 <= blen (fmt_u z) <= 20.
Proof.
  unfold fmt_u, blen. pose proof (utoa_length_fuel 20 z []) as H.
  cbn [List.length] in H. lia.
Qed.

Lemma key_summary_length (ss : snapshot_st) (w : world) :
  0 <= blen (key_summary ss w) <= 88 + blen (bytes_of (prefix_string ss)).
Proof.
  unfold key_summary. rewrite !blen_app.
  pose proof (fmt_u_length (snapped ss)).
  pose proof (fmt_u_length (u64 (w_time w - started ss))).
  pose proof (blen_nonneg (bytes_of (prefix_string ss))).
  change (blen (bytes_of "SNAPSHOT SUMMARY: { prefix=")) with 27.
  change (blen (bytes_of ", count=")) with 8.
  change (blen (bytes_of ", elapsed=")) with 10.
  change (blen (bytes_of " }")) with 2.
  change (blen [NL]) with 1. lia.
Qed.

Lemma same_run_fields (ss ss' : snapshot_st) :
  same_run ss ss' ->
  mode ss' = mode ss /\ file ss' = file ss /\ reqstop ss' = reqstop ss
  /\ prefix_string ss' = prefix_string ss /\ started ss' = started ss
  /\ running ss' = running ss /\ maxlen (buffer ss') = maxlen (buffer ss).
Proof.
  intros [Heq M]. rewrite Heq. unfold prefix_string. cbn. repeat split; auto.
Qed.


Section RunFacts.
Context {D : ExtDecls}.

Lemma key_done_io (ss : snapshot_st) (w : world) :
  buf_ok ss -> 256 <= maxlen (buffer ss) ->
  blen (bytes_of (prefix_string ss)) < 2 ^ 31 - 88 ->
  forall ss' w' r, do_snapshot_key_done ss w = (ss', w', r) ->
  io_post w w' r /\ same_run ss ss'.
Proof.
  intros Hok Hcap Hpfx ss' w' r Hk. unfold do_snapshot_key_done in Hk.
  destruct (do_snapshot_buffer_check_space ss w 256) as [[ss1 w1] r1] eqn:Ecs.
  destruct (check_space_post ss w 256 Hok ltac:(lia) _ _ _ Ecs)
    as ((P & S & [Hc Hm] & _) & Hsp & _).
  destruct (io_post_result _ _ _ P) as [-> | ->].
  - cbn [Z.ltb Z.compare] in Hk. cbn iota in Hk.
    fold (key_summary ss1 w1) in Hk.
    pose proof (key_summary_length ss1 w1) as Hlen.
    destruct (same_run_fields _ _ S) as (_ & _ & _ & Hp & _).
    rewrite Hp in Hlen.
    match type of Hk with
    | context [do_snapshot_buffer_flush ?s ?x] =>
        destruct (do_snapshot_buffer_flush s x) as [[ss3 w3] r3] eqn:Efl
    end.
    apply flush_post in Efl.
    + destruct Efl as (P2 & S2 & _).
      assert (Hres : io_post w w3 r3 /\ same_run ss ss3).
      { split; [apply (io_post_trans _ _ _ _ P P2)|].
        apply (same_run_trans _ _ _ S).
        apply (same_run_trans _ (buffer_put ss1 (firstn (Z.to_nat (256 - 1)) (key_summary ss1 w1)
                                                   ++ [x00]) (blen (key_summary ss1 w1))));
          [apply same_run_buffer_put | exact S2]. }
      destruct (io_post_result _ _ _ P2) as [-> | ->];
        cbn in Hk; injection Hk as <- <- <-; exact Hres.
    + rewrite curlen_buffer_put. rewrite u32_small by lia. lia.
  - cbn in Hk. injection Hk as <- <- <-. auto.
Qed.



End RunFacts.

Lemma run_post_refl (w : world) (ok : bool) : run_post w w ok.
Proof.
  exists []. rewrite !app_nil_r. repeat split; auto; try discriminate; apply same_env_refl.
Qed.

Lemma run_post_false (w w' : world) (ok : bool) : run_post w w' ok -> run_post w w' false.
Proof. intros (evs & T & Dk & _ & V). exists evs. auto. Qed.

Lemma run_post_trans (w1 w2 w3 : world) (ok : bool) :
  run_post w1 w2 true -> run_post w2 w3 ok -> run_post w1 w3 ok.
Proof.
  intros (e1 & T1 & D1 & S1 & V1) (e2 & T2 & D2 & S2 & V2).
  exists (e1 ++ e2). split; [|split; [|split]].
  - rewrite T2, T1, app_assoc. reflexivity.
  - rewrite D2, D1, transferred_app, app_assoc. reflexivity.
  - rewrite existsb_app. intros Hs. apply orb_true_iff in Hs. destruct Hs as [Hs|Hs].
    + apply S1 in Hs. discriminate.
    + apply S2. exact Hs.
  - apply (same_env_trans _ _ _ V1 V2).
Qed.

(** A call that is not a write changes nothing of this. *)
Lemma run_post_emit (w : world) (e : event) (ok : bool) :
  is_write e = false -> run_post w (emit w e) ok.
Proof.
  intros He. exists [e]. split; [reflexivity|].
  destruct e; try discriminate; cbn; rewrite app_nil_r;
    repeat split; auto; discriminate.
Qed.

Lemma run_post_of_io (w w' : world) (r : Z) :
  io_post w w' r -> run_post w w' (negb (r <? 0)).
Proof.
  intros (evs & T & _ & Dk & S & R & V). exists evs. repeat split; auto; try apply V.
  intros Hs. apply S in Hs. subst r. reflexivity.
Qed.

Lemma run_post_step (w wa wb w' : world) (ok : bool) :
  run_post w wa true -> run_post wa wb ok -> run_post wb w' true -> run_post w w' ok.
Proof.
  intros A (e2 & T2 & D2 & S2 & V2) (e3 & T3 & D3 & S3 & V3).
  apply (run_post_trans _ _ _ _ A).
  exists (e2 ++ e3). split; [|split; [|split]].
  - rewrite T3, T2, app_assoc. reflexivity.
  - rewrite D3, D2, transferred_app, app_assoc. reflexivity.
  - rewrite existsb_app. intros Hs. apply orb_true_iff in Hs. destruct Hs as [Hs|Hs].
    + apply S2. exact Hs.
    + apply S3 in Hs. discriminate.
  - apply (same_env_trans _ _ _ V2 V3).
Qed.

Section RunLoop.
Context {D : ExtDecls}.

Lemma snapshot_func_dump_post (ss : snapshot_st) (w : world) (use_erst : bool)
      (r : scan_result) :
  buf_ok ss -> batch_fits (mode ss) (maxlen (buffer ss)) use_erst r ->
  forall ss' w' ret,
  snapshot_func_dump (mode ss) ss w (sr_items r) (sr_count r) (erst_of use_erst r)
    = (ss', w', ret) ->
  exists out, enc_post ss w out ss' w' ret
    /\ (mode ss <> CHKPT_SNAPSHOT_MODE_KEY ->
        out = data_records (batch_items r) (erst_of use_erst r) 0)
    /\ (mode ss = CHKPT_SNAPSHOT_MODE_KEY -> out = key_lines (batch_items r) (w_curtime w)).
Proof.
  intros Hok Hfit ss' w' ret Hd. unfold snapshot_func_dump in Hd. unfold batch_fits in Hfit.
  destruct (mode ss =? CHKPT_SNAPSHOT_MODE_KEY) eqn:Em.
  - apply Z.eqb_eq in Em. exists (key_lines (batch_items r) (w_curtime w)).
    split; [|split; [congruence | reflexivity]].
    apply (key_dump_loop_post _ _ _ _ _ _ _ Hok Hfit Hd).
  - apply Z.eqb_neq in Em. exists (data_records (batch_items r) (erst_of use_erst r) 0).
    split; [|split; [reflexivity | congruence]].
    apply (data_dump_loop_post _ _ _ _ _ _ _ _ Hok Hfit Hd).
Qed.

Lemma snapshot_func_done_post (ss : snapshot_st) (w : world) :
  buf_ok ss -> done_fits ss ->
  forall ss' w' rd, snapshot_func_done (mode ss) ss w = (ss', w', rd) ->
  io_post w w' rd /\ same_run ss ss'
  /\ (mode ss <> CHKPT_SNAPSHOT_MODE_KEY ->
      buf_ok ss'
      /\ (rd = 0 -> w_disk w' = w_disk w ++ buffered ss ++ lrec_snapshot_done)).
Proof.
  intros Hok Hfit ss' w' rd Hd. unfold snapshot_func_done in Hd. unfold done_fits in Hfit.
  destruct (mode ss =? CHKPT_SNAPSHOT_MODE_KEY) eqn:Em.
  - apply Z.eqb_eq in Em. destruct Hfit as [Hcap Hpfx].
    destruct (key_done_io ss w Hok Hcap Hpfx _ _ _ Hd) as [P S].
    split; [exact P | split; [exact S | congruence]].
  - destruct (data_done_post ss w Hok Hfit _ _ _ Hd) as [(P & S & B & _) Hq].
    split; [exact P | split; [exact S|]]. intros _. split; [exact B|].
    intros Hr. apply Hq. exact Hr.
Qed.

(** One round of the loop under the size assumptions. *)
Lemma scan_body_run (ss : snapshot_st) (w : world) (use_erst : bool) (r : scan_result) :
  buf_ok ss -> done_fits ss -> batch_fits (mode ss) (maxlen (buffer ss)) use_erst r ->
  forall ss' w' ctl, scan_body ss w use_erst r = (ss', w', ctl) ->
  match ctl with
  | Continue =>
      run_post w w' true /\ same_run ss ss' /\ buf_ok ss'
      /\ 0 <= sr_count r
      /\ (mode ss <> CHKPT_SNAPSHOT_MODE_KEY ->
          w_disk w' ++ buffered ss'
          = w_disk w ++ buffered ss
            ++ (if sr_count r >? 0
                then data_records (batch_items r) (erst_of use_erst r) 0 else []))
  | Break d =>
      run_post w w' d
      /\ (mode ss <> CHKPT_SNAPSHOT_MODE_KEY -> buf_ok ss')
      /\ (d = true -> sr_count r < 0
                      /\ (mode ss <> CHKPT_SNAPSHOT_MODE_KEY ->
                          w_disk w' = w_disk w ++ buffered ss ++ lrec_snapshot_done))
  end.
Proof.
  intros Hok Hdone Hfit ss' w' ctl Hb. unfold scan_body in Hb.
  destruct (sr_reqstop r) eqn:Esr.
  { cbn in Hb. injection Hb as <- <- <-.
    split; [apply run_post_emit; reflexivity|]. split; [intros _; exact Hok | discriminate]. }
  destruct (reqstop ss) eqn:Ereq.
  { injection Hb as <- <- <-.
    split; [apply run_post_emit; reflexivity|]. split; [intros _; exact Hok | discriminate]. }
  set (w1 := emit w (EvScanGetnext (sr_count r))) in *.
  assert (G : run_post w w1 true) by (apply run_post_emit; reflexivity).
  destruct (sr_count r =? -2) eqn:E2.
  { injection Hb as <- <- <-.
    split; [|split; [intros _; exact Hok | discriminate]].
    apply (run_post_trans _ _ _ _ G). apply run_post_emit. reflexivity. }
  destruct (sr_count r <? 0) eqn:Eneg.
  { destruct (snapshot_func_done (mode ss) ss (emit w1 (EvDone (mode ss))))
      as [[ss1 w2] rd] eqn:Ed.
    destruct (snapshot_func_done_post ss _ Hok Hdone _ _ _ Ed) as (P & S & Hdata).
    assert (G2 : run_post w (emit w1 (EvDone (mode ss))) true).
    { apply (run_post_trans _ _ _ _ G). apply run_post_emit. reflexivity. }
    pose proof (run_post_of_io _ _ _ P) as R.
    destruct (io_post_result _ _ _ P) as [-> | ->]; cbn in Hb; injection Hb as <- <- <-.
    - split; [apply (run_post_trans _ _ _ _ G2 R)|].
      split; [intros Hm; apply (Hdata Hm)|].
      intros _. split; [lia|]. intros Hm. destruct (Hdata Hm) as [_ Hs].
      apply Hs. reflexivity.
    - split; [|split; [intros Hm; apply (Hdata Hm) | discriminate]].
      apply (run_post_trans _ _ _ _ G2).
      apply (run_post_step _ _ _ _ _ (run_post_refl _ _) R).
      apply run_post_emit. reflexivity. }
  destruct (sr_count r >? 0) eqn:Epos.
  { fold (erst_of use_erst r) in Hb.
    destruct (snapshot_func_dump (mode ss) ss (emit w1 (EvDump (mode ss) (sr_count r)))
                (sr_items r) (sr_count r) (erst_of use_erst r)) as [[ss1 w2] ret] eqn:Ed.
    destruct (snapshot_func_dump_post ss _ use_erst r Hok Hfit _ _ _ Ed)
      as (out & P & Hout & _).
    assert (G2 : run_post w (emit w1 (EvDump (mode ss) (sr_count r))) true).
    { apply (run_post_trans _ _ _ _ G). apply run_post_emit. reflexivity. }
    pose proof P as (Pio & S & B & O).
    pose proof (run_post_of_io _ _ _ Pio) as R.
    destruct (io_post_result _ _ _ Pio) as [-> | ->]; cbn in Hb; injection Hb as <- <- <-.
    - split; [|split; [exact S | split; [exact B | split; [lia|]]]].
      + apply (run_post_trans _ _ _ _ G2).
        apply (run_post_step _ _ _ _ _ (run_post_refl _ _) R).
        apply run_post_emit. reflexivity.
      + intros Hm. cbn. rewrite (O eq_refl). cbn. rewrite (Hout Hm). reflexivity.
    - split; [|split; [intros _; exact B | discriminate]].
      apply (run_post_trans _ _ _ _ G2).
      apply (run_post_step _ _ _ _ _ (run_post_refl _ _) R).
      apply (run_post_trans _ (emit w2 (EvScanRelease (sr_count r))));
        apply run_post_emit; reflexivity. }
  injection Hb as <- <- <-.
  split; [exact G|]. split; [apply same_run_refl|]. split; [exact Hok|].
  split; [lia|]. intros _. cbn. rewrite app_nil_r. reflexivity.
Qed.

End RunLoop.

Section RunLoop2.
Context {D : ExtDecls}.

Lemma batch_fits_exhausted (m cap : Z) (use_erst : bool) :
  batch_fits m cap use_erst scan_exhausted.
Proof.
  unfold batch_fits, batch_items, scan_exhausted. cbn.
  destruct (m =? CHKPT_SNAPSHOT_MODE_KEY); [constructor | exact I].
Qed.

Lemma done_fits_same_run (ss ss' : snapshot_st) :
  same_run ss ss' -> done_fits ss -> done_fits ss'.
Proof.
  intros S. destruct (same_run_fields _ _ S) as (Hm & _ & _ & Hp & _ & _ & Hx).
  unfold done_fits. rewrite Hm, Hp, Hx. auto.
Qed.

Lemma scan_loop_run (use_erst : bool) (scan : list scan_result) :
  forall ss w ss' w' d,
  buf_ok ss -> run_fits ss use_erst scan ->
  scan_loop ss w use_erst scan = (ss', w', d) ->
  run_post w w' d
  /\ (mode ss <> CHKPT_SNAPSHOT_MODE_KEY -> buf_ok ss')
  /\ (d = true -> mode ss <> CHKPT_SNAPSHOT_MODE_KEY ->
      w_disk w' = w_disk w ++ buffered ss ++ data_run_output use_erst scan).
Proof.
  induction scan as [|r rest IH]; intros ss w ss' w' d Hok [Hdone Hfit] Hl; simpl in Hl.
  - destruct (scan_body ss w use_erst scan_exhausted) as [[ss1 w1] ctl] eqn:Eb.
    pose proof (scan_body_run ss w use_erst _ Hok Hdone (batch_fits_exhausted _ _ _) _ _ _ Eb)
      as Hstep.
    destruct ctl as [|d1]; injection Hl as <- <- <-.
    + destruct Hstep as (_ & _ & _ & Hc & _). cbn in Hc. lia.
    + destruct Hstep as (R & B & Hs). split; [exact R | split; [exact B|]].
      intros Hd Hm. apply (proj2 (Hs Hd) Hm).
  - inversion Hfit as [|? ? Hf Hfr]; subst.
    destruct (scan_body ss w use_erst r) as [[ss1 w1] ctl] eqn:Eb.
    pose proof (scan_body_run ss w use_erst r Hok Hdone Hf _ _ _ Eb) as Hstep.
    destruct ctl as [|d1].
    + destruct Hstep as (R & S & B & Hc & Hs).
      destruct (same_run_fields _ _ S) as (Hm & _ & _ & _ & _ & _ & Hx).
      assert (Hrf : run_fits ss1 use_erst rest).
      { split; [apply (done_fits_same_run _ _ S Hdone)|]. rewrite Hm, Hx. exact Hfr. }
      destruct (IH _ _ _ _ _ B Hrf Hl) as (R2 & B2 & Hs2).
      split; [apply (run_post_trans _ _ _ _ R R2)|].
      split; [rewrite <- Hm; exact B2|].
      intros Hd Hmode. rewrite (Hs2 Hd) by (rewrite Hm; exact Hmode).
      rewrite app_assoc, (Hs Hmode). cbn [data_run_output].
      replace (sr_count r <? 0) with false by lia.
      destruct (sr_count r >? 0); rewrite <- !app_assoc; reflexivity.
    + injection Hl as <- <- <-. destruct Hstep as (R & B & Hs).
      split; [exact R | split; [exact B|]].
      intros Hd Hmode. destruct (Hs Hd) as [Hneg Hout]. cbn [data_run_output].
      replace (sr_count r <? 0) with true by lia. apply (Hout Hmode).
Qed.

Lemma quiet_refl (w : world) : quiet w w.
Proof. split; [apply run_post_refl | reflexivity]. Qed.

Lemma quiet_trans (w1 w2 w3 : world) : quiet w1 w2 -> quiet w2 w3 -> quiet w1 w3.
Proof.
  intros [R1 D1] [R2 D2]. split; [apply (run_post_trans _ _ _ _ R1 R2) | congruence].
Qed.

Lemma quiet_emit (w : world) (e : event) : is_write e = false -> quiet w (emit w e).
Proof. intros He. split; [apply run_post_emit; exact He | reflexivity]. Qed.

Lemma quiet_emit_n (e : event) (n : nat) :
  is_write e = false -> forall w, quiet w (emit_n w e n).
Proof.
  intros He. induction n as [|n IH]; intros w; simpl.
  - apply quiet_refl.
  - apply (quiet_trans _ (emit w e)); [apply quiet_emit; exact He | apply IH].
Qed.

Lemma quiet_lseek_end (w : world) (fd off : Z) :
  forall w' p, sys_lseek_end w fd off = (w', p) -> quiet w w'.
Proof.
  intros w' p Hl. unfold sys_lseek_end in Hl.
  destruct (blen (w_disk w) + off <? 0); injection Hl as <- <-.
  - apply quiet_emit. reflexivity.
  - split; [|reflexivity].
    exists [EvLseekEnd fd off (blen (w_disk w) + off)]. cbn. rewrite app_nil_r.
    repeat split; auto; discriminate.
Qed.

(** A whole run whose file could be opened. *)
Lemma do_snapshot_action_run (ss : snapshot_st) (w : world) (scan : list scan_result) :
  buf_ok ss ->
  run_fits ss ((mode ss =? CHKPT_SNAPSHOT_MODE_DATA) || (mode ss =? CHKPT_SNAPSHOT_MODE_CHKPT))
           scan ->
  0 <= w_open w ->
  forall ss' w' d, do_snapshot_action ss w scan = (ss', w', d) ->
  success ss' = d
  /\ (exists evs,
        w_trace w' = w_trace w ++ EvOpen (path (file ss)) (w_open w) :: evs
        /\ w_disk w' = transferred evs
        /\ (existsb short_write evs = true -> d = false))
  /\ (mode ss <> CHKPT_SNAPSHOT_MODE_KEY ->
      buf_ok ss'
      /\ (d = true ->
          w_disk w' = buffered ss
                      ++ data_run_output ((mode ss =? CHKPT_SNAPSHOT_MODE_DATA)
                                          || (mode ss =? CHKPT_SNAPSHOT_MODE_CHKPT)) scan)).
Proof.
  intros Hok Hfit Hopen ss' w' d Ha.
  pose proof (do_snapshot_action_success _ _ _ _ _ _ Ha) as Hsucc.
  split; [exact Hsucc|].
  unfold do_snapshot_action in Ha. unfold sys_open_trunc in Ha.
  replace (w_open w <? 0) with false in Ha by lia.
  cbn [fd file with_fd with_file mode] in Ha.
  replace (w_open w <? 0) with false in Ha by lia.
  set (use_erst := (mode ss =? CHKPT_SNAPSHOT_MODE_DATA)
                   || (mode ss =? CHKPT_SNAPSHOT_MODE_CHKPT)) in *.
  set (w1 := emit (set_pos (set_disk w []) 0) (EvOpen (path (file ss)) (w_open w))) in *.
  set (ss1 := with_fd ss (w_open w)) in *.
  set (w2 := if use_erst then emit_n w1 EvCollResultInit (Z.to_nat SCAN_ITEM_ARRAY_SIZE)
             else w1) in *.
  set (hook := mode ss =? CHKPT_SNAPSHOT_MODE_CHKPT) in *.
  destruct (scan_loop ss1 (emit w2 (EvScanOpen hook)) use_erst scan) as [[ss4 w4] d4] eqn:El.
  assert (Q12 : quiet w1 (emit w2 (EvScanOpen hook))).
  { apply (quiet_trans _ w2); [|apply quiet_emit; reflexivity].
    unfold w2. destruct use_erst; [apply quiet_emit_n; reflexivity | apply quiet_refl]. }
  destruct (scan_loop_run use_erst scan ss1 _ _ _ _ Hok Hfit El) as (R & B & Hs).
  set (w5 := emit w4 (EvScanClose hook d4)) in *.
  set (w6 := if use_erst then emit_n w5 EvCollResultFree (Z.to_nat SCAN_ITEM_ARRAY_SIZE)
             else w5) in *.
  assert (Q46 : quiet w4 w6).
  { apply (quiet_trans _ w5); [apply quiet_emit; reflexivity|].
    unfold w6. destruct use_erst; [apply quiet_emit_n; reflexivity | apply quiet_refl]. }
  assert (Hfin : exists w7 ss7,
             quiet w6 w7 /\ buffer ss7 = buffer ss4
             /\ (ss', w', d) = (with_result ss7 d4 (w_time w7), w7, d4)).
  { destruct (fd (file ss4) >? 0).
    - destruct (sys_lseek_end w6 (fd (file ss4)) 0) as [wl sz] eqn:Els.
      exists (sys_close wl (fd (file ss4))), (with_fd (with_size ss4 sz) (-1)).
      split; [|split; [reflexivity | symmetry; exact Ha]].
      apply (quiet_trans _ wl); [apply (quiet_lseek_end _ _ _ _ _ Els)|].
      apply quiet_emit. reflexivity.
    - exists w6, ss4. split; [apply quiet_refl | split; [reflexivity | symmetry; exact Ha]]. }
  destruct Hfin as (w7 & ss7 & Q67 & Hbuf & Heq). injection Heq as -> -> ->.
  destruct Q12 as [R12 D12]. destruct (quiet_trans _ _ _ Q46 Q67) as [R47 D47].
  pose proof (run_post_trans _ _ _ _ R12 (run_post_step _ _ _ _ _ (run_post_refl _ _) R R47))
    as (evs & T & Dk & S & _).
  split.
  - exists evs. split; [|split; [exact Dk | exact S]].
    rewrite T. unfold w1. cbn. rewrite <- app_assoc. reflexivity.
  - intros Hm. split.
    + unfold buf_ok. cbn [buffer with_result]. rewrite Hbuf. apply (B Hm).
    + intros Hd. rewrite D47, (Hs Hd Hm), D12. reflexivity.
Qed.

End RunLoop2.

(** ** Claims about the buffer manager *)

Section BufferClaims.
Context {D : ExtDecls}.


(** C7 amended.  From an anchor whose fill length is within the capacity:
    do_snapshot_buffer_check_space and do_snapshot_buffer_flush return -1
    exactly when their write came back with a count other than the one
    asked, and 0 otherwise, whatever fsync returned; the file has grown by
    what the writes put there.  In a run whose space requests all fit the
    capacity and whose file could be opened, a write that comes back short
    makes do_snapshot_action return false and store false in [success],
    and the file holds exactly what the writes of the run put there. *)
Theorem short_write_fails_run (ss : snapshot_st) (w : world) :
  buf_ok ss ->
  (forall n ss1 w1 r,
     0 <= n <= maxlen (buffer ss) ->
     do_snapshot_buffer_check_space ss w n = (ss1, w1, r) -> io_post w w1 r)
  /\ (forall ss1 w1 r,
        do_snapshot_buffer_flush ss w = (ss1, w1, r) -> io_post w w1 r)
  /\ (forall scan ss' w' d,
        run_fits ss (uses_erst (mode ss)) scan -> 0 <= w_open w ->
        do_snapshot_action ss w scan = (ss', w', d) ->
        exists evs,
          w_trace w' = w_trace w ++ EvOpen (path (file ss)) (w_open w) :: evs
          /\ w_disk w' = transferred evs
          /\ (existsb short_write evs = true -> d = false /\ success ss' = false)).
Proof.
  intros Hok. pose proof Hok as [Hc Hm]. split; [| split].
  - intros n ss1 w1 r Hn Hcs.
    destruct (check_space_post ss w n Hok Hn _ _ _ Hcs) as ((P & _) & _). exact P.
  - intros ss1 w1 r Hfl.
    destruct (flush_post ss w ltac:(lia) _ _ _ Hfl) as (P & _). exact P.
  - intros scan ss' w' d Hfit Hopen Ha.
    destruct (do_snapshot_action_run ss w scan Hok Hfit Hopen _ _ _ Ha)
      as (Hsucc & (evs & T & Dk & S) & _).
    exists evs. split; [exact T | split; [exact Dk|]].
    intros Hs. specialize (S Hs). subst d. auto.
Qed.

End BufferClaims.

(** C7 as stated fails: a run in which the only fsync fails, and which is
    nevertheless reported and recorded as successful. *)
Lemma sync_failure_goes_unreported :
  exists ss' w',
    do_snapshot_action (D := sample_decls) (anchor_prepared CHKPT_SNAPSHOT_MODE_DATA)
      (world_with_io [IoOk; IoErr]) [sample_batch] = (ss', w', true)
    /\ success ss' = true
    /\ In (EvFsync 5 (-1)) (w_trace w')
    /\ existsb failed_fsync (w_trace w') = true.
Proof.
  do 2 eexists. split; [vm_compute; reflexivity|].
  split; [reflexivity|]. split; [|reflexivity].
  cbn. tauto.
Qed.

Lemma anchor_prepared_buf_ok (m : Z) : buf_ok (anchor_prepared m).
Proof. unfold buf_ok. cbn. unfold SNAPSHOT_BUFFER_SIZE. lia. Qed.

Lemma sample_run_fits :
  run_fits (D := sample_decls) (anchor_prepared CHKPT_SNAPSHOT_MODE_DATA)
           (uses_erst (mode (anchor_prepared CHKPT_SNAPSHOT_MODE_DATA))) [sample_batch].
Proof.
  split.
  - unfold done_fits. cbn. unfold SNAPSHOT_BUFFER_SIZE. lia.
  - constructor; [|constructor].
    unfold batch_fits. cbn. unfold SNAPSHOT_BUFFER_SIZE.
    repeat split; try lia; repeat constructor; cbn; lia.
Qed.


Lemma short_write_fails_run_witness :
  buf_ok (anchor_prepared CHKPT_SNAPSHOT_MODE_DATA)
  /\ success (fst (fst (do_snapshot_action (D := sample_decls)
                          (anchor_prepared CHKPT_SNAPSHOT_MODE_DATA)
                          (world_with_io [IoShort 3]) [sample_batch]))) = false.
Proof.
  pose proof (anchor_prepared_buf_ok CHKPT_SNAPSHOT_MODE_DATA) as Hok.
  split; [exact Hok|].
  destruct (short_write_fails_run (D := sample_decls)
              (anchor_prepared CHKPT_SNAPSHOT_MODE_DATA) (world_with_io [IoShort 3]) Hok)
    as (_ & _ & H3).
  destruct (do_snapshot_action (D := sample_decls)
              (anchor_prepared CHKPT_SNAPSHOT_MODE_DATA) (world_with_io [IoShort 3])
              [sample_batch])
    as [[ss' w'] d] eqn:Ea.
  destruct (H3 [sample_batch] ss' w' d sample_run_fits ltac:(cbn; lia) Ea)
    as (evs & T & Dk & S).
  cbn [fst]. apply S.
  assert (Htr : w_trace w' = w_trace (snd (fst (do_snapshot_action (D := sample_decls)
              (anchor_prepared CHKPT_SNAPSHOT_MODE_DATA) (world_with_io [IoShort 3])
              [sample_batch])))) by (rewrite Ea; reflexivity).
  rewrite T in Htr. vm_compute in Htr. injection Htr as Hevs. rewrite Hevs. reflexivity.
Defined.


(** ** Recovery: the trace of a replay *)

Section TraceFacts.
Context {D : ExtDecls}.

Lemma holder_app (a b : list event) : forall h,
  holder h (a ++ b) = holder (holder h a) b.
Proof. induction a as [|e a IH]; intros h; [reflexivity|]. destruct e; simpl; apply IH. Qed.

Lemma attached_app (a b : list event) : attached (a ++ b) = attached a ++ attached b.
Proof.
  induction a as [|e a IH]; [reflexivity|].
  destruct e; simpl; try apply IH.
  destruct (elem_owner rec); simpl; rewrite IH; reflexivity.
Qed.

Lemma offered_app (a b : list event) : forall h,
  offered h (a ++ b) = offered h a ++ offered (holder h a) b.
Proof.
  induction a as [|e a IH]; intros h; [reflexivity|].
  destruct e; simpl; try apply IH.
  destruct h as [it|]; [|apply IH].
  destruct (logtype (header rec) =? LOG_SNAPSHOT_ELEM); simpl; rewrite IH; reflexivity.
Qed.

Lemma refs_ok_app (a b : list event) : forall h,
  refs_ok h (a ++ b) <-> refs_ok h a /\ refs_ok (holder h a) b.
Proof.
  induction a as [|e a IH]; intros h; [simpl; tauto|].
  destruct e; simpl; try apply IH.
  - rewrite IH. tauto.
  - rewrite IH. tauto.
  - rewrite IH. tauto.
Qed.

Lemma plain_neutral (a : list event) :
  forallb plain a = true ->
  forall h, holder h a = h /\ refs_ok h a /\ offered h a = [] /\ attached a = [].
Proof.
  induction a as [|e a IH]; intros Hp h; [simpl; auto|].
  simpl in Hp. apply andb_true_iff in Hp. destruct Hp as [He Ha].
  destruct e; try discriminate; simpl; apply (IH Ha).
Qed.

Lemma count_ev_plain (p : event -> bool) (a : list event) :
  (forall e, plain e = true -> p e = false) ->
  forallb plain a = true -> count_ev p a = 0%nat.
Proof.
  intros Hp. induction a as [|e a IH]; intros Ha; [reflexivity|].
  simpl in Ha. apply andb_true_iff in Ha. destruct Ha as [He Hr].
  unfold count_ev in *. simpl. rewrite (Hp e He). apply IH. exact Hr.
Qed.

(** Along a trace that keeps the discipline, the references taken never
    exceed the references released by more than the one that is held. *)
Lemma refs_ok_balance (evs : list event) : forall h,
  refs_ok h evs ->
  (count_ev is_get evs + held_count h
   = count_ev is_item_release evs + held_count (holder h evs))%nat.
Proof.
  induction evs as [|e evs IH]; intros h Hok; [reflexivity|].
  destruct e; simpl in Hok |- *; try (apply IH; exact Hok).
  - destruct Hok as [_ Hok]. apply IH. exact Hok.
  - destruct Hok as [-> Hok]. specialize (IH _ Hok). unfold count_ev in *. simpl in *. lia.
  - destruct Hok as [-> Hok]. specialize (IH _ Hok). unfold count_ev in *. simpl in *. lia.
Qed.

Lemma refs_ok_at_most_one (evs : list event) :
  refs_ok None evs ->
  forall pre post, evs = pre ++ post ->
  (count_ev is_item_release pre <= count_ev is_get pre
   <= count_ev is_item_release pre + 1)%nat.
Proof.
  intros Hok pre post ->. apply refs_ok_app in Hok. destruct Hok as [Hpre _].
  pose proof (refs_ok_balance pre None Hpre) as Hb.
  destruct (holder None pre); simpl in Hb; lia.
Qed.

End TraceFacts.

Lemma is_read_plain (rd : list event) : forallb is_read rd = true -> forallb plain rd = true.
Proof.
  induction rd as [|e rd IH]; [reflexivity|]. simpl. intros H.
  apply andb_true_iff in H. destruct H as [He Hr]. rewrite (IH Hr).
  destruct e; try discriminate. reflexivity.
Qed.

Section ReadRecord.
Context {D : ExtDecls}.

(** Reading one record: either a complete record is held and the offset has
    moved forward, staying within the file, or a fatal line was logged. *)
Lemma read_logrec_spec (w : world) (fd : Z) :
  forall w1 res, read_logrec w fd = (w1, res) ->
  w_disk w1 = w_disk w
  /\ match res with
     | Some rec =>
         (exists rd, w_trace w1 = w_trace w ++ rd ++ [EvRecord rec]
                     /\ forallb is_read rd = true)
         /\ elem_owner rec = None
         /\ w_pos w < w_pos w1 <= blen (w_disk w)
     | None =>
         exists rd msg, w_trace w1 = w_trace w ++ rd ++ [EvLog EXTENSION_LOG_WARNING msg]
                        /\ forallb is_read rd = true
                        /\ existsb (String.eqb msg) fatal_lines = true
     end.
Proof.
  intros w1 res Hr. unfold read_logrec in Hr. pose proof sizeof_LogHdr_pos as Hsz.
  destruct (sys_read w fd sizeof_LogHdr) as [[wa hb] n] eqn:E1.
  destruct (sys_read_cases _ _ _ _ _ _ E1) as (Dk1 & T1 & C1).
  destruct (n =? sizeof_LogHdr) eqn:En; cbn [negb] in Hr.
  2:{ injection Hr as <- <-. split; [exact Dk1|].
      exists [EvRead fd sizeof_LogHdr n]. eexists.
      split; [cbn; rewrite T1, <- app_assoc; reflexivity | split; reflexivity]. }
  apply Z.eqb_eq in En.
  assert (Hpa : w_pos w < w_pos wa <= blen (w_disk w)).
  { destruct C1 as [(Hm & _) | (_ & Hle & Hp & _)]; lia. }
  destruct (body_length (LogHdr_of_bytes hb) >? 0) eqn:Eb.
  2:{ injection Hr as <- <-. split; [exact Dk1|]. split; [|split; [reflexivity | exact Hpa]].
      exists [EvRead fd sizeof_LogHdr n]. split; [|reflexivity].
      cbn. rewrite T1, <- app_assoc. reflexivity. }
  destruct (MAX_LOG_RECORD_SIZE - sizeof_LogHdr <? body_length (LogHdr_of_bytes hb)) eqn:Ebig.
  { injection Hr as <- <-. split; [exact Dk1|].
    exists [EvRead fd sizeof_LogHdr n]. eexists.
    split; [cbn; rewrite T1, <- app_assoc; reflexivity | split; reflexivity]. }
  destruct (sys_read wa fd (body_length (LogHdr_of_bytes hb))) as [[wb bb] n2] eqn:E2.
  destruct (sys_read_cases _ _ _ _ _ _ E2) as (Dk2 & T2 & C2).
  destruct (n2 =? body_length (LogHdr_of_bytes hb)) eqn:En2; cbn [negb] in Hr.
  2:{ injection Hr as <- <-. split; [cbn; congruence|].
      exists [EvRead fd sizeof_LogHdr n; EvRead fd (body_length (LogHdr_of_bytes hb)) n2].
      eexists.
      split; [cbn; rewrite T2, T1, <- !app_assoc; reflexivity | split; reflexivity]. }
  apply Z.eqb_eq in En2.
  injection Hr as <- <-. split; [cbn; congruence|]. split; [|split; [reflexivity|]].
  - exists [EvRead fd sizeof_LogHdr n; EvRead fd (body_length (LogHdr_of_bytes hb)) n2].
    split; [|reflexivity]. cbn. rewrite T2, T1, <- !app_assoc. reflexivity.
  - cbn. rewrite Dk1 in C2.
    destruct C2 as [(Hm & _) | (_ & Hle & Hp & _)]; lia.
Qed.

End ReadRecord.

Section ApplyRecord.
Context {D : ExtDecls} {E : Engine}.

Lemma apply_logrec_world (e : engine_st) (w : world) (last : option hash_item)
      (rec : LogRec) :
  forall e' w' ctl, apply_logrec e w last rec = (e', w', ctl) ->
  w_disk w' = w_disk w /\ w_pos w' = w_pos w /\ w_io w' = w_io w.
Proof.
  intros e' w' ctl Ha. unfold apply_logrec in Ha.
  destruct (logtype (header rec) =? LOG_IT_LINK).
  - destruct (lrec_redo_from_record e rec) as [e1 err].
    destruct (negb (err_eqb err ENGINE_SUCCESS)); cbn [andb] in Ha;
      [destruct (err_eqb err ENGINE_ENOMEM)|];
      try (injection Ha as <- <- <-; cbn; repeat split; reflexivity);
      destruct last as [it|];
      destruct (lrec_get_item_if_collection_link _ rec) as [e3 [got|]];
      injection Ha as <- <- <-; cbn; repeat split; reflexivity.
  - destruct (logtype (header rec) =? LOG_SNAPSHOT_ELEM); [destruct last as [it|]|].
    + destruct (negb (IS_COLL_ITEM it));
        [injection Ha as <- <- <-; cbn; repeat split; reflexivity|].
      destruct (lrec_redo_from_record e (lrec_set_item_in_snapshot_elem rec it))
        as [e1 err].
      destruct (negb (err_eqb err ENGINE_SUCCESS)); cbn [andb] in Ha;
        [destruct (err_eqb err ENGINE_ENOMEM)|];
        injection Ha as <- <- <-; cbn; repeat split; reflexivity.
    + destruct (logtype (header rec) =? LOG_SNAPSHOT_DONE);
        injection Ha as <- <- <-; cbn; repeat split; reflexivity.
    + destruct (logtype (header rec) =? LOG_SNAPSHOT_DONE); [destruct last as [it|]|];
        injection Ha as <- <- <-; cbn; repeat split; reflexivity.
Qed.

(** The trace of one round, case by case. *)
Lemma apply_logrec_spec (e : engine_st) (w : world) (last : option hash_item)
      (rec : LogRec) :
  elem_owner rec = None ->
  forall e' w' ctl, apply_logrec e w last rec = (e', w', ctl) ->
  exists evs,
    w_trace w' = w_trace w ++ evs
    /\ match ctl with
       | ApContinue l' => apply_step_ok last rec evs (Some l') None
       | ApBreak ret => apply_step_ok last rec evs None (Some ret)
       | ApAssert => evs = []
       end.
Proof.
  intros Hown e' w' ctl Ha. unfold apply_logrec in Ha.
  pose proof logtype_link_elem as Hle. pose proof logtype_link_done as Hld.
  pose proof logtype_elem_done as Hed.
  destruct (logtype (header rec) =? LOG_IT_LINK) eqn:Elink.
  - (* item link *)
    apply Z.eqb_eq in Elink.
    assert (Hoff : offered last [EvRecord rec] = []).
    { simpl. destruct last; [|reflexivity].
      replace (logtype (header rec) =? LOG_SNAPSHOT_ELEM) with false by lia. reflexivity. }
    destruct (lrec_redo_from_record e rec) as [e1 err].
    destruct (err_eqb err ENGINE_SUCCESS) eqn:Es; cbn [negb andb] in Ha.
    + destruct last as [it|];
        destruct (lrec_get_item_if_collection_link _ rec) as [e3 [got|]];
        injection Ha as <- <- <-; eexists;
        (split; [cbn; rewrite <- ?app_assoc; reflexivity|]);
        unfold apply_step_ok; rewrite Hoff; cbn; rewrite Hown;
        replace (logtype (header rec) =? LOG_IT_LINK) with true by lia;
        repeat split; auto.
    + destruct (err_eqb err ENGINE_ENOMEM) eqn:Em.
      * injection Ha as <- <- <-. eexists.
        split; [cbn; rewrite <- ?app_assoc; reflexivity|].
        unfold apply_step_ok. rewrite Hoff. cbn. rewrite Hown.
        replace (logtype (header rec) =? LOG_IT_LINK) with true by lia.
        repeat split; auto.
      * destruct last as [it|];
          destruct (lrec_get_item_if_collection_link _ rec) as [e3 [got|]];
          injection Ha as <- <- <-; eexists;
          (split; [cbn; rewrite <- ?app_assoc; reflexivity|]);
          unfold apply_step_ok; rewrite Hoff; cbn; rewrite Hown;
          replace (logtype (header rec) =? LOG_IT_LINK) with true by lia;
          repeat split; auto.
  - apply Z.eqb_neq in Elink.
    destruct (logtype (header rec) =? LOG_SNAPSHOT_ELEM) eqn:Eelem.
    + apply Z.eqb_eq in Eelem. destruct last as [it|].
      * (* an element while an item is held *)
        destruct (IS_COLL_ITEM it); cbn [negb] in Ha.
        2:{ injection Ha as <- <- <-. exists []. rewrite app_nil_r. auto. }
        assert (Hoff : offered (Some it) [EvRecord rec]
                       = [lrec_set_item_in_snapshot_elem rec it]).
        { simpl. replace (logtype (header rec) =? LOG_SNAPSHOT_ELEM) with true by lia.
          reflexivity. }
        destruct (lrec_redo_from_record e (lrec_set_item_in_snapshot_elem rec it))
          as [e1 err].
        destruct (err_eqb err ENGINE_SUCCESS) eqn:Es; cbn [negb andb] in Ha;
          [|destruct (err_eqb err ENGINE_ENOMEM) eqn:Em];
          injection Ha as <- <- <-; eexists;
          (split; [cbn; rewrite <- ?app_assoc; reflexivity|]);
          unfold apply_step_ok; rewrite Hoff; cbn;
          replace (logtype (header rec) =? LOG_IT_LINK) with false by lia;
          repeat split; eauto.
      * (* an element while nothing is held *)
        replace (logtype (header rec) =? LOG_SNAPSHOT_DONE) with false in Ha by lia.
        injection Ha as <- <- <-. exists []. rewrite app_nil_r.
        split; [reflexivity|]. unfold apply_step_ok. cbn. repeat split; auto.
    + destruct (logtype (header rec) =? LOG_SNAPSHOT_DONE) eqn:Edone.
      * (* the end mark *)
        assert (Hoff : offered last [EvRecord rec] = []).
        { simpl. destruct last; [|reflexivity]. rewrite Eelem. reflexivity. }
        destruct last as [it|]; injection Ha as <- <- <-; eexists;
          (split; [cbn; rewrite <- ?app_assoc; reflexivity|]);
          unfold apply_step_ok; rewrite Hoff; cbn;
          repeat split; auto; try discriminate; intros [|]; try discriminate; lia.
      * (* any other kind *)
        injection Ha as <- <- <-. exists []. rewrite app_nil_r.
        split; [reflexivity|]. unfold apply_step_ok. cbn. rewrite Eelem.
        destruct last; repeat split; auto.
Qed.

End ApplyRecord.

Lemma existsb_reads (p : event -> bool) (rd : list event) :
  (forall e, is_read e = true -> p e = false) ->
  forallb is_read rd = true -> existsb p rd = false.
Proof.
  intros Hp. induction rd as [|e rd IH]; [reflexivity|]. simpl. intros H.
  apply andb_true_iff in H. destruct H as [He Hr]. rewrite (Hp e He), (IH Hr). reflexivity.
Qed.

Lemma read_not_fatal (e : event) : is_read e = true -> fatal_line e = false.
Proof. destruct e; simpl; congruence. Qed.

Lemma read_not_close (e : event) : is_read e = true -> is_close e = false.
Proof. destruct e; simpl; congruence. Qed.

Lemma count_ev_reads (p : event -> bool) (rd : list event) :
  (forall e, is_read e = true -> p e = false) ->
  forallb is_read rd = true -> count_ev p rd = 0%nat.
Proof.
  intros Hp. induction rd as [|e rd IH]; [reflexivity|]. simpl. intros H.
  apply andb_true_iff in H. destruct H as [He Hr].
  unfold count_ev in *. simpl. rewrite (Hp e He). apply IH. exact Hr.
Qed.

Section ReplayLoop.
Context {D : ExtDecls} {E : Engine}.

(** The reads of a round and the mark of the record they produced. *)
Lemma record_prefix (rd : list event) (rec : LogRec) (last : option hash_item) :
  forallb is_read rd = true ->
  holder last (rd ++ [EvRecord rec]) = last
  /\ refs_ok last (rd ++ [EvRecord rec])
  /\ offered last (rd ++ [EvRecord rec]) = offered last [EvRecord rec]
  /\ attached (rd ++ [EvRecord rec]) = []
  /\ count_ev is_close (rd ++ [EvRecord rec]) = 0%nat
  /\ existsb fatal_line (rd ++ [EvRecord rec]) = false.
Proof.
  intros Hrd. pose proof (is_read_plain rd Hrd) as Hp.
  destruct (plain_neutral rd Hp last) as (Hh & Hr & Ho & Ha).
  rewrite holder_app, offered_app, attached_app, count_ev_app, existsb_app, refs_ok_app.
  rewrite Hh, Ho, Ha, (count_ev_reads is_close rd read_not_close Hrd),
    (existsb_reads fatal_line rd read_not_fatal Hrd).
  cbn. repeat split; auto.
Qed.

Lemma apply_loop_spec (fuel : nat) :
  forall e w fd last e' w' res,
  apply_loop fuel e w fd last = Some (e', w', res) ->
  w_disk w' = w_disk w
  /\ exists evs,
       w_trace w' = w_trace w ++ evs
       /\ refs_ok last evs
       /\ count_ev is_close evs = 0%nat
       /\ match res with
          | Returns ret =>
              attached evs = offered last evs
              /\ (ret = 0 \/ ret = -1)
              /\ (ret = -1 <-> existsb fatal_line evs = true)
          | AssertFails => True
          end.
Proof.
  induction fuel as [|fuel IH]; intros e w fd last e' w' res Hl; [discriminate|].
  simpl in Hl.
  destruct (engine_initialized e); cbn [negb] in Hl.
  2:{ injection Hl as <- <- <-. split; [reflexivity|]. exists []. rewrite app_nil_r.
      cbn. repeat split; auto; try discriminate; lia. }
  destruct (read_logrec w fd) as [w1 [rec|]] eqn:Er.
  2:{ injection Hl as <- <- <-.
      destruct (read_logrec_spec _ _ _ _ Er) as (Dk & rd & msg & T & Hrd & Hmsg).
      split; [exact Dk|]. exists (rd ++ [EvLog EXTENSION_LOG_WARNING msg]).
      pose proof (is_read_plain rd Hrd) as Hp.
      assert (Hall : forallb plain (rd ++ [EvLog EXTENSION_LOG_WARNING msg]) = true)
        by (rewrite forallb_app, Hp; reflexivity).
      destruct (plain_neutral _ Hall last) as (_ & Hr & Ho & Ha).
      split; [exact T|]. split; [exact Hr|]. split.
      { rewrite count_ev_app, (count_ev_reads is_close rd read_not_close Hrd). reflexivity. }
      rewrite Ho, Ha. split; [reflexivity|]. split; [auto|].
      rewrite existsb_app, (existsb_reads fatal_line rd read_not_fatal Hrd).
      cbn in Hmsg |- *. rewrite Hmsg. tauto. }
  destruct (read_logrec_spec _ _ _ _ Er) as (Dk & (rd & T & Hrd) & Hown & _).
  destruct (record_prefix rd rec last Hrd) as (Ph & Pr & Po & Pa & Pc & Pf).
  remember (rd ++ [EvRecord rec]) as pre eqn:Hpre. clear Hpre.
  destruct (apply_logrec e w1 last rec) as [[e2 w2] ctl] eqn:Ea.
  destruct (apply_logrec_world _ _ _ _ _ _ _ Ea) as (Dk2 & _).
  destruct (apply_logrec_spec _ _ _ _ Hown _ _ _ Ea) as (ae & T2 & Hstep).
  destruct ctl as [last'|ret|].
  - destruct Hstep as (Sr & So & Sc & Sa & (Sh & Sf) & _).
    destruct (IH _ _ _ _ _ _ _ Hl) as (Dk3 & rest & T3 & Rr & Rc & Rres).
    split; [congruence|].
    exists (pre ++ ae ++ rest).
    split; [rewrite T3, T2, T, <- !app_assoc; reflexivity|].
    split.
    { apply refs_ok_app. split; [exact Pr|]. rewrite Ph.
      apply refs_ok_app. split; [exact Sr|]. rewrite Sh. exact Rr. }
    split; [rewrite !count_ev_app, Pc, Sc, Rc; reflexivity|].
    destruct res as [ret|]; [|exact I].
    destruct Rres as (Ra & Rv & Rf).
    split.
    { rewrite !attached_app, Pa, Sa, Ra.
      rewrite (offered_app pre), Po, Ph.
      rewrite (offered_app ae), So, Sh. reflexivity. }
    split; [exact Rv|].
    rewrite !existsb_app, Pf, Sf. cbn. exact Rf.
  - injection Hl as <- <- <-.
    destruct Hstep as (Sr & So & Sc & Sa & _ & (Sv & Sf)).
    split; [congruence|].
    exists (pre ++ ae).
    split; [rewrite T2, T, <- !app_assoc; reflexivity|].
    split; [apply refs_ok_app; split; [exact Pr | rewrite Ph; exact Sr]|].
    split; [rewrite !count_ev_app, Pc, Sc; reflexivity|].
    split.
    { rewrite !attached_app, Pa, Sa.
      rewrite (offered_app pre), Po, Ph, So, app_nil_r. reflexivity. }
    split; [exact Sv|].
    rewrite !existsb_app, Pf. cbn. exact Sf.
  - injection Hl as <- <- <-. subst ae. rewrite app_nil_r in T2.
    split; [congruence|].
    exists pre.
    split; [rewrite T2, T; reflexivity|].
    split; [exact Pr|]. split; [exact Pc | exact I].
Qed.

(** The loop ends before its fuel does once the fuel exceeds the bytes left
    in the file. *)
Lemma apply_loop_total (fuel : nat) :
  forall e w fd last,
  (Z.to_nat (blen (w_disk w) - w_pos w) < fuel)%nat ->
  exists r, apply_loop fuel e w fd last = Some r.
Proof.
  induction fuel as [|fuel IH]; intros e w fd last Hf; [lia|].
  simpl. destruct (engine_initialized e); cbn [negb]; [|eauto].
  destruct (read_logrec w fd) as [w1 [rec|]] eqn:Er; [|eauto].
  destruct (read_logrec_spec _ _ _ _ Er) as (Dk & _ & _ & Hpos).
  destruct (apply_logrec e w1 last rec) as [[e2 w2] ctl] eqn:Ea.
  destruct (apply_logrec_world _ _ _ _ _ _ _ Ea) as (Dk2 & Hp2 & _).
  destruct ctl as [last'|ret|]; [|eauto|eauto].
  apply IH. rewrite Dk2, Hp2, Dk. lia.
Qed.

End ReplayLoop.

Section ReplayFacts.
Context {D : ExtDecls} {E : Engine}.

(** chkpt_snapshot_file_apply always comes to an end, and what it leaves in
    the trace. *)
Lemma file_apply_spec (e : engine_st) (w : world) (filepath : string) :
  exists e' w' res,
    chkpt_snapshot_file_apply e w filepath = Some (e', w', res)
    /\ exists evs,
         w_trace w' = w_trace w ++ evs
         /\ refs_ok None evs
         /\ match res with
            | Returns ret => replay_ok w evs ret
            | AssertFails => True
            end.
Proof.
  unfold chkpt_snapshot_file_apply, sys_open_rdonly. cbn [w_open logger_log emit].
  destruct (w_open w <? 0) eqn:Eo; rewrite ?Eo.
  - do 3 eexists. split; [reflexivity|]. eexists.
    split; [cbn; rewrite <- !app_assoc; reflexivity|].
    split; [cbn; auto|]. unfold replay_ok. cbn.
    repeat split; auto; try lia; try discriminate.
  - set (w1 := emit (set_pos (emit w (EvLog EXTENSION_LOG_INFO
                 "[RECOVERY - SNAPSHOT] applying snapshot file.")) 0)
                 (EvOpen filepath (w_open w))).
    cbn [w_disk emit set_pos].
    change (w_disk w) with (w_disk w1).
    destruct (apply_loop_total (S (List.length (w_disk w1))) e w1 (w_open w) None)
      as [[[e1 w2] res] El].
    { cbn. unfold blen. lia. }
    match goal with
    | |- context [apply_loop ?f ?a ?b ?c ?d] =>
        change (apply_loop f a b c d)
          with (apply_loop (S (List.length (w_disk w1))) e w1 (w_open w) None)
    end.
    rewrite El.
    destruct (apply_loop_spec _ _ _ _ _ _ _ _ El) as (_ & evs & T & Hr & Hc & Hres).
    destruct res as [ret|].
    + do 3 eexists. split; [reflexivity|].
      exists ([EvLog EXTENSION_LOG_INFO "[RECOVERY - SNAPSHOT] applying snapshot file.";
               EvOpen filepath (w_open w)] ++ evs ++ [EvClose (w_open w)]).
      split; [cbn; rewrite T; cbn; rewrite <- !app_assoc; reflexivity|].
      destruct Hres as (Ha & Hv & Hf).
      assert (Hpl : forallb plain [EvClose (w_open w)] = true) by reflexivity.
      destruct (plain_neutral _ Hpl (holder None evs)) as (_ & Cr & Co & Ca).
      split.
      { cbn. apply refs_ok_app. split; [exact Hr | exact Cr]. }
      unfold replay_ok. split.
      { cbn. rewrite attached_app, offered_app, Ha, Co, Ca. reflexivity. }
      split; [exact Hv|]. split.
      { cbn. rewrite existsb_app. cbn. rewrite orb_false_r. exact Hf. }
      split.
      { intros _. split.
        - rewrite !count_ev_app, Hc. reflexivity.
        - exists ([EvLog EXTENSION_LOG_INFO "[RECOVERY - SNAPSHOT] applying snapshot file.";
                   EvOpen filepath (w_open w)] ++ evs).
          rewrite <- app_assoc. reflexivity. }
      intros Hneg. lia.
    + do 3 eexists. split; [reflexivity|].
      exists ([EvLog EXTENSION_LOG_INFO "[RECOVERY - SNAPSHOT] applying snapshot file.";
               EvOpen filepath (w_open w)] ++ evs).
      split; [rewrite T; cbn; rewrite <- !app_assoc; reflexivity|].
      split; [cbn; exact Hr | exact I].
Qed.

End ReplayFacts.

(** ** Claims about the replayer *)

Section ReplayClaims.
Context {D : ExtDecls} {E : Engine}.


Lemma apply_logrec_no_branch (e : engine_st) (w : world) (last : option hash_item)
      (rec : LogRec) :
  no_branch last rec -> apply_logrec e w last rec = (e, w, ApContinue last).
Proof.
  intros Hnb.
  pose proof logtype_link_elem as Hle. pose proof logtype_elem_done as Hed.
  unfold apply_logrec. destruct Hnb as [(Hl & He & Hd) | [He ->]].
  - replace (logtype (header rec) =? LOG_IT_LINK) with false by lia.
    replace (logtype (header rec) =? LOG_SNAPSHOT_ELEM) with false by lia.
    replace (logtype (header rec) =? LOG_SNAPSHOT_DONE) with false by lia.
    reflexivity.
  - replace (logtype (header rec) =? LOG_IT_LINK) with false by lia.
    replace (logtype (header rec) =? LOG_SNAPSHOT_ELEM) with true by lia.
    replace (logtype (header rec) =? LOG_SNAPSHOT_DONE) with false by lia.
    reflexivity.
Qed.

(** C10.  A record the dispatch has no branch for leaves the engine, the
    trace and the held reference as they were and lets the loop go on: no
    redo, no log line.  Reading it has only added the reads and the mark
    of the record to the trace, and the loop goes on to the next record
    from there. *)
Theorem unknown_record_skipped (e : engine_st) (w : world) (last : option hash_item)
        (rec : LogRec) :
  no_branch last rec ->
  apply_logrec e w last rec = (e, w, ApContinue last)
  /\ (forall fuel fd w0,
        engine_initialized e = true -> read_logrec w0 fd = (w, Some rec) ->
        apply_loop (S fuel) e w0 fd last = apply_loop fuel e w fd last
        /\ exists rd, w_trace w = w_trace w0 ++ rd ++ [EvRecord rec]
                      /\ forallb is_read rd = true).
Proof.
  intros Hnb.
  pose proof (apply_logrec_no_branch e w last rec Hnb) as Hstep.
  split; [exact Hstep|].
  intros fuel fd w0 Hinit Hrd. split.
  - simpl. rewrite Hinit, Hrd, Hstep. reflexivity.
  - destruct (read_logrec_spec _ _ _ _ Hrd) as (_ & Hex & _). exact Hex.
Qed.

(** C2 amended.  Every replay ends, and along its trace: a reference is
    only taken while none is held and only the held one is released, so at
    any moment the references taken exceed those released by at most one;
    an element is handed to the redo path only tied to the reference held
    at that moment; and when the replay returns, the elements handed to
    the redo path are, in order, exactly the element records that were read
    while a reference was held, each tied to that reference.  An element
    record read while nothing is held changes nothing. *)
Theorem replay_reference_discipline (e : engine_st) (w : world) (filepath : string) :
  (exists e' w' res,
     chkpt_snapshot_file_apply e w filepath = Some (e', w', res)
     /\ exists evs,
          w_trace w' = w_trace w ++ evs
          /\ refs_ok None evs
          /\ (forall pre post, evs = pre ++ post ->
              (count_ev is_item_release pre <= count_ev is_get pre
               <= count_ev is_item_release pre + 1)%nat)
          /\ (forall ret, res = Returns ret -> attached evs = offered None evs))
  /\ (forall rec,
        logtype (header rec) = LOG_SNAPSHOT_ELEM ->
        apply_logrec e w None rec = (e, w, ApContinue None)).
Proof.
  split.
  - destruct (file_apply_spec e w filepath) as (e' & w' & res & Heq & evs & T & Hr & Hres).
    exists e', w', res. split; [exact Heq|]. exists evs.
    split; [exact T|]. split; [exact Hr|]. split.
    + apply refs_ok_at_most_one. exact Hr.
    + intros ret ->. destruct Hres as (Ha & _). exact Ha.
  - intros rec Hk. apply apply_logrec_no_branch. right. auto.
Qed.

End ReplayClaims.

(** C2 as stated fails: the file holds a set followed by two element
    records; the redo of the first one runs out of memory, the replay
    returns -1, and the set has got one element handed to the redo path,
    none of them redone. *)
Lemma replay_stops_at_oom :
  sample_file_oom
  = rec_bytes 0 (byte_of_Z 2 :: bytes_of "bb")
    ++ rec_bytes 17 [xff] ++ rec_bytes 17 (bytes_of "yz") ++ rec_bytes 18 []
  /\ exists e' w',
       chkpt_snapshot_file_apply (D := sample_decls) (E := sample_engine) []
         (world_with_disk sample_file_oom) "/tmp/f" = Some (e', w', Returns (-1))
       /\ List.length (attached (w_trace w')) = 1%nat
       /\ List.length (filter (fun r => logtype (header r) =? 17) e') = 0%nat.
Proof.
  split; [reflexivity|].
  do 2 eexists. split; [vm_compute; reflexivity|]. split; reflexivity.
Qed.

Lemma replay_reference_discipline_witness :
  exists e' w',
    chkpt_snapshot_file_apply (D := sample_decls) (E := sample_engine) []
      (world_with_disk sample_file) "/tmp/f" = Some (e', w', Returns 0)
    /\ List.length (attached (w_trace w')) = 2%nat
    /\ attached (w_trace w') = offered (D := sample_decls) None (w_trace w').
Proof.
  destruct (replay_reference_discipline (D := sample_decls) (E := sample_engine) []
              (world_with_disk sample_file) "/tmp/f")
    as [(e' & w' & res & Heq & evs & T & _ & _ & Hres) _].
  assert (Hrun : chkpt_snapshot_file_apply (D := sample_decls) (E := sample_engine) []
                   (world_with_disk sample_file) "/tmp/f"
                 = Some (fst (fst (e', w', res)), snd (fst (e', w', res)), Returns 0)).
  { rewrite Heq. f_equal. f_equal.
    assert (Hres0 : option_map snd
                      (chkpt_snapshot_file_apply (D := sample_decls) (E := sample_engine) []
                         (world_with_disk sample_file) "/tmp/f") = Some (Returns 0))
      by (vm_compute; reflexivity).
    rewrite Heq in Hres0. cbn in Hres0. injection Hres0 as ->. reflexivity. }
  cbn [fst snd] in Hrun. exists e', w'. split; [exact Hrun|].
  assert (Hr0 : res = Returns 0) by congruence.
  specialize (Hres 0 Hr0).
  remember (w_trace w') as tr eqn:Etr.
  assert (Htr : option_map (fun r => w_trace (snd (fst r)))
                  (chkpt_snapshot_file_apply (D := sample_decls) (E := sample_engine) []
                     (world_with_disk sample_file) "/tmp/f") = Some tr).
  { rewrite Heq, Etr. reflexivity. }
  vm_compute in Htr. injection Htr as Htr. rewrite <- Htr. split; reflexivity.
Defined.

Lemma unknown_record_skipped_witness :
  no_branch (D := sample_decls) None odd_record
  /\ apply_logrec (D := sample_decls) (E := sample_engine) [] quiet_world None odd_record
     = ([], quiet_world, ApContinue None).
Proof.
  assert (Hnb : no_branch (D := sample_decls) None odd_record).
  { left. cbn. lia. }
  split; [exact Hnb|].
  exact (proj1 (unknown_record_skipped (D := sample_decls) (E := sample_engine)
                  [] quiet_world None odd_record Hnb)).
Defined.


(** A summary that does not fit: with a prefix of 300 bytes the summary has
    350 characters; snprintf stores 255 of them and a NUL, the fill length
    grows by 350, and the flush writes the 255 characters followed by what
    the buffer held behind them (here zeroes). *)
Remark key_done_long_prefix :
  blen (key_summary anchor_long_prefix quiet_world) = 350
  /\ snd (do_snapshot_key_done anchor_long_prefix quiet_world) = 0
  /\ w_disk (snd (fst (do_snapshot_key_done anchor_long_prefix quiet_world)))
     = firstn 255 (key_summary anchor_long_prefix quiet_world) ++ repeat x00 95.
Proof. repeat split; vm_compute; reflexivity. Qed.

(** * Further properties *)

(** ** What every step of a run leaves alone *)

Lemma same_anchor_refl (ss : snapshot_st) : same_anchor ss ss.
Proof. unfold same_anchor. repeat split; reflexivity. Qed.

Lemma same_anchor_trans (s1 s2 s3 : snapshot_st) :
  same_anchor s1 s2 -> same_anchor s2 s3 -> same_anchor s1 s3.
Proof.
  unfold same_anchor.
  intros (A1 & A2 & A3 & A4 & A5 & A6 & A7 & A8 & A9)
         (B1 & B2 & B3 & B4 & B5 & B6 & B7 & B8 & B9).
  repeat split; congruence.
Qed.

Lemma same_anchor_with_curlen (ss : snapshot_st) (n : Z) : same_anchor ss (with_curlen ss n).
Proof. unfold same_anchor. cbn. repeat split; reflexivity. Qed.

Lemma same_anchor_buffer_put (ss : snapshot_st) (b : bytes) (n : Z) :
  same_anchor ss (buffer_put ss b n).
Proof. unfold same_anchor. cbn. repeat split; reflexivity. Qed.

Lemma same_anchor_with_snapped (ss : snapshot_st) (n : Z) :
  same_anchor ss (with_snapped ss n).
Proof. unfold same_anchor. cbn. repeat split; reflexivity. Qed.

Lemma same_anchor_with_reqstop (ss : snapshot_st) (b : bool) :
  same_anchor ss (with_reqstop ss b).
Proof. unfold same_anchor. cbn. repeat split; reflexivity. Qed.

Lemma trace_post_refl (p : event -> bool) (w : world) : trace_post p w w.
Proof.
  split; [apply same_env_refl|]. exists []. rewrite !app_nil_r. auto.
Qed.

Lemma trace_post_trans (p : event -> bool) (w1 w2 w3 : world) :
  trace_post p w1 w2 -> trace_post p w2 w3 -> trace_post p w1 w3.
Proof.
  intros [E1 (e1 & T1 & P1 & D1)] [E2 (e2 & T2 & P2 & D2)].
  split; [apply (same_env_trans _ _ _ E1 E2)|].
  exists (e1 ++ e2). split; [rewrite T2, T1, app_assoc; reflexivity|].
  split; [apply forallb_app_true; assumption|].
  rewrite D2, D1, transferred_app, app_assoc. reflexivity.
Qed.

Lemma trace_post_weaken (p q : event -> bool) (w w' : world) :
  (forall e, p e = true -> q e = true) -> trace_post p w w' -> trace_post q w w'.
Proof.
  intros Hpq [E (evs & T & P & Dk)]. split; [exact E|].
  exists evs. split; [exact T | split; [|exact Dk]].
  rewrite forallb_forall in *. auto.
Qed.

Lemma trace_post_emit (p : event -> bool) (w : world) (e : event) :
  p e = true -> is_write e = false -> trace_post p w (emit w e).
Proof.
  intros Hp Hw. split; [apply same_env_emit|].
  exists [e]. cbn. rewrite Hp. repeat split; auto.
  destruct e; try discriminate; cbn; rewrite app_nil_r; reflexivity.
Qed.

Lemma trace_post_emit_n (p : event -> bool) (e : event) (n : nat) :
  p e = true -> is_write e = false -> forall w, trace_post p w (emit_n w e n).
Proof.
  intros Hp Hw. induction n as [|n IH]; intros w; simpl.
  - apply trace_post_refl.
  - apply (trace_post_trans _ _ (emit w e)); [apply trace_post_emit; assumption | apply IH].
Qed.

Lemma trace_post_write (w w' : world) (fd : Z) (buf : bytes) (ret : Z) :
  sys_write w fd buf = (w', ret) -> trace_post is_io_event w w'.
Proof.
  intros Hw. apply sys_write_cases in Hw. destruct Hw as (T & Dk & _ & E).
  split; [exact E|]. exists [EvWrite fd buf ret]. cbn. rewrite app_nil_r. auto.
Qed.

Lemma trace_post_fsync (w w' : world) (fd ret : Z) :
  sys_fsync w fd = (w', ret) -> trace_post is_io_event w w'.
Proof.
  intros Hs. apply sys_fsync_cases in Hs. destruct Hs as (T & Dk & E).
  split; [exact E|]. exists [EvFsync fd ret]. cbn. rewrite app_nil_r. auto.
Qed.

Lemma trace_post_log (w : world) (lvl : EXTENSION_LOG_LEVEL) (msg : string) :
  trace_post is_io_event w (logger_log w lvl msg).
Proof. apply trace_post_emit; reflexivity. Qed.

(** What the two buffer functions leave alone: the anchor but for the fill
    length, and the world but for write, fsync and the logger. *)
Lemma check_space_frame (ss : snapshot_st) (w : world) (n : Z) :
  forall ss1 w1 r, do_snapshot_buffer_check_space ss w n = (ss1, w1, r) ->
  same_anchor ss ss1 /\ snapped ss1 = snapped ss
  /\ memory (buffer ss1) = memory (buffer ss)
  /\ trace_post is_io_event w w1 /\ (r = 0 \/ r = -1).
Proof.
  intros ss1 w1 r Hcs. unfold do_snapshot_buffer_check_space in Hcs.
  destruct (u32 (curlen (buffer ss) + n) >? maxlen (buffer ss)).
  - destruct (sys_write w (fd (file ss))
                (mem_load (memory (buffer ss)) 0 (curlen (buffer ss)))) as [w2 nw] eqn:Ew.
    apply trace_post_write in Ew.
    destruct (negb (u32 nw =? curlen (buffer ss))); injection Hcs as <- <- <-.
    + split; [apply same_anchor_refl|]. do 2 (split; [reflexivity|]). split; [|auto].
      apply (trace_post_trans _ _ _ _ Ew). apply trace_post_log.
    + split; [apply same_anchor_with_curlen|]. do 2 (split; [reflexivity|]). auto.
  - injection Hcs as <- <- <-. split; [apply same_anchor_refl|].
    do 2 (split; [reflexivity|]). split; [apply trace_post_refl | auto].
Qed.

Lemma flush_frame (ss : snapshot_st) (w : world) :
  forall ss1 w1 r, do_snapshot_buffer_flush ss w = (ss1, w1, r) ->
  same_anchor ss ss1 /\ snapped ss1 = snapped ss
  /\ memory (buffer ss1) = memory (buffer ss)
  /\ trace_post is_io_event w w1 /\ (r = 0 \/ r = -1).
Proof.
  intros ss1 w1 r Hfl. unfold do_snapshot_buffer_flush in Hfl.
  destruct (curlen (buffer ss) >? 0).
  - destruct (sys_write w (fd (file ss))
                (mem_load (memory (buffer ss)) 0 (curlen (buffer ss)))) as [w2 nw] eqn:Ew.
    apply trace_post_write in Ew.
    destruct (negb (u32 nw =? curlen (buffer ss))); cbn in Hfl.
    + injection Hfl as <- <- <-. split; [apply same_anchor_refl|].
      do 2 (split; [reflexivity|]). split; [|auto].
      apply (trace_post_trans _ _ _ _ Ew). apply trace_post_log.
    + destruct (sys_fsync w2 (fd (file ss))) as [w3 sret] eqn:Es.
      injection Hfl as <- <- <-. split; [apply same_anchor_with_curlen|].
      do 2 (split; [reflexivity|]). split; [|auto].
      apply (trace_post_trans _ _ _ _ Ew). apply (trace_post_fsync _ _ _ _ Es).
  - destruct (sys_fsync w (fd (file ss))) as [w3 sret] eqn:Es.
    injection Hfl as <- <- <-. split; [apply same_anchor_refl|].
    do 2 (split; [reflexivity|]). split; [|auto].
    apply (trace_post_fsync _ _ _ _ Es).
Qed.

(** How far the count of snapped items has moved: by [k] items, modulo
    2^64. *)
Lemma u64_add_l (s a b : Z) : u64 (u64 (s + a) + b) = u64 (s + (a + b)).
Proof.
  unfold u64. rewrite Zplus_mod_idemp_l. f_equal. lia.
Qed.

Lemma u64_small (z : Z) : 0 <= z < 2 ^ 64 -> u64 z = z.
Proof. intros H. unfold u64. apply Z.mod_small. exact H. Qed.

Section EncoderFrames.
Context {D : ExtDecls}.

Lemma key_dump_loop_frame (curtime : Z) (items : list hash_item) :
  forall ss w ss' w' r, key_dump_loop ss w curtime items = (ss', w', r) ->
  same_anchor ss ss' /\ trace_post is_io_event w w' /\ (r = 0 \/ r = -1)
  /\ exists k, 0 <= k <= Z.of_nat (List.length items)
       /\ (0 <= snapped ss < 2 ^ 64 -> snapped ss' = u64 (snapped ss + k))
       /\ (r = 0 -> k = Z.of_nat (List.length items)).
Proof.
  induction items as [|it rest IH]; intros ss w ss' w' r Hk; simpl in Hk.
  - injection Hk as <- <- <-. split; [apply same_anchor_refl|].
    split; [apply trace_post_refl|]. split; [auto|].
    exists 0. rewrite Z.add_0_r. cbn. repeat split; auto; try lia.
    intros Hs. rewrite u64_small; auto.
  - unfold key_dump_item in Hk.
    destruct (do_snapshot_buffer_check_space ss w (24 + nkey it)) as [[ss1 w1] r1] eqn:Ecs.
    destruct (check_space_frame _ _ _ _ _ _ Ecs) as (A & S & _ & T & Hr).
    destruct Hr as [-> | ->].
    + destruct (key_exptime_field it curtime) as [fld len].
      cbn [Z.ltb Z.compare] in Hk. cbn iota in Hk.
      apply IH in Hk. destruct Hk as (A2 & T2 & Hr2 & k & Hk & Hs & Hall).
      split.
      { apply (same_anchor_trans _ _ _ A). refine (same_anchor_trans _ _ _ _ A2).
        apply (same_anchor_trans _ (buffer_put ss1
                 (firstn 1 (bytes_of (nth (Z.to_nat (GET_ITEM_TYPE it)) item_type_string ""%string))
                  ++ bytes_of " " ++ item_key it ++ fld) (len + nkey it + 2)));
          [apply same_anchor_buffer_put | apply same_anchor_with_snapped]. }
      split; [apply (trace_post_trans _ _ _ _ T T2)|]. split; [exact Hr2|].
      exists (1 + k). split; [rewrite length_cons; lia|]. split.
      * intros Hin. rewrite Hs.
        -- cbn [snapped with_snapped buffer_put with_curlen with_memory with_buffer].
           rewrite S. apply u64_add_l.
        -- cbn [snapped with_snapped]. apply u64_range.
      * intros Hz. rewrite (Hall Hz), length_cons. lia.
    + cbn in Hk. injection Hk as <- <- <-.
      split; [exact A|]. split; [exact T|]. split; [auto|].
      exists 0. rewrite Z.add_0_r, S. split; [rewrite length_cons; lia|].
      split; [intros Hin; rewrite u64_small; auto | discriminate].
Qed.


Lemma data_dump_elems_frame (it : hash_item) (elems : list elem) :
  forall ss w ss' w' r, data_dump_elems ss w it elems = (ss', w', r) ->
  same_anchor ss ss' /\ snapped ss' = snapped ss
  /\ trace_post is_io_event w w' /\ (r = 0 \/ r = -1).
Proof.
  induction elems as [|e rest IH]; intros ss w ss' w' r He; simpl in He.
  - injection He as <- <- <-. split; [apply same_anchor_refl|].
    split; [reflexivity|]. split; [apply trace_post_refl | auto].
  - destruct (do_snapshot_buffer_check_space ss w (blen (lrec_snapshot_elem it e)))
      as [[ss1 w1] r1] eqn:Ecs.
    destruct (check_space_frame _ _ _ _ _ _ Ecs) as (A & S & _ & T & Hr).
    destruct Hr as [-> | ->].
    + cbn [Z.ltb Z.compare] in He. cbn iota in He.
      apply IH in He. destruct He as (A2 & S2 & T2 & Hr2).
      split.
      { apply (same_anchor_trans _ _ _ A). refine (same_anchor_trans _ _ _ _ A2).
        apply same_anchor_buffer_put. }
      split; [rewrite S2; cbn; exact S|].
      split; [apply (trace_post_trans _ _ _ _ T T2) | exact Hr2].
    + cbn in He. injection He as <- <- <-. auto.
Qed.

Lemma data_dump_loop_frame (erst_array : option (list elems_result_t))
      (items : list hash_item) :
  forall i ss w ss' w' r, data_dump_loop ss w items erst_array i = (ss', w', r) ->
  same_anchor ss ss' /\ trace_post is_io_event w w' /\ (r = 0 \/ r = -1)
  /\ exists k, 0 <= k <= Z.of_nat (List.length items)
       /\ (0 <= snapped ss < 2 ^ 64 -> snapped ss' = u64 (snapped ss + k))
       /\ (r = 0 -> k = Z.of_nat (List.length items)).
Proof.
  induction items as [|it rest IH]; intros i ss w ss' w' r Hd; simpl in Hd.
  - injection Hd as <- <- <-. split; [apply same_anchor_refl|].
    split; [apply trace_post_refl|]. split; [auto|].
    exists 0. rewrite Z.add_0_r. cbn. split; [lia|]. split; [|auto].
    intros Hs. rewrite u64_small; auto.
  - destruct (do_snapshot_buffer_check_space ss w (blen (lrec_link_item it)))
      as [[ss1 w1] r1] eqn:Ecs.
    destruct (check_space_frame _ _ _ _ _ _ Ecs) as (A & S & _ & T & Hr).
    assert (Hstop : forall s0 w0, same_anchor ss s0 -> snapped s0 = snapped ss ->
                      trace_post is_io_event w w0 ->
                      same_anchor ss s0 /\ trace_post is_io_event w w0 /\ (-1 = 0 \/ -1 = -1)
                      /\ exists k, 0 <= k <= Z.of_nat (List.length (it :: rest))
                           /\ (0 <= snapped ss < 2 ^ 64 -> snapped s0 = u64 (snapped ss + k))
                           /\ (-1 = 0 -> k = Z.of_nat (List.length (it :: rest)))).
    { intros s0 w0 A0 S0 T0. split; [exact A0|]. split; [exact T0|]. split; [auto|].
      exists 0. rewrite Z.add_0_r, S0. split; [rewrite length_cons; lia|].
      split; [intros Hin; rewrite u64_small; auto | discriminate]. }
    destruct Hr as [-> | ->].
    2:{ cbn in Hd. injection Hd as <- <- <-. apply Hstop; assumption. }
    cbn [Z.ltb Z.compare] in Hd. cbn iota in Hd.
    set (ss2 := buffer_put ss1 (lrec_link_item it) (blen (lrec_link_item it))) in *.
    assert (A12 : same_anchor ss ss2)
      by (apply (same_anchor_trans _ _ _ A); apply same_anchor_buffer_put).
    assert (S12 : snapped ss2 = snapped ss) by (cbn; exact S).
    assert (Hinner : exists ss3 w3 ret,
               match erst_array with
               | Some arr =>
                   if IS_COLL_ITEM it
                   then data_dump_elems ss2 w1 it
                          (elem_array (nth i arr {| elem_array := [] |}))
                   else (ss2, w1, 0)
               | None => (ss2, w1, 0)
               end = (ss3, w3, ret)
               /\ same_anchor ss ss3 /\ snapped ss3 = snapped ss
               /\ trace_post is_io_event w w3 /\ (ret = 0 \/ ret = -1)).
    { destruct erst_array as [arr|]; [destruct (IS_COLL_ITEM it)|].
      - destruct (data_dump_elems ss2 w1 it (elem_array (nth i arr {| elem_array := [] |})))
          as [[ss3 w3] ret] eqn:Ee.
        destruct (data_dump_elems_frame _ _ _ _ _ _ _ Ee) as (A3 & S3 & T3 & Hr3).
        exists ss3, w3, ret. split; [reflexivity|].
        split; [apply (same_anchor_trans _ _ _ A12 A3)|].
        split; [congruence|]. split; [apply (trace_post_trans _ _ _ _ T T3) | exact Hr3].
      - exists ss2, w1, 0. split; [reflexivity|]. split; [exact A12|].
        split; [exact S12|]. split; [exact T | auto].
      - exists ss2, w1, 0. split; [reflexivity|]. split; [exact A12|].
        split; [exact S12|]. split; [exact T | auto]. }
    destruct Hinner as (ss3 & w3 & ret & Heq & A3 & S3 & T3 & Hr3).
    rewrite Heq in Hd. destruct Hr3 as [-> | ->].
    2:{ cbn in Hd. injection Hd as <- <- <-. apply Hstop; assumption. }
    cbn [Z.eqb] in Hd. cbn iota in Hd.
    apply IH in Hd. destruct Hd as (A4 & T4 & Hr4 & k & Hk & Hs & Hall).
    split.
    { apply (same_anchor_trans _ _ _ A3). refine (same_anchor_trans _ _ _ _ A4).
      apply same_anchor_with_snapped. }
    split; [apply (trace_post_trans _ _ _ _ T3 T4)|]. split; [exact Hr4|].
    exists (1 + k). split; [rewrite length_cons; lia|]. split.
    + intros Hin. rewrite Hs.
      * cbn [snapped with_snapped]. rewrite S3. apply u64_add_l.
      * cbn [snapped with_snapped]. apply u64_range.
    + intros Hz. rewrite (Hall Hz), length_cons. lia.
Qed.

Lemma key_done_frame (ss : snapshot_st) (w : world) :
  forall ss' w' r, do_snapshot_key_done ss w = (ss', w', r) ->
  same_anchor ss ss' /\ snapped ss' = snapped ss
  /\ trace_post is_io_event w w' /\ (r = 0 \/ r = -1).
Proof.
  intros ss' w' r Hk. unfold do_snapshot_key_done in Hk.
  destruct (do_snapshot_buffer_check_space ss w 256) as [[ss1 w1] r1] eqn:Ecs.
  destruct (check_space_frame _ _ _ _ _ _ Ecs) as (A & S & _ & T & Hr).
  destruct Hr as [-> | ->].
  - cbn [Z.ltb Z.compare] in Hk. cbn iota in Hk.
    match type of Hk with
    | context [do_snapshot_buffer_flush ?s ?x] =>
        destruct (do_snapshot_buffer_flush s x) as [[ss3 w3] r3] eqn:Efl
    end.
    destruct (flush_frame _ _ _ _ _ Efl) as (A2 & S2 & _ & T2 & Hr2).
    assert (Hres : same_anchor ss ss3 /\ snapped ss3 = snapped ss
                   /\ trace_post is_io_event w w3).
    { split; [|split; [rewrite S2; cbn; exact S | apply (trace_post_trans _ _ _ _ T T2)]].
      apply (same_anchor_trans _ _ _ A). refine (same_anchor_trans _ _ _ _ A2).
      apply same_anchor_buffer_put. }
    destruct Hres as (R1 & R2 & R3).
    destruct Hr2 as [-> | ->]; cbn in Hk; injection Hk as <- <- <-; auto.
  - cbn in Hk. injection Hk as <- <- <-. auto.
Qed.

Lemma data_done_frame (ss : snapshot_st) (w : world) :
  forall ss' w' r, do_snapshot_data_done ss w = (ss', w', r) ->
  same_anchor ss ss' /\ snapped ss' = snapped ss
  /\ trace_post is_io_event w w' /\ (r = 0 \/ r = -1).
Proof.
  intros ss' w' r Hk. unfold do_snapshot_data_done in Hk.
  destruct (do_snapshot_buffer_check_space ss w (blen lrec_snapshot_done))
    as [[ss1 w1] r1] eqn:Ecs.
  destruct (check_space_frame _ _ _ _ _ _ Ecs) as (A & S & _ & T & Hr).
  destruct Hr as [-> | ->].
  - cbn [Z.ltb Z.compare] in Hk. cbn iota in Hk.
    match type of Hk with
    | context [do_snapshot_buffer_flush ?s ?x] =>
        destruct (do_snapshot_buffer_flush s x) as [[ss3 w3] r3] eqn:Efl
    end.
    destruct (flush_frame _ _ _ _ _ Efl) as (A2 & S2 & _ & T2 & Hr2).
    assert (Hres : same_anchor ss ss3 /\ snapped ss3 = snapped ss
                   /\ trace_post is_io_event w w3).
    { split; [|split; [rewrite S2; cbn; exact S | apply (trace_post_trans _ _ _ _ T T2)]].
      apply (same_anchor_trans _ _ _ A). refine (same_anchor_trans _ _ _ _ A2).
      apply same_anchor_buffer_put. }
    destruct Hres as (R1 & R2 & R3).
    destruct Hr2 as [-> | ->]; cbn in Hk; injection Hk as <- <- <-; auto.
  - cbn in Hk. injection Hk as <- <- <-. auto.
Qed.

Lemma snapshot_func_dump_frame (m : Z) (ss : snapshot_st) (w : world)
      (items : list hash_item) (n : Z) (args : option (list elems_result_t)) :
  forall ss' w' r, snapshot_func_dump m ss w items n args = (ss', w', r) ->
  same_anchor ss ss' /\ trace_post is_io_event w w' /\ (r = 0 \/ r = -1)
  /\ exists k, 0 <= k <= Z.of_nat (List.length (firstn (Z.to_nat n) items))
       /\ (0 <= snapped ss < 2 ^ 64 -> snapped ss' = u64 (snapped ss + k))
       /\ (r = 0 -> k = Z.of_nat (List.length (firstn (Z.to_nat n) items))).
Proof.
  intros ss' w' r Hd. unfold snapshot_func_dump in Hd.
  destruct (m =? CHKPT_SNAPSHOT_MODE_KEY).
  - apply (key_dump_loop_frame _ _ _ _ _ _ _ Hd).
  - apply (data_dump_loop_frame _ _ _ _ _ _ _ _ Hd).
Qed.

Lemma snapshot_func_done_frame (m : Z) (ss : snapshot_st) (w : world) :
  forall ss' w' r, snapshot_func_done m ss w = (ss', w', r) ->
  same_anchor ss ss' /\ snapped ss' = snapped ss
  /\ trace_post is_io_event w w' /\ (r = 0 \/ r = -1).
Proof.
  intros ss' w' r Hd. unfold snapshot_func_done in Hd.
  destruct (m =? CHKPT_SNAPSHOT_MODE_KEY).
  - apply (key_done_frame _ _ _ _ _ Hd).
  - apply (data_done_frame _ _ _ _ _ Hd).
Qed.

Lemma io_is_loop_event (e : event) : is_io_event e = true -> is_loop_event e = true.
Proof. destruct e; simpl; congruence. Qed.

(** One round of the scan-drain loop, whatever the sizes. *)
Lemma scan_body_frame (ss : snapshot_st) (w : world) (use_erst : bool) (r : scan_result) :
  forall ss' w' ctl, scan_body ss w use_erst r = (ss', w', ctl) ->
  same_anchor ss ss' /\ trace_post is_loop_event w w'
  /\ exists k, 0 <= k <= Z.of_nat (List.length (batch_items r))
       /\ (0 <= snapped ss < 2 ^ 64 -> snapped ss' = u64 (snapped ss + k))
       /\ match ctl with
          | Continue => 0 <= sr_count r /\ k = Z.of_nat (List.length (batch_items r))
          | Break d => d = true -> sr_count r < 0 /\ k = 0
          end.
Proof.
  intros ss' w' ctl Hb. unfold scan_body in Hb.
  set (ss0 := if sr_reqstop r then with_reqstop ss true else ss) in *.
  assert (A0 : same_anchor ss ss0).
  { unfold ss0. destruct (sr_reqstop r);
      [apply same_anchor_with_reqstop | apply same_anchor_refl]. }
  assert (S0 : snapped ss0 = snapped ss) by (unfold ss0; destruct (sr_reqstop r); reflexivity).
  assert (Hzero : forall s0, snapped s0 = snapped ss ->
            exists k, 0 <= k <= Z.of_nat (List.length (batch_items r))
              /\ (0 <= snapped ss < 2 ^ 64 -> snapped s0 = u64 (snapped ss + k))
              /\ (false = true -> sr_count r < 0 /\ k = 0)).
  { intros s0 Hs0. exists 0. rewrite Z.add_0_r, Hs0. split; [lia|].
    split; [intros Hin; rewrite u64_small; auto | discriminate]. }
  destruct (reqstop ss0).
  { injection Hb as <- <- <-. split; [exact A0|].
    split; [apply trace_post_emit; reflexivity | apply Hzero; exact S0]. }
  set (w1 := emit w (EvScanGetnext (sr_count r))) in *.
  assert (G : trace_post is_loop_event w w1) by (apply trace_post_emit; reflexivity).
  destruct (sr_count r =? -2).
  { injection Hb as <- <- <-. split; [exact A0|]. split; [|apply Hzero; exact S0].
    apply (trace_post_trans _ _ _ _ G). apply trace_post_emit; reflexivity. }
  destruct (sr_count r <? 0) eqn:Eneg.
  { destruct (snapshot_func_done (mode ss0) ss0 (emit w1 (EvDone (mode ss0))))
      as [[ss1 w2] rd] eqn:Ed.
    destruct (snapshot_func_done_frame _ _ _ _ _ _ Ed) as (A & S & T & Hr).
    apply (trace_post_weaken _ _ _ _ io_is_loop_event) in T.
    assert (G2 : trace_post is_loop_event w w2).
    { apply (trace_post_trans _ _ _ _ G).
      refine (trace_post_trans _ _ _ _ _ T). apply trace_post_emit; reflexivity. }
    destruct Hr as [-> | ->]; cbn in Hb; injection Hb as <- <- <-.
    - split; [apply (same_anchor_trans _ _ _ A0 A)|]. split; [exact G2|].
      exists 0. rewrite Z.add_0_r, S, S0. split; [lia|].
      split; [intros Hin; rewrite u64_small; auto | intros _; split; lia].
    - split; [apply (same_anchor_trans _ _ _ A0 A)|]. split; [|apply Hzero; congruence].
      apply (trace_post_trans _ _ _ _ G2). apply trace_post_emit; reflexivity. }
  destruct (sr_count r >? 0) eqn:Epos.
  { destruct (snapshot_func_dump (mode ss0) ss0 (emit w1 (EvDump (mode ss0) (sr_count r)))
                (sr_items r) (sr_count r) (if use_erst then Some (sr_elems r) else None))
      as [[ss1 w2] ret] eqn:Ed.
    destruct (snapshot_func_dump_frame _ _ _ _ _ _ _ _ _ Ed) as (A & T & Hr & k & Hk & Hs & Hall).
    apply (trace_post_weaken _ _ _ _ io_is_loop_event) in T.
    assert (G2 : trace_post is_loop_event w (emit w2 (EvScanRelease (sr_count r)))).
    { apply (trace_post_trans _ _ _ _ G).
      apply (trace_post_trans _ _ (emit w1 (EvDump (mode ss0) (sr_count r))));
        [apply trace_post_emit; reflexivity|].
      apply (trace_post_trans _ _ _ _ T). apply trace_post_emit; reflexivity. }
    fold (batch_items r) in Hk, Hall. rewrite S0 in Hs.
    destruct Hr as [-> | ->]; cbn in Hb; injection Hb as <- <- <-.
    - split; [apply (same_anchor_trans _ _ _ A0 A)|]. split; [exact G2|].
      exists k. split; [exact Hk|]. split; [exact Hs|]. split; [lia | auto].
    - split; [apply (same_anchor_trans _ _ _ A0 A)|]. split.
      + apply (trace_post_trans _ _ _ _ G2). apply trace_post_emit; reflexivity.
      + exists k. split; [exact Hk|]. split; [exact Hs | discriminate]. }
  injection Hb as <- <- <-. split; [exact A0|]. split; [exact G|].
  exists 0. rewrite Z.add_0_r, S0. assert (Hc : sr_count r = 0) by lia.
  unfold batch_items. rewrite Hc. cbn. split; [lia|].
  split; [intros Hin; rewrite u64_small; auto | split; [lia | reflexivity]].
Qed.

(** The whole loop, whatever the sizes. *)
Lemma scan_loop_frame (use_erst : bool) (scan : list scan_result) :
  forall ss w ss' w' d, scan_loop ss w use_erst scan = (ss', w', d) ->
  same_anchor ss ss' /\ trace_post is_loop_event w w'
  /\ exists k, 0 <= k <= Z.of_nat (List.length (scan_items scan))
       /\ (0 <= snapped ss < 2 ^ 64 -> snapped ss' = u64 (snapped ss + k))
       /\ (d = true -> k = Z.of_nat (List.length (scan_items scan))).
Proof.
  induction scan as [|r rest IH]; intros ss w ss' w' d Hl; simpl in Hl.
  - destruct (scan_body ss w use_erst scan_exhausted) as [[ss1 w1] ctl] eqn:Eb.
    destruct (scan_body_frame _ _ _ _ _ _ _ Eb) as (A & T & k & Hk & Hs & Hctl).
    cbn in Hk. assert (k = 0) by lia. subst k.
    destruct ctl as [|d1]; injection Hl as <- <- <-;
      (split; [exact A|]; split; [exact T|]; exists 0; cbn; split; [lia|]; split; auto).
  - destruct (scan_body ss w use_erst r) as [[ss1 w1] ctl] eqn:Eb.
    destruct (scan_body_frame _ _ _ _ _ _ _ Eb) as (A & T & k & Hk & Hs & Hctl).
    destruct ctl as [|d1].
    + destruct Hctl as [Hc ->].
      apply IH in Hl. destruct Hl as (A2 & T2 & k2 & Hk2 & Hs2 & Hall).
      split; [apply (same_anchor_trans _ _ _ A A2)|].
      split; [apply (trace_post_trans _ _ _ _ T T2)|].
      exists (Z.of_nat (List.length (batch_items r)) + k2).
      cbn [scan_items]. replace (sr_count r <? 0) with false by lia.
      rewrite length_app. split; [lia|]. split.
      * intros Hin. rewrite Hs2; [rewrite (Hs Hin); apply u64_add_l|].
        rewrite (Hs Hin). apply u64_range.
      * intros Hd. rewrite (Hall Hd). lia.
    + injection Hl as <- <- <-. split; [exact A|]. split; [exact T|].
      destruct (sr_count r <? 0) eqn:Eneg.
      * exists 0. cbn [scan_items]. rewrite Eneg. cbn [List.length Z.of_nat].
        assert (Hk0 : d1 = true -> k = 0) by (intros Hd; apply Hctl; exact Hd).
        split; [lia|]. split; [|auto].
        intros Hin. destruct d1.
        -- rewrite (Hs Hin), (Hk0 eq_refl). reflexivity.
        -- unfold batch_items in Hk. replace (Z.to_nat (sr_count r)) with 0%nat in Hk by lia.
           cbn in Hk. assert (k = 0) by lia. subst k. apply (Hs Hin).
      * exists k. cbn [scan_items]. rewrite Eneg, length_app.
        split; [lia|]. split; [exact Hs|].
        intros Hd. destruct (Hctl Hd) as [Hneg _]. lia.
Qed.

End EncoderFrames.

(** ** The envelope of a run *)

Lemma w_trace_emit_n (e : event) (n : nat) :
  forall w, w_trace (emit_n w e n) = w_trace w ++ repeat e n.
Proof.
  induction n as [|n IH]; intros w; simpl.
  - rewrite app_nil_r. reflexivity.
  - rewrite IH. cbn. rewrite <- app_assoc. reflexivity.
Qed.

Lemma emit_n_fields (e : event) (n : nat) :
  forall w, w_disk (emit_n w e n) = w_disk w /\ same_env w (emit_n w e n).
Proof.
  induction n as [|n IH]; intros w; simpl.
  - split; [reflexivity | apply same_env_refl].
  - destruct (IH (emit w e)) as [Dk E]. split; [exact Dk|].
    apply (same_env_trans _ (emit w e)); [apply same_env_emit | exact E].
Qed.

Lemma w_io_emit (w : world) (e : event) : w_io (emit w e) = w_io w.
Proof. reflexivity. Qed.

Lemma emit_n_io (e : event) (n : nat) : forall w, w_io (emit_n w e n) = w_io w.
Proof. induction n as [|n IH]; intros w; simpl; [reflexivity | rewrite IH; reflexivity]. Qed.

Lemma w_io_if (b : bool) (w : world) (e : event) (n : nat) :
  w_io (if b then emit_n w e n else w) = w_io w.
Proof. destruct b; [apply emit_n_io | reflexivity]. Qed.

Section ActionShape.
Context {D : ExtDecls}.

(** What do_snapshot_action does around the loop, for every answer of
    open(), of the scanner and of the kernel. *)
Lemma do_snapshot_action_shape (ss : snapshot_st) (w : world) (scan : list scan_result) :
  forall ss' w' d, do_snapshot_action ss w scan = (ss', w', d) ->
  let hook := mode ss =? CHKPT_SNAPSHOT_MODE_CHKPT in
  let n := if uses_erst (mode ss) then Z.to_nat SCAN_ITEM_ARRAY_SIZE else 0%nat in
  (success ss' = d /\ stopped ss' = w_time w /\ same_env w w'
   /\ running ss' = running ss /\ mode ss' = mode ss /\ started ss' = started ss
   /\ prefix ss' = prefix ss /\ nprefix ss' = nprefix ss
   /\ cb_snapshot_done ss' = cb_snapshot_done ss /\ initialized ss' = initialized ss
   /\ path (file ss') = path (file ss)
   /\ maxlen (buffer ss') = maxlen (buffer ss))
  /\ (w_open w < 0 ->
      d = false /\ ss' = with_result (with_fd ss (w_open w)) false (w_time w)
      /\ w' = emit (emit w (EvOpen (path (file ss)) (w_open w))) open_failed_line)
  /\ (0 <= w_open w ->
      exists evs k,
        forallb is_loop_event evs = true
        /\ w_trace w'
           = w_trace w
             ++ [EvOpen (path (file ss)) (w_open w)]
             ++ repeat EvCollResultInit n ++ [EvScanOpen hook]
             ++ evs
             ++ [EvScanClose hook d] ++ repeat EvCollResultFree n
             ++ (if 0 <? w_open w
                 then [EvLseekEnd (w_open w) 0 (blen (w_disk w')); EvClose (w_open w)]
                 else [])
        /\ w_disk w' = transferred evs
        /\ 0 <= k <= Z.of_nat (List.length (scan_items scan))
        /\ (0 <= snapped ss < 2 ^ 64 -> snapped ss' = u64 (snapped ss + k))
        /\ (d = true -> k = Z.of_nat (List.length (scan_items scan)))
        /\ (0 < w_open w -> fd (file ss') = -1 /\ size (file ss') = blen (w_disk w'))
        /\ (w_open w = 0 -> fd (file ss') = 0 /\ size (file ss') = size (file ss))).
Proof.
  intros ss' w' d Ha hook n.
  unfold do_snapshot_action in Ha. unfold sys_open_trunc in Ha.
  destruct (w_open w <? 0) eqn:Eo.
  - (* open() failed *)
    rewrite Eo in Ha. cbn [fd file with_fd with_file] in Ha.
    replace (w_open w >? 0) with false in Ha by lia.
    injection Ha as <- <- <-. split; [|split; [|intros; lia]].
    + cbn. unfold same_env. cbn. repeat split; reflexivity.
    + intros _. repeat split; reflexivity.
  - rewrite Eo in Ha. cbn [fd file with_fd with_file mode] in Ha. rewrite ?Eo in Ha.
    fold (uses_erst (mode ss)) in Ha. fold hook in Ha.
    set (w1 := emit (set_pos (set_disk w []) 0) (EvOpen (path (file ss)) (w_open w))) in *.
    set (ss1 := with_fd ss (w_open w)) in *.
    set (w2 := if uses_erst (mode ss)
               then emit_n w1 EvCollResultInit (Z.to_nat SCAN_ITEM_ARRAY_SIZE)
               else w1) in *.
    destruct (scan_loop ss1 (emit w2 (EvScanOpen hook)) (uses_erst (mode ss)) scan)
      as [[ss4 w4] d4] eqn:El.
    destruct (scan_loop_frame _ _ _ _ _ _ _ El)
      as ((F1 & F2 & F3 & F4 & F5 & F6 & F7 & F8 & F9) & (E & evs & T & P & Dk)
          & k & Hk & Hs & Hall).
    cbn [file mode running started prefix nprefix cb_snapshot_done initialized buffer
         ss1 with_fd with_file] in F1, F2, F3, F4, F5, F6, F7, F8, F9.
    set (w5 := emit w4 (EvScanClose hook d4)) in *.
    set (w6 := if uses_erst (mode ss)
               then emit_n w5 EvCollResultFree (Z.to_nat SCAN_ITEM_ARRAY_SIZE)
               else w5) in *.
    assert (T2 : w_trace w2 = w_trace w1 ++ repeat EvCollResultInit n
                 /\ w_disk w2 = w_disk w1 /\ same_env w1 w2).
    { unfold w2, n. destruct (uses_erst (mode ss)).
      - rewrite w_trace_emit_n. split; [reflexivity | apply emit_n_fields].
      - cbn. rewrite app_nil_r. split; [reflexivity|]. split; [reflexivity|].
        apply same_env_refl. }
    destruct T2 as (T2 & D2 & E2).
    assert (T6 : w_trace w6 = w_trace w5 ++ repeat EvCollResultFree n
                 /\ w_disk w6 = w_disk w5 /\ same_env w5 w6).
    { unfold w6, n. destruct (uses_erst (mode ss)).
      - rewrite w_trace_emit_n. split; [reflexivity | apply emit_n_fields].
      - cbn. rewrite app_nil_r. split; [reflexivity|]. split; [reflexivity|].
        apply same_env_refl. }
    destruct T6 as (T6 & D6 & E6).
    assert (Henv : same_env w w6).
    { apply (same_env_trans _ w1); [unfold w1, same_env; cbn; auto|].
      apply (same_env_trans _ _ _ E2).
      apply (same_env_trans _ (emit w2 (EvScanOpen hook))); [apply same_env_emit|].
      apply (same_env_trans _ _ _ E).
      apply (same_env_trans _ w5); [apply same_env_emit | exact E6]. }
    assert (Hdisk : w_disk w6 = transferred evs).
    { rewrite D6. unfold w5. cbn [w_disk emit]. rewrite Dk. cbn [w_disk emit].
      rewrite D2. reflexivity. }
    assert (Htr : w_trace w6
                  = w_trace w ++ [EvOpen (path (file ss)) (w_open w)]
                    ++ repeat EvCollResultInit n ++ [EvScanOpen hook] ++ evs
                    ++ [EvScanClose hook d4] ++ repeat EvCollResultFree n).
    { rewrite T6. unfold w5. rewrite w_trace_emit, T, w_trace_emit, T2. unfold w1.
      rewrite w_trace_emit. cbn [w_trace set_pos set_disk].
      rewrite <- !app_assoc. reflexivity. }
    rewrite F1 in Ha. cbn [fd] in Ha.
    destruct (w_open w >? 0) eqn:Epos.
    + unfold sys_lseek_end in Ha. rewrite Z.add_0_r in Ha.
      pose proof (blen_nonneg (w_disk w6)) as Hnn.
      replace (blen (w_disk w6) <? 0) with false in Ha by lia.
      injection Ha as <- <- <-.
      split.
      { cbn. destruct Henv as (H1 & H2 & H3 & H4). unfold same_env. cbn.
        rewrite F1. cbn. repeat split; congruence. }
      split; [intros; lia|]. intros _. exists evs, k.
      split; [exact P|]. split.
      { cbn [w_trace sys_close emit set_pos w_disk]. rewrite Htr.
        replace (0 <? w_open w) with true by lia.
        rewrite <- !app_assoc. cbn. reflexivity. }
      split; [exact Hdisk|]. split; [exact Hk|].
      split; [exact Hs|]. split; [exact Hall|].
      split; [intros _; cbn; auto | intros; lia].
    + injection Ha as <- <- <-.
      split.
      { cbn. destruct Henv as (H1 & H2 & H3 & H4). unfold same_env.
        rewrite F1. cbn. repeat split; congruence. }
      split; [intros; lia|]. intros _. exists evs, k.
      split; [exact P|]. split.
      { rewrite Htr. replace (0 <? w_open w) with false by lia.
        rewrite app_nil_r. reflexivity. }
      split; [exact Hdisk|]. split; [exact Hk|].
      split; [exact Hs|]. split; [exact Hall|].
      split; [intros; lia|]. intros H0. cbn. rewrite F1. cbn. auto.
Qed.

End ActionShape.

Lemma count_ev_none (p q : event -> bool) (evs : list event) :
  (forall e, q e = true -> p e = false) ->
  forallb q evs = true -> count_ev p evs = 0%nat.
Proof.
  intros Hp. induction evs as [|e evs IH]; intros Hq; [reflexivity|].
  simpl in Hq. apply andb_true_iff in Hq. destruct Hq as [He Hr].
  unfold count_ev in *. simpl. rewrite (Hp e He). apply IH. exact Hr.
Qed.

Lemma forallb_repeat (p : event -> bool) (e : event) (n : nat) :
  p e = true -> forallb p (repeat e n) = true.
Proof. intros Hp. induction n as [|n IH]; simpl; [reflexivity | rewrite Hp, IH; reflexivity]. Qed.

Lemma loop_is_action_event (e : event) : is_loop_event e = true -> is_action_event e = true.
Proof. destruct e; simpl; congruence. Qed.

Lemma forallb_weaken (p q : event -> bool) (evs : list event) :
  (forall e, p e = true -> q e = true) -> forallb p evs = true -> forallb q evs = true.
Proof. intros Hpq H. rewrite forallb_forall in *. auto. Qed.

Section ActionEvents.
Context {D : ExtDecls}.

(** Everything do_snapshot_action leaves in the trace is a call of its
    own: it neither takes nor releases the lock, sleeps, creates a thread
    or calls back. *)
Lemma do_snapshot_action_events (ss : snapshot_st) (w : world) (scan : list scan_result) :
  forall ss' w' d, do_snapshot_action ss w scan = (ss', w', d) ->
  exists evs, w_trace w' = w_trace w ++ evs /\ forallb is_action_event evs = true.
Proof.
  intros ss' w' d Ha.
  destruct (do_snapshot_action_shape _ _ _ _ _ _ Ha) as (_ & Hfail & Hok).
  destruct (Z.ltb_spec (w_open w) 0) as [Hneg | Hpos].
  - destruct (Hfail Hneg) as (_ & _ & ->). eexists. split; [cbn; rewrite <- app_assoc; reflexivity|].
    reflexivity.
  - destruct (Hok Hpos) as (evs & k & P & T & _). eexists. split; [exact T|].
    repeat (apply forallb_app_true; [|]); try reflexivity.
    + apply forallb_repeat. reflexivity.
    + apply (forallb_weaken _ _ _ loop_is_action_event P).
    + apply forallb_repeat. reflexivity.
    + destruct (0 <? w_open w); reflexivity.
Qed.

End ActionEvents.

(** ** The run as a whole *)

Section RunEnvelope.
Context {D : ExtDecls}.

(** X1.  Whenever open() succeeds, do_snapshot_action brackets the scan:
    after open it calls coll_elem_result_init sixteen times in the DATA and
    CHKPT modes and not at all in the KEY mode, opens the scan (with the
    checkpoint hook exactly in the CHKPT mode), runs the loop, which only
    writes, syncs, logs, asks the scanner for items and releases them,
    closes the scan with the same hook and the verdict it stores in
    [success], frees as many element results as it initialised and, when
    the descriptor is positive, asks lseek for the end of the file, stores
    the answer in file.size, closes the descriptor once and resets file.fd
    to -1; file.size is then the length of the file.  A descriptor 0 is
    neither sized nor closed: file.fd stays 0 and file.size is untouched. *)
Theorem action_brackets_the_scan (ss : snapshot_st) (w : world) (scan : list scan_result) :
  0 <= w_open w ->
  forall ss' w' d, do_snapshot_action ss w scan = (ss', w', d) ->
  let hook := mode ss =? CHKPT_SNAPSHOT_MODE_CHKPT in
  let n := if uses_erst (mode ss) then 16%nat else 0%nat in
  exists evs,
    forallb is_loop_event evs = true
    /\ w_trace w'
       = w_trace w
         ++ [EvOpen (path (file ss)) (w_open w)]
         ++ repeat EvCollResultInit n ++ [EvScanOpen hook]
         ++ evs
         ++ [EvScanClose hook (success ss')] ++ repeat EvCollResultFree n
         ++ (if 0 <? w_open w
             then [EvLseekEnd (w_open w) 0 (size (file ss')); EvClose (w_open w)]
             else [])
    /\ w_disk w' = transferred evs
    /\ (0 < w_open w -> fd (file ss') = -1 /\ size (file ss') = blen (w_disk w'))
    /\ (w_open w = 0 -> fd (file ss') = 0 /\ size (file ss') = size (file ss)).
Proof.
  intros Hopen ss' w' d Ha hook n.
  destruct (do_snapshot_action_shape _ _ _ _ _ _ Ha) as ((Hs & _) & _ & Hok).
  destruct (Hok Hopen) as (evs & k & P & T & Dk & _ & _ & _ & Hpos & Hzero).
  exists evs. split; [exact P|]. split; [|split; [exact Dk | split; assumption]].
  rewrite T, Hs. change (Z.to_nat SCAN_ITEM_ARRAY_SIZE) with 16%nat. fold n. fold hook.
  destruct (0 <? w_open w) eqn:E; [|reflexivity].
  destruct (Hpos ltac:(lia)) as [_ ->]. reflexivity.
Qed.

(** X2.  The count of snapped items moves by exactly the items handed to
    the dump step: after a run that succeeded it has grown, modulo 2^64, by
    the number of items the scanner delivered up to the end of the scan;
    after a run that failed, by the number of items whose records had been
    put into the buffer, which is at most that number. *)
Theorem snapped_counts_dumped_items (ss : snapshot_st) (w : world)
        (scan : list scan_result) :
  0 <= snapped ss < 2 ^ 64 ->
  forall ss' w' d, do_snapshot_action ss w scan = (ss', w', d) ->
  exists k,
    0 <= k <= Z.of_nat (List.length (scan_items scan))
    /\ snapped ss' = u64 (snapped ss + k)
    /\ (d = true -> k = Z.of_nat (List.length (scan_items scan))).
Proof.
  intros Hin ss' w' d Ha.
  destruct (do_snapshot_action_shape _ _ _ _ _ _ Ha) as (_ & Hfail & Hok).
  destruct (Z.ltb_spec (w_open w) 0) as [Hneg | Hpos].
  - destruct (Hfail Hneg) as (-> & -> & _). exists 0. split; [lia|].
    split; [|discriminate]. cbn. rewrite Z.add_0_r, u64_small; auto.
  - destruct (Hok Hpos) as (evs & k & _ & _ & _ & Hk & Hs & Hall & _).
    exists k. auto.
Qed.

End RunEnvelope.

Lemma action_brackets_the_scan_witness :
  exists ss' w' evs,
    do_snapshot_action (D := sample_decls) (anchor_prepared CHKPT_SNAPSHOT_MODE_DATA)
                       quiet_world [sample_batch] = (ss', w', true)
    /\ w_trace w'
       = [EvOpen "/tmp/f" 5] ++ repeat EvCollResultInit 16 ++ [EvScanOpen false] ++ evs
         ++ [EvScanClose false (success ss')] ++ repeat EvCollResultFree 16
         ++ [EvLseekEnd 5 0 (size (file ss')); EvClose 5].
Proof.
  destruct (do_snapshot_action (D := sample_decls) (anchor_prepared CHKPT_SNAPSHOT_MODE_DATA)
              quiet_world [sample_batch]) as [[ss' w'] d] eqn:Ea.
  assert (Hd : d = true).
  { change d with (snd (ss', w', d)). rewrite <- Ea. vm_compute. reflexivity. }
  subst d.
  assert (Hopen : 0 <= w_open quiet_world) by (cbn; lia).
  destruct (action_brackets_the_scan (D := sample_decls) _ _ _ Hopen _ _ _ Ea)
    as (evs & _ & T & _).
  exists ss', w', evs. split; [reflexivity | exact T].
Defined.

Lemma snapped_counts_dumped_items_witness :
  snapped (fst (fst (do_snapshot_action (D := sample_decls)
                       (anchor_prepared CHKPT_SNAPSHOT_MODE_KEY) quiet_world
                       [sample_batch; sample_batch]))) = 4.
Proof.
  destruct (do_snapshot_action (D := sample_decls) (anchor_prepared CHKPT_SNAPSHOT_MODE_KEY)
              quiet_world [sample_batch; sample_batch]) as [[ss' w'] d] eqn:Ea.
  assert (Hd : d = true).
  { change d with (snd (ss', w', d)). rewrite <- Ea. vm_compute. reflexivity. }
  assert (Hin : 0 <= snapped (anchor_prepared CHKPT_SNAPSHOT_MODE_KEY) < 2 ^ 64)
    by (cbn; lia).
  destruct (snapped_counts_dumped_items (D := sample_decls) _ _ _ Hin _ _ _ Ea)
    as (k & _ & Hs & Hall).
  cbn [fst]. rewrite Hs, (Hall Hd). reflexivity.
Defined.

(** ** The controller *)

Lemma argcheck_valid (m : Z) (w : world) :
  m < CHKPT_SNAPSHOT_MODE_MAX -> do_snapshot_argcheck m w = (w, ENGINE_SUCCESS).
Proof.
  intros Hm. unfold do_snapshot_argcheck.
  destruct (m >=? CHKPT_SNAPSHOT_MODE_MAX) eqn:E; [lia | reflexivity].
Qed.


Lemma action_not_lock (e : event) : is_action_event e = true -> is_lock_event e = false.
Proof. destruct e; cbn; intros H; try reflexivity; discriminate. Qed.

Section ControllerOutcomes.
Context {D : ExtDecls}.

(** What chkpt_snapshot_direct does when it is not turned away. *)
Lemma direct_unfold (ss : snapshot_st) (w : world) (m : Z) (pfx : option string)
      (npfx : Z) (filepath : option string) (scan : list scan_result) :
  m < CHKPT_SNAPSHOT_MODE_MAX -> running ss = false ->
  forall ss2 w2 ok,
  do_snapshot_action
    (with_running (do_snapshot_prepare ss (emit w EvLock) m pfx npfx filepath None) true)
    (emit (emit w EvLock) EvUnlock) scan = (ss2, w2, ok) ->
  chkpt_snapshot_direct ss w m pfx npfx filepath scan
  = (with_running ss2 false,
     emit (emit (emit w2 (if ok then action_done_line else action_failed_line)) EvLock)
          EvUnlock,
     (if ok then ENGINE_SUCCESS else ENGINE_FAILED),
     (if ok then Some (size (file ss2)) else None)).
Proof.
  intros Hm Hrun ss2 w2 ok Ha. unfold chkpt_snapshot_direct.
  rewrite (argcheck_valid m w Hm). cbn [err_eqb negb].
  unfold do_snapshot_direct. rewrite Hrun, Ha. destruct ok; reflexivity.
Qed.

(** X3.  A direct snapshot that is not turned away (valid mode, no run
    going on) takes the lock, releases it for the whole run and takes it
    again before it reports: between the two lock/unlock pairs lie only the
    calls of the run and one log line.  It returns ENGINE_SUCCESS exactly
    when the run stored true in [success], and ENGINE_FAILED otherwise; it
    reports a file size exactly on success, namely file.size; it leaves
    [running] false; and when open() returned a positive descriptor the
    descriptor has been closed (file.fd is -1) and file.size is the length
    of the file. *)
Theorem direct_snapshot_outcome (ss : snapshot_st) (w : world) (m : Z)
        (pfx : option string) (npfx : Z) (filepath : option string)
        (scan : list scan_result) :
  0 <= m < CHKPT_SNAPSHOT_MODE_MAX -> running ss = false ->
  forall ss' w' ret filesize,
  chkpt_snapshot_direct ss w m pfx npfx filepath scan = (ss', w', ret, filesize) ->
  running ss' = false /\ mode ss' = m
  /\ ret = (if success ss' then ENGINE_SUCCESS else ENGINE_FAILED)
  /\ filesize = (if success ss' then Some (size (file ss')) else None)
  /\ (0 < w_open w -> fd (file ss') = -1 /\ size (file ss') = blen (w_disk w'))
  /\ exists evs,
       w_trace w'
       = w_trace w ++ [EvLock; EvUnlock] ++ evs
         ++ [if success ss' then action_done_line else action_failed_line; EvLock; EvUnlock]
       /\ forallb is_action_event evs = true
       /\ count_ev is_lock_event evs = 0%nat.
Proof.
  intros Hm Hrun ss' w' ret filesize Hd.
  destruct (do_snapshot_action
              (with_running (do_snapshot_prepare ss (emit w EvLock) m pfx npfx filepath None)
                            true)
              (emit (emit w EvLock) EvUnlock) scan) as [[ss2 w2] ok] eqn:Ea.
  rewrite (direct_unfold ss w m pfx npfx filepath scan ltac:(lia) Hrun _ _ _ Ea) in Hd.
  injection Hd as <- <- <- <-.
  destruct (do_snapshot_action_shape _ _ _ _ _ _ Ea)
    as ((Hs & _ & _ & _ & Hmode & _) & _ & Hok).
  destruct (do_snapshot_action_events _ _ _ _ _ _ Ea) as (evs & T & P).
  cbn [running mode success file with_running].
  split; [reflexivity|]. split; [rewrite Hmode; reflexivity|].
  rewrite Hs. split; [reflexivity|]. split; [reflexivity|]. split.
  - intros Hpos. cbn [w_open emit] in Hok.
    destruct (Hok ltac:(lia)) as (evs1 & k & _ & _ & _ & _ & _ & _ & Hp & _).
    exact (Hp Hpos).
  - exists evs. split; [|split; [exact P|]].
    + cbn [w_trace emit]. rewrite T. cbn [w_trace emit]. rewrite <- !app_assoc. reflexivity.
    + apply (count_ev_none _ _ _ action_not_lock P).
Qed.

(** X4.  When open() fails, a direct snapshot returns ENGINE_FAILED and
    reports no size; the scanner is never consulted, nothing is written,
    synced or closed, and the file is as it was: besides the two
    lock/unlock pairs the only calls are the failed open and two log
    lines.  The anchor keeps the negative descriptor and [running] is
    false again. *)
Theorem direct_snapshot_open_failure (ss : snapshot_st) (w : world) (m : Z)
        (pfx : option string) (npfx : Z) (filepath : option string)
        (scan : list scan_result) :
  0 <= m < CHKPT_SNAPSHOT_MODE_MAX -> running ss = false -> w_open w < 0 ->
  exists ss' w',
    chkpt_snapshot_direct ss w m pfx npfx filepath scan = (ss', w', ENGINE_FAILED, None)
    /\ w_trace w'
       = w_trace w
         ++ [EvLock; EvUnlock; EvOpen (snapshot_path filepath) (w_open w);
             open_failed_line; action_failed_line; EvLock; EvUnlock]
    /\ w_disk w' = w_disk w
    /\ running ss' = false /\ success ss' = false
    /\ fd (file ss') = w_open w /\ snapped ss' = 0.
Proof.
  intros Hm Hrun Hopen.
  destruct (do_snapshot_action
              (with_running (do_snapshot_prepare ss (emit w EvLock) m pfx npfx filepath None)
                            true)
              (emit (emit w EvLock) EvUnlock) scan) as [[ss2 w2] ok] eqn:Ea.
  rewrite (direct_unfold ss w m pfx npfx filepath scan ltac:(lia) Hrun _ _ _ Ea).
  destruct (do_snapshot_action_shape _ _ _ _ _ _ Ea) as (_ & Hfail & _).
  cbn [w_open emit] in Hfail. destruct (Hfail Hopen) as (-> & -> & ->).
  do 2 eexists. split; [reflexivity|].
  split; [cbn; rewrite <- !app_assoc; reflexivity|].
  repeat split; reflexivity.
Qed.



End ControllerOutcomes.

(** ** Stop requests *)

Section StopRequest.
Context {D : ExtDecls}.

Lemma scan_body_stop (ss : snapshot_st) (w : world) (use_erst : bool) (r : scan_result) :
  sr_reqstop r = true \/ reqstop ss = true ->
  scan_body ss w use_erst r
  = ((if sr_reqstop r then with_reqstop ss true else ss), emit w stop_seen_line, Break false).
Proof.
  intros Hs. unfold scan_body.
  assert (Hr : reqstop (if sr_reqstop r then with_reqstop ss true else ss) = true).
  { destruct (sr_reqstop r); [reflexivity|]. destruct Hs; [discriminate | assumption]. }
  rewrite Hr. reflexivity.
Qed.

(** A round that is given a batch or nothing (a count that is not
    negative) does not run the done step, asks the scanner at most once,
    and either goes on or ends the loop as failed. *)
Lemma scan_body_no_done (ss : snapshot_st) (w : world) (use_erst : bool) (r : scan_result) :
  0 <= sr_count r ->
  forall ss' w' ctl, scan_body ss w use_erst r = (ss', w', ctl) ->
  (ctl = Continue \/ ctl = Break false)
  /\ exists evs,
       w_trace w' = w_trace w ++ evs
       /\ count_ev is_done evs = 0%nat /\ (count_ev is_getnext evs <= 1)%nat.
Proof.
  intros Hc ss' w' ctl Hb. unfold scan_body in Hb.
  set (ss0 := if sr_reqstop r then with_reqstop ss true else ss) in *.
  destruct (reqstop ss0).
  { injection Hb as <- <- <-. split; [auto|]. exists [stop_seen_line].
    split; [reflexivity|]. split; [reflexivity | cbn; lia]. }
  replace (sr_count r =? -2) with false in Hb by lia.
  replace (sr_count r <? 0) with false in Hb by lia.
  destruct (sr_count r >? 0).
  - destruct (snapshot_func_dump (mode ss0) ss0
                (emit (emit w (EvScanGetnext (sr_count r))) (EvDump (mode ss0) (sr_count r)))
                (sr_items r) (sr_count r) (if use_erst then Some (sr_elems r) else None))
      as [[ss1 w2] ret] eqn:Ed.
    apply snapshot_func_dump_emits_io in Ed. destruct Ed as (evs & T & Hio).
    pose proof (count_ev_io is_done evs io_not_done Hio) as Hd0.
    pose proof (count_ev_io is_getnext evs io_not_getnext Hio) as Hg0.
    destruct (ret <? 0); injection Hb as <- <- <-; (split; [auto|]).
    + exists ([EvScanGetnext (sr_count r); EvDump (mode ss0) (sr_count r)] ++ evs
              ++ [EvScanRelease (sr_count r); dump_failed_line]).
      split; [cbn; rewrite T; cbn; rewrite <- !app_assoc; reflexivity|].
      rewrite !count_ev_app, Hd0, Hg0. cbn. split; lia.
    + exists ([EvScanGetnext (sr_count r); EvDump (mode ss0) (sr_count r)] ++ evs
              ++ [EvScanRelease (sr_count r)]).
      split; [cbn; rewrite T; cbn; rewrite <- !app_assoc; reflexivity|].
      rewrite !count_ev_app, Hd0, Hg0. cbn. split; lia.
  - injection Hb as <- <- <-. split; [auto|]. exists [EvScanGetnext (sr_count r)].
    split; [reflexivity|]. split; [reflexivity | cbn; lia].
Qed.

(** X7.  A stop request is honoured at the top of the next round, before
    the scanner is asked again.  Nothing the scanner would have answered
    after the round in which the request is seen matters: the loop ends
    there.  If until then the scanner had only delivered batches or
    nothing, the run ends as failed, the done step has not run (the file
    gets neither summary nor SnapshotDone record from this run), and the
    scanner has been asked at most once per earlier round. *)
Theorem stop_request_ends_scan (use_erst : bool) (pre rest : list scan_result)
        (r : scan_result) (ss : snapshot_st) (w : world) :
  sr_reqstop r = true ->
  scan_loop ss w use_erst (pre ++ r :: rest) = scan_loop ss w use_erst (pre ++ [r])
  /\ (Forall (fun q => 0 <= sr_count q) pre ->
      forall ss' w' d,
      scan_loop ss w use_erst (pre ++ r :: rest) = (ss', w', d) ->
      d = false
      /\ exists evs,
           w_trace w' = w_trace w ++ evs
           /\ count_ev is_done evs = 0%nat
           /\ (count_ev is_getnext evs <= List.length pre)%nat).
Proof.
  intros Hstop. split.
  - revert ss w. induction pre as [|q pre IH]; intros ss w; simpl.
    + rewrite (scan_body_stop ss w use_erst r (or_introl Hstop)). reflexivity.
    + destruct (scan_body ss w use_erst q) as [[ss1 w1] [|d1]]; [apply IH | reflexivity].
  - revert ss w. induction pre as [|q pre IH]; intros ss w Hpre ss' w' d Hl; simpl in Hl.
    + rewrite (scan_body_stop ss w use_erst r (or_introl Hstop)) in Hl.
      injection Hl as <- <- <-. split; [reflexivity|].
      exists [stop_seen_line]. split; [reflexivity|]. split; [reflexivity | cbn; lia].
    + inversion Hpre as [|? ? Hq Hrest]; subst.
      destruct (scan_body ss w use_erst q) as [[ss1 w1] ctl] eqn:Eb.
      destruct (scan_body_no_done _ _ _ _ Hq _ _ _ Eb) as (Hctl & evs & T & Hd0 & Hg1).
      destruct Hctl as [-> | ->].
      * destruct (IH _ _ Hrest _ _ _ Hl) as (Hd & evs2 & T2 & Hd2 & Hg2).
        split; [exact Hd|].
        exists (evs ++ evs2). split; [rewrite T2, T, <- !app_assoc; reflexivity|].
        rewrite !count_ev_app, Hd0, Hd2. cbn [List.length]. split; lia.
      * injection Hl as <- <- <-. split; [reflexivity|].
        exists evs. split; [exact T|]. split; [exact Hd0|]. cbn [List.length]. lia.
Qed.

End StopRequest.

(** ** What a key snapshot leaves in its file *)


Section RunFactor.
Context {D : ExtDecls}.

(** do_snapshot_action around its loop, when open() succeeds: the loop
    starts on the anchor with the new descriptor and an empty file, and
    what follows the loop changes neither the file nor the buffer, the
    count, the prefix or the start time. *)
Lemma do_snapshot_action_factor (ss : snapshot_st) (w : world) (scan : list scan_result) :
  0 <= w_open w ->
  forall ss' w' d, do_snapshot_action ss w scan = (ss', w', d) ->
  exists w3 ss4 w4,
    scan_loop (with_fd ss (w_open w)) w3 (uses_erst (mode ss)) scan = (ss4, w4, d)
    /\ w_disk w3 = [] /\ same_env w w3
    /\ w_disk w' = w_disk w4 /\ same_env w4 w'
    /\ snapped ss' = snapped ss4 /\ buffer ss' = buffer ss4
    /\ prefix ss' = prefix ss4 /\ nprefix ss' = nprefix ss4 /\ started ss' = started ss4
    /\ w_io w3 = w_io w.
Proof.
  intros Hopen ss' w' d Ha.
  unfold do_snapshot_action in Ha. unfold sys_open_trunc in Ha.
  replace (w_open w <? 0) with false in Ha by lia.
  cbn [fd file with_fd with_file mode] in Ha.
  replace (w_open w <? 0) with false in Ha by lia.
  fold (uses_erst (mode ss)) in Ha.
  set (hook := mode ss =? CHKPT_SNAPSHOT_MODE_CHKPT) in *.
  set (w1 := emit (set_pos (set_disk w []) 0) (EvOpen (path (file ss)) (w_open w))) in *.
  set (ss1 := with_fd ss (w_open w)) in *.
  set (w2 := if uses_erst (mode ss)
             then emit_n w1 EvCollResultInit (Z.to_nat SCAN_ITEM_ARRAY_SIZE)
             else w1) in *.
  destruct (scan_loop ss1 (emit w2 (EvScanOpen hook)) (uses_erst (mode ss)) scan)
    as [[ss4 w4] d4] eqn:El.
  set (w5 := emit w4 (EvScanClose hook d4)) in *.
  set (w6 := if uses_erst (mode ss)
             then emit_n w5 EvCollResultFree (Z.to_nat SCAN_ITEM_ARRAY_SIZE)
             else w5) in *.
  assert (H2 : w_disk w2 = [] /\ same_env w w2).
  { unfold w2. destruct (uses_erst (mode ss)).
    - destruct (emit_n_fields EvCollResultInit (Z.to_nat SCAN_ITEM_ARRAY_SIZE) w1) as [Dk E].
      split; [rewrite Dk; reflexivity|].
      apply (same_env_trans _ w1); [unfold w1, same_env; cbn; auto | exact E].
    - split; [reflexivity | unfold w1, same_env; cbn; auto]. }
  assert (H6 : w_disk w6 = w_disk w4 /\ same_env w4 w6).
  { unfold w6. destruct (uses_erst (mode ss)).
    - destruct (emit_n_fields EvCollResultFree (Z.to_nat SCAN_ITEM_ARRAY_SIZE) w5) as [Dk E].
      split; [rewrite Dk; reflexivity|].
      apply (same_env_trans _ w5); [apply same_env_emit | exact E].
    - split; [reflexivity | apply same_env_emit]. }
  destruct H2 as [D2 E2]. destruct H6 as [D6 E6].
  assert (Hio : w_io (emit w2 (EvScanOpen hook)) = w_io w).
  { rewrite w_io_emit. unfold w2. rewrite w_io_if. reflexivity. }
  exists (emit w2 (EvScanOpen hook)), ss4, w4.
  destruct (fd (file ss4) >? 0).
  - unfold sys_lseek_end in Ha. rewrite Z.add_0_r in Ha.
    pose proof (blen_nonneg (w_disk w6)) as Hnn.
    replace (blen (w_disk w6) <? 0) with false in Ha by lia.
    injection Ha as <- <- <-.
    split; [exact El|]. split; [exact D2|].
    split; [apply (same_env_trans _ _ _ E2); apply same_env_emit|].
    split; [cbn; exact D6|]. split.
    { apply (same_env_trans _ _ _ E6). unfold same_env. cbn. auto. }
    repeat split; try reflexivity. exact Hio.
  - injection Ha as <- <- <-.
    split; [exact El|]. split; [exact D2|].
    split; [apply (same_env_trans _ _ _ E2); apply same_env_emit|].
    split; [exact D6|]. split; [exact E6|]. repeat split; try reflexivity. exact Hio.
Qed.





End RunFactor.

(** ** From the writer to the recovery *)

Section WriterToValidity.
Context {D : ExtDecls}.

(** The validity check on a descriptor whose reads deliver what is there. *)
Lemma check_file_validity_faithful (w : world) (fd filesize : Z) :
  0 < fd -> w_io w = [] -> sizeof_SnapshotDoneLog <= blen (w_disk w) ->
  exists w',
    chkpt_snapshot_check_file_validity w fd filesize
    = Returns (w', blen (w_disk w), lrec_check_snapshot_done (trailing_record (w_disk w)))
    /\ w_pos w' = 0 /\ w_disk w' = w_disk w.
Proof.
  intros Hfd Hio Hlen. pose proof sizeof_SnapshotDoneLog_pos as Hsz.
  unfold chkpt_snapshot_check_file_validity.
  replace (fd >? 0) with true by lia. cbn [negb].
  unfold sys_lseek_end.
  replace (blen (w_disk w) + - sizeof_SnapshotDoneLog)
    with (blen (w_disk w) - sizeof_SnapshotDoneLog) by lia.
  replace (blen (w_disk w) - sizeof_SnapshotDoneLog <? 0) with false by lia.
  replace (blen (w_disk w) - sizeof_SnapshotDoneLog <? 0) with false by lia.
  set (off := blen (w_disk w) - sizeof_SnapshotDoneLog) in *.
  set (w1 := emit (set_pos w off) (EvLseekEnd fd (- sizeof_SnapshotDoneLog) off)).
  rewrite (sys_read_quiet w1 fd sizeof_SnapshotDoneLog) by (cbn; lia || exact Hio).
  rewrite Z.eqb_refl. cbn [negb].
  eexists. split.
  - apply f_equal. apply f_equal2; [apply f_equal2; [reflexivity | unfold off; lia]|].
    f_equal. cbn [w_pos w_disk w1 emit set_pos]. unfold trailing_record. fold off.
    apply firstn_all2. rewrite length_skipn. unfold off, blen. lia.
  - split; reflexivity.
Qed.

Lemma data_run_output_ends_with_done (use_erst : bool) (scan : list scan_result) :
  exists pre, data_run_output use_erst scan = pre ++ lrec_snapshot_done.
Proof.
  induction scan as [|r rest [pre IH]]; simpl.
  - exists []. reflexivity.
  - destruct (sr_count r <? 0); [exists []; reflexivity|].
    destruct (sr_count r >? 0).
    + eexists. rewrite IH, app_assoc. reflexivity.
    + exists pre. exact IH.
Qed.

Lemma trailing_record_app (pre : bytes) :
  blen lrec_snapshot_done = sizeof_SnapshotDoneLog ->
  trailing_record (pre ++ lrec_snapshot_done) = lrec_snapshot_done.
Proof.
  intros Hsz. unfold trailing_record. rewrite blen_app, Hsz.
  replace (blen pre + sizeof_SnapshotDoneLog - sizeof_SnapshotDoneLog) with (blen pre) by lia.
  unfold blen. rewrite Nat2Z.id. rewrite skipn_app, skipn_all, Nat.sub_diag. reflexivity.
Qed.

(** X9.  What the writer finishes, the validity check accepts.  Provided
    the SnapshotDone record the writer constructs has the size of a
    SnapshotDoneLog and is one that lrec_check_snapshot_done accepts: the
    file left by a DATA or CHKPT run that started with an empty buffer,
    whose records fit the capacity and that succeeded on a positive
    descriptor, passes chkpt_snapshot_check_file_validity on any
    descriptor that delivers what is there; the size the check reports is
    the file.size the run stored, and the offset is back at 0. *)
Theorem data_snapshot_passes_validity (ss : snapshot_st) (w : world)
        (scan : list scan_result) :
  blen lrec_snapshot_done = sizeof_SnapshotDoneLog ->
  lrec_check_snapshot_done lrec_snapshot_done = 0 ->
  buf_ok ss -> mode ss <> CHKPT_SNAPSHOT_MODE_KEY -> curlen (buffer ss) = 0 ->
  run_fits ss (uses_erst (mode ss)) scan -> 0 < w_open w ->
  forall ss' w', do_snapshot_action ss w scan = (ss', w', true) ->
  forall wr fd filesize, w_disk wr = w_disk w' -> w_io wr = [] -> 0 < fd ->
  exists wr',
    chkpt_snapshot_check_file_validity wr fd filesize = Returns (wr', size (file ss'), 0)
    /\ w_pos wr' = 0.
Proof.
  intros Hsz Hchk Hok Hmode Hc Hfit Hopen ss' w' Ha wr fd filesize Hdisk Hio Hfd.
  destruct (do_snapshot_action_run ss w scan Hok Hfit ltac:(lia) _ _ _ Ha) as (_ & _ & Hdata).
  destruct (Hdata Hmode) as [_ Hout]. specialize (Hout eq_refl).
  rewrite (buffered_empty _ Hc) in Hout. cbn [app] in Hout.
  fold (uses_erst (mode ss)) in Hout.
  destruct (do_snapshot_action_shape _ _ _ _ _ _ Ha) as (_ & _ & Hshape).
  destruct (Hshape ltac:(lia)) as (evs & k & _ & _ & _ & _ & _ & _ & Hpos & _).
  destruct (Hpos Hopen) as [_ Hsize].
  destruct (data_run_output_ends_with_done (uses_erst (mode ss)) scan) as [pre Hpre].
  assert (Hlen : sizeof_SnapshotDoneLog <= blen (w_disk wr)).
  { rewrite Hdisk, Hout, Hpre, blen_app, Hsz. pose proof (blen_nonneg pre). lia. }
  destruct (check_file_validity_faithful wr fd filesize Hfd Hio Hlen) as (wr' & Heq & Hp & _).
  exists wr'. split; [|exact Hp].
  rewrite Heq, Hsize, Hdisk. do 2 f_equal.
  rewrite Hout, Hpre, (trailing_record_app pre Hsz). exact Hchk.
Qed.

End WriterToValidity.

(** ** From the writer to the replayer *)

Lemma records_read_app (a b : list event) :
  records_read (a ++ b) = records_read a ++ records_read b.
Proof. unfold records_read. apply flat_map_app. Qed.

Lemma logged_app (msg : string) (a b : list event) :
  logged msg (a ++ b) = logged msg a || logged msg b.
Proof. unfold logged. apply existsb_app. Qed.

Lemma reads_silent (rd : list event) :
  forallb is_read rd = true ->
  records_read rd = [] /\ existsb corrupt_line rd = false
  /\ forall msg, logged msg rd = false.
Proof.
  induction rd as [|e rd IH]; intros H; [repeat split; reflexivity|].
  simpl in H. apply andb_true_iff in H. destruct H as [He Hr].
  destruct (IH Hr) as (R & C & L).
  destruct e; try discriminate. cbn. rewrite C. repeat split; auto.
Qed.

Lemma skipn_prefix (n : nat) (l r rest : bytes) :
  (0 < List.length r)%nat ->
  skipn n l = r ++ rest -> (n + List.length r <= List.length l)%nat.
Proof.
  intros Hr H.
  assert (Hl : List.length (skipn n l) = List.length (r ++ rest)) by (rewrite H; reflexivity).
  rewrite length_skipn, length_app in Hl. lia.
Qed.

Section ReadFramed.
Context {D : ExtDecls}.

(** Reading a record that is laid out as the replayer expects, from a
    descriptor that delivers what is there. *)
Lemma read_logrec_framed (w : world) (fd : Z) (kind : Z) (r rest : bytes) :
  framed kind r -> w_io w = [] -> 0 <= w_pos w ->
  skipn (Z.to_nat (w_pos w)) (w_disk w) = r ++ rest ->
  exists w1 rd,
    read_logrec w fd = (w1, Some (frame_rec r))
    /\ w_trace w1 = w_trace w ++ rd ++ [EvRecord (frame_rec r)]
    /\ forallb is_read rd = true
    /\ w_io w1 = [] /\ w_disk w1 = w_disk w /\ w_pos w1 = w_pos w + blen r
    /\ w_pos w1 <= blen (w_disk w1)
    /\ skipn (Z.to_nat (w_pos w1)) (w_disk w1) = rest.
Proof.
  intros (Hlen & Hkind & Hbody) Hio Hpos Hskip.
  pose proof sizeof_LogHdr_pos as Hh.
  assert (Hr0 : (0 < List.length r)%nat) by (unfold blen in *; lia).
  pose proof (skipn_prefix _ _ _ _ Hr0 Hskip) as Hfit.
  assert (Hfit' : w_pos w + blen r <= blen (w_disk w)) by (unfold blen in *; lia).
  assert (Hrest : forall p, p = w_pos w + blen r ->
            skipn (Z.to_nat p) (w_disk w) = rest).
  { intros p ->. replace (Z.to_nat (w_pos w + blen r))
      with (List.length r + Z.to_nat (w_pos w))%nat by (unfold blen; lia).
    rewrite <- skipn_skipn, Hskip, skipn_app, skipn_all, Nat.sub_diag. reflexivity. }
  assert (Hhdr : firstn (Z.to_nat sizeof_LogHdr) (skipn (Z.to_nat (w_pos w)) (w_disk w))
                 = firstn (Z.to_nat sizeof_LogHdr) r).
  { rewrite Hskip, firstn_app.
    replace (Z.to_nat sizeof_LogHdr - List.length r)%nat with 0%nat by (unfold blen in *; lia).
    cbn. rewrite app_nil_r. reflexivity. }
  unfold read_logrec.
  assert (Hh0 : 0 <= sizeof_LogHdr) by lia.
  assert (Hh1 : w_pos w + sizeof_LogHdr <= blen (w_disk w)) by lia.
  rewrite (sys_read_quiet w fd sizeof_LogHdr Hio Hpos Hh0 Hh1).
  rewrite Z.eqb_refl. cbn [negb]. rewrite Hhdr.
  set (hdr := LogHdr_of_bytes (firstn (Z.to_nat sizeof_LogHdr) r)) in *.
  destruct (body_length hdr >? 0) eqn:Eb.
  - replace (MAX_LOG_RECORD_SIZE - sizeof_LogHdr <? body_length hdr) with false by lia.
    set (w1 := emit (set_pos w (w_pos w + sizeof_LogHdr))
                    (EvRead fd sizeof_LogHdr sizeof_LogHdr)) in *.
    rewrite (sys_read_quiet w1 fd (body_length hdr))
      by (cbn [w_io w_pos w_disk w1 emit set_pos]; lia || exact Hio).
    rewrite Z.eqb_refl. cbn [negb].
    assert (Hb : firstn (Z.to_nat (body_length hdr))
                        (skipn (Z.to_nat (w_pos w1)) (w_disk w1))
                 = skipn (Z.to_nat sizeof_LogHdr) r).
    { cbn [w_pos w_disk w1 emit set_pos].
      replace (Z.to_nat (w_pos w + sizeof_LogHdr))
        with (Z.to_nat sizeof_LogHdr + Z.to_nat (w_pos w))%nat by lia.
      rewrite <- skipn_skipn, Hskip, skipn_app.
      replace (Z.to_nat sizeof_LogHdr - List.length r)%nat with 0%nat
        by (unfold blen in *; lia).
      cbn [skipn]. rewrite firstn_app.
      replace (Z.to_nat (body_length hdr) - List.length (skipn (Z.to_nat sizeof_LogHdr) r))%nat
        with 0%nat by (rewrite length_skipn; unfold blen in *; lia).
      cbn [firstn]. rewrite app_nil_r. apply firstn_all2.
      rewrite length_skipn. unfold blen in *. lia. }
    rewrite Hb.
    eexists. exists [EvRead fd sizeof_LogHdr sizeof_LogHdr;
                     EvRead fd (body_length hdr) (body_length hdr)].
    split; [reflexivity|].
    split; [cbn; rewrite <- !app_assoc; reflexivity|].
    split; [reflexivity|]. split; [exact Hio|]. split; [reflexivity|].
    cbn [w_pos w_disk w1 emit set_pos]. split; [lia|]. split; [lia|]. apply Hrest. lia.
  - assert (Hz : blen r = sizeof_LogHdr) by lia.
    assert (Hnil : skipn (Z.to_nat sizeof_LogHdr) r = [])
      by (apply skipn_all2; unfold blen in *; lia).
    assert (Hfr : frame_rec r = {| header := hdr; body := []; elem_owner := None |})
      by (unfold frame_rec; rewrite Hnil; reflexivity).
    rewrite Hfr.
    eexists. exists [EvRead fd sizeof_LogHdr sizeof_LogHdr].
    split; [reflexivity|].
    split; [cbn; rewrite <- !app_assoc; reflexivity|].
    split; [reflexivity|]. split; [exact Hio|]. split; [reflexivity|].
    cbn [w_pos w_disk emit set_pos]. split; [lia|]. split; [lia|]. apply Hrest. lia.
Qed.

End ReadFramed.

Section ReplayFrames.
Context {D : ExtDecls} {E : Engine}.

(** What the dispatch on one record may add to the trace, and how it may
    end the loop: with 0 only on a SnapshotDone record, after logging the
    success line, and with -1 only after logging that memory ran out. *)
Lemma apply_logrec_outcome (e : engine_st) (w : world) (last : option hash_item)
      (rec : LogRec) :
  forall e' w' ctl, apply_logrec e w last rec = (e', w', ctl) ->
  exists evs,
    w_trace w' = w_trace w ++ evs
    /\ existsb corrupt_line evs = false /\ records_read evs = []
    /\ match ctl with
       | ApContinue _ => logged replay_success_msg evs = false
       | ApBreak ret =>
           (ret = 0 /\ logtype (header rec) = LOG_SNAPSHOT_DONE
            /\ logged replay_success_msg evs = true)
           \/ (ret = -1 /\ logged replay_oom_msg evs = true
               /\ logged replay_success_msg evs = false)
       | ApAssert => evs = []
       end
    /\ (logtype (header rec) = LOG_SNAPSHOT_DONE -> ctl = ApBreak 0).
Proof.
  intros e' w' ctl Ha. unfold apply_logrec in Ha.
  pose proof logtype_link_done as Hld. pose proof logtype_elem_done as Hed.
  destruct (logtype (header rec) =? LOG_IT_LINK) eqn:Elink.
  - apply Z.eqb_eq in Elink.
    destruct (lrec_redo_from_record e rec) as [e1 err].
    destruct (negb (err_eqb err ENGINE_SUCCESS)); cbn [andb] in Ha;
      [destruct (err_eqb err ENGINE_ENOMEM)|].
    + injection Ha as <- <- <-. eexists.
      split; [cbn; rewrite <- ?app_assoc; reflexivity|].
      split; [reflexivity|]. split; [reflexivity|].
      split; [right; repeat split; reflexivity | intros Hd; exfalso; lia].
    + destruct last as [it|];
        destruct (lrec_get_item_if_collection_link _ rec) as [e3 [got|]];
        injection Ha as <- <- <-; eexists;
        (split; [cbn; rewrite <- ?app_assoc; reflexivity|]);
        (split; [reflexivity|]); (split; [reflexivity|]);
        (split; [reflexivity | intros Hd; exfalso; lia]).
    + destruct last as [it|];
        destruct (lrec_get_item_if_collection_link _ rec) as [e3 [got|]];
        injection Ha as <- <- <-; eexists;
        (split; [cbn; rewrite <- ?app_assoc; reflexivity|]);
        (split; [reflexivity|]); (split; [reflexivity|]);
        (split; [reflexivity | intros Hd; exfalso; lia]).
  - destruct (logtype (header rec) =? LOG_SNAPSHOT_ELEM) eqn:Eelem;
      [apply Z.eqb_eq in Eelem; destruct last as [it|]|].
    + destruct (negb (IS_COLL_ITEM it)).
      { injection Ha as <- <- <-. exists []. rewrite app_nil_r.
        repeat split; try reflexivity. intros Hd; exfalso; lia. }
      destruct (lrec_redo_from_record e (lrec_set_item_in_snapshot_elem rec it))
        as [e1 err].
      destruct (negb (err_eqb err ENGINE_SUCCESS)); cbn [andb] in Ha;
        [destruct (err_eqb err ENGINE_ENOMEM)|];
        injection Ha as <- <- <-; eexists;
        (split; [cbn; rewrite <- ?app_assoc; reflexivity|]);
        (split; [reflexivity|]); (split; [reflexivity|]);
        (split; [first [reflexivity | right; repeat split; reflexivity]
                | intros Hd; exfalso; lia]).
    + replace (logtype (header rec) =? LOG_SNAPSHOT_DONE) with false in Ha by lia.
      injection Ha as <- <- <-. exists []. rewrite app_nil_r.
      repeat split; try reflexivity. intros Hd; exfalso; lia.
    + destruct (logtype (header rec) =? LOG_SNAPSHOT_DONE) eqn:Edone.
      * apply Z.eqb_eq in Edone.
        destruct last as [it|]; injection Ha as <- <- <-; eexists;
          (split; [cbn; rewrite <- ?app_assoc; reflexivity|]);
          (split; [reflexivity|]); (split; [reflexivity|]);
          (split; [left; split; [reflexivity | split; [exact Edone | reflexivity]]
                  | reflexivity]).
      * apply Z.eqb_neq in Edone.
        injection Ha as <- <- <-. exists []. rewrite app_nil_r.
        repeat split; try reflexivity. intros Hd; exfalso; lia.
Qed.

End ReplayFrames.

Section ReplayWritten.
Context {D : ExtDecls} {E : Engine}.

(** The replay loop over records laid out as the replayer expects and
    ended by a SnapshotDone record. *)
Lemma apply_loop_frames (fs : list (Z * bytes)) :
  forall fuel e w fd last e' w' res,
  Forall (fun f => framed (fst f) (snd f) /\ fst f <> LOG_SNAPSHOT_DONE) fs ->
  framed LOG_SNAPSHOT_DONE lrec_snapshot_done ->
  w_io w = [] -> 0 <= w_pos w ->
  skipn (Z.to_nat (w_pos w)) (w_disk w) = List.concat (map snd fs) ++ lrec_snapshot_done ->
  apply_loop fuel e w fd last = Some (e', w', res) ->
  exists evs,
    w_trace w' = w_trace w ++ evs
    /\ existsb corrupt_line evs = false
    /\ (exists n, records_read evs
                  = firstn n (map frame_rec (map snd fs ++ [lrec_snapshot_done])))
    /\ (res = Returns (-1) -> logged replay_oom_msg evs = true)
    /\ (res = Returns 0 ->
        logged replay_success_msg evs = true \/ engine_initialized e' = false)
    /\ (logged replay_success_msg evs = true ->
        res = Returns 0
        /\ records_read evs = map frame_rec (map snd fs ++ [lrec_snapshot_done])
        /\ w_pos w' = blen (w_disk w')).
Proof.
  induction fs as [|f fs IH]; intros fuel e w fd last e' w' res Hfs Hdone Hio Hpos Hskip Hl;
    (destruct fuel as [|fuel]; [discriminate|]); simpl in Hl;
    (destruct (engine_initialized e) eqn:Einit; cbn [negb] in Hl;
     [|injection Hl as <- <- <-; exists []; rewrite app_nil_r;
       split; [reflexivity|]; split; [reflexivity|]; split; [exists 0%nat; reflexivity|];
       split; [discriminate|]; split; [auto | discriminate]]).
  - (* the SnapshotDone record *)
    cbn [map List.concat app] in Hskip.
    destruct (read_logrec_framed w fd _ lrec_snapshot_done [] Hdone Hio Hpos
                ltac:(rewrite app_nil_r; exact Hskip))
      as (w1 & rd & Hrd & T1 & Hreads & Hio1 & Dk1 & Hp1 & Hle1 & Hrest1).
    rewrite Hrd in Hl.
    destruct (apply_logrec e w1 last (frame_rec lrec_snapshot_done)) as [[e2 w2] ctl] eqn:Ea.
    destruct (apply_logrec_outcome _ _ _ _ _ _ _ Ea) as (evs & T2 & C2 & R2 & Hctl & Hd).
    destruct (apply_logrec_world _ _ _ _ _ _ _ Ea) as (Dk2 & Hp2 & _).
    destruct Hdone as (_ & Hkind & _).
    rewrite (Hd Hkind) in Hl, Hctl. injection Hl as <- <- <-.
    destruct (reads_silent rd Hreads) as (Rr & Cr & Lr).
    destruct Hctl as [(_ & _ & Hs) | (H0 & _)]; [|discriminate].
    exists (rd ++ [EvRecord (frame_rec lrec_snapshot_done)] ++ evs).
    split; [rewrite T2, T1, <- !app_assoc; reflexivity|].
    split; [rewrite !existsb_app, Cr, C2; reflexivity|].
    assert (Hrec : records_read (rd ++ [EvRecord (frame_rec lrec_snapshot_done)] ++ evs)
                   = [frame_rec lrec_snapshot_done]).
    { rewrite !records_read_app, Rr, R2. reflexivity. }
    split; [exists 1%nat; rewrite Hrec; reflexivity|].
    split; [discriminate|].
    split; [intros _; left; rewrite !logged_app, Hs, !orb_true_r; reflexivity|].
    intros _. split; [reflexivity|]. split; [exact Hrec|].
    rewrite Hp2, Dk2.
    assert (Hlen : List.length (skipn (Z.to_nat (w_pos w1)) (w_disk w1)) = 0%nat)
      by (rewrite Hrest1; reflexivity).
    rewrite length_skipn in Hlen. unfold blen in *. lia.
  - inversion Hfs as [|? ? [Hf Hnd] Hfs']; subst.
    cbn [map List.concat] in Hskip. rewrite <- app_assoc in Hskip.
    destruct (read_logrec_framed w fd _ (snd f) _ Hf Hio Hpos Hskip)
      as (w1 & rd & Hrd & T1 & Hreads & Hio1 & Dk1 & Hp1 & Hle1 & Hrest1).
    rewrite Hrd in Hl.
    destruct (apply_logrec e w1 last (frame_rec (snd f))) as [[e2 w2] ctl] eqn:Ea.
    destruct (apply_logrec_outcome _ _ _ _ _ _ _ Ea) as (evs & T2 & C2 & R2 & Hctl & _).
    destruct (apply_logrec_world _ _ _ _ _ _ _ Ea) as (Dk2 & Hp2 & Hio2).
    destruct (reads_silent rd Hreads) as (Rr & Cr & Lr).
    assert (Hkind : logtype (header (frame_rec (snd f))) = fst f) by (apply Hf).
    assert (Hhead : forall tail,
              records_read ((rd ++ [EvRecord (frame_rec (snd f))] ++ evs) ++ tail)
              = frame_rec (snd f) :: records_read tail).
    { intros tail. rewrite !records_read_app, Rr, R2. reflexivity. }
    destruct ctl as [last' | ret |].
    + (* the loop goes on *)
      assert (Hpos2 : 0 <= w_pos w2) by (rewrite Hp2, Hp1; pose proof (blen_nonneg (snd f)); lia).
      assert (Hskip2 : skipn (Z.to_nat (w_pos w2)) (w_disk w2)
                       = List.concat (map snd fs) ++ lrec_snapshot_done)
        by (rewrite Hp2, Dk2; exact Hrest1).
      destruct (IH fuel e2 w2 fd last' e' w' res Hfs' Hdone ltac:(congruence) Hpos2 Hskip2 Hl)
        as (evs' & T3 & C3 & (n & R3) & Hm1 & H0 & Hsucc).
      exists ((rd ++ [EvRecord (frame_rec (snd f))] ++ evs) ++ evs').
      split; [rewrite T3, T2, T1, <- !app_assoc; reflexivity|].
      split; [rewrite !existsb_app, Cr, C2, C3; reflexivity|].
      split; [exists (S n); rewrite Hhead, R3; reflexivity|].
      split; [intros Hr; rewrite logged_app, (Hm1 Hr), orb_true_r; reflexivity|].
      split.
      * intros Hr. destruct (H0 Hr) as [Hs | Hi]; [left | right; exact Hi].
        rewrite logged_app, Hs, orb_true_r. reflexivity.
      * intros Hs. rewrite !logged_app, Lr, Hctl in Hs. cbn in Hs.
        destruct (Hsucc Hs) as (Hr & Hall & Hend).
        split; [exact Hr|]. split; [|exact Hend]. rewrite Hhead, Hall. reflexivity.
    + (* the loop ends on this record: memory ran out *)
      injection Hl as <- <- <-.
      destruct Hctl as [(_ & Hk & _) | (-> & Hoom & Hns)]; [congruence|].
      exists (rd ++ [EvRecord (frame_rec (snd f))] ++ evs).
      split; [rewrite T2, T1, <- !app_assoc; reflexivity|].
      split; [rewrite !existsb_app, Cr, C2; reflexivity|].
      split.
      { exists 1%nat. rewrite <- (app_nil_r (rd ++ _)), Hhead. reflexivity. }
      split; [intros _; rewrite !logged_app, Hoom, !orb_true_r; reflexivity|].
      split; [discriminate|].
      intros Hs. rewrite !logged_app, Lr, Hns in Hs. discriminate.
    + (* the assertion on the retained item *)
      injection Hl as <- <- <-. subst evs.
      exists (rd ++ [EvRecord (frame_rec (snd f))]).
      split; [rewrite T2, T1, app_nil_r; reflexivity|].
      split; [rewrite !existsb_app, Cr; reflexivity|].
      split.
      { exists 1%nat. rewrite records_read_app, Rr. reflexivity. }
      split; [discriminate|]. split; [discriminate|].
      intros Hs. rewrite !logged_app, Lr in Hs. discriminate.
Qed.

End ReplayWritten.

Section WriterToReplay.
Context {D : ExtDecls} {E : Engine}.

Lemma data_frames_concat (erst_array : option (list elems_result_t))
      (items : list hash_item) :
  forall i, List.concat (map snd (data_frames items erst_array i))
            = data_records items erst_array i.
Proof.
  induction items as [|it rest IH]; intros i; simpl; [reflexivity|].
  rewrite map_app, concat_app, IH. unfold elem_records.
  rewrite map_map. cbn [snd]. reflexivity.
Qed.

Lemma data_frames_kinds (erst_array : option (list elems_result_t))
      (items : list hash_item) :
  forall i, Forall (fun f => fst f = LOG_IT_LINK \/ fst f = LOG_SNAPSHOT_ELEM)
                   (data_frames items erst_array i).
Proof.
  induction items as [|it rest IH]; intros i; simpl; [constructor|].
  constructor; [left; reflexivity|]. apply Forall_app. split; [|apply IH].
  apply Forall_forall. intros f Hin. apply in_map_iff in Hin.
  destruct Hin as (x & <- & _). right. reflexivity.
Qed.

Lemma data_run_frames_concat (use_erst : bool) (scan : list scan_result) :
  List.concat (map snd (data_run_frames use_erst scan)) ++ lrec_snapshot_done
  = data_run_output use_erst scan.
Proof.
  induction scan as [|r rest IH]; simpl; [reflexivity|].
  destruct (sr_count r <? 0); [reflexivity|].
  destruct (sr_count r >? 0); [|exact IH].
  rewrite map_app, concat_app, data_frames_concat, <- app_assoc, IH. reflexivity.
Qed.

Lemma data_run_frames_kinds (use_erst : bool) (scan : list scan_result) :
  Forall (fun f => fst f = LOG_IT_LINK \/ fst f = LOG_SNAPSHOT_ELEM)
         (data_run_frames use_erst scan).
Proof.
  induction scan as [|r rest IH]; simpl; [constructor|].
  destruct (sr_count r <? 0); [constructor|].
  destruct (sr_count r >? 0); [|exact IH].
  apply Forall_app. split; [apply data_frames_kinds | exact IH].
Qed.

(** X10.  What the writer finishes, the replayer reads back.  Let the
    file hold what a complete DATA or CHKPT snapshot writes, every record
    laid out as the replayer expects (a header that declares the record's
    kind and the length of what follows, the whole within
    MAX_LOG_RECORD_SIZE), and let the reads deliver what is there.  Then
    chkpt_snapshot_file_apply ends, and it never logs a short header, an
    oversized body or a short body; the records it gets to hold are, in
    order, the first records written, decoded as header and body; it
    returns -1 only after logging that memory ran out; it returns 0 only
    after logging success, unless it found the engine no longer
    initialized; and when it logs success it has returned 0 and has held
    every record written, the SnapshotDone record last. *)
Theorem snapshot_replays_without_corruption (use_erst : bool) (scan : list scan_result)
        (e : engine_st) (w : world) (filepath : string) :
  Forall (fun f => framed (fst f) (snd f)) (data_run_frames use_erst scan) ->
  framed LOG_SNAPSHOT_DONE lrec_snapshot_done ->
  w_disk w = data_run_output use_erst scan -> w_io w = [] -> 0 <= w_open w ->
  let written := map frame_rec (map snd (data_run_frames use_erst scan)
                                ++ [lrec_snapshot_done]) in
  exists e' w' res evs,
    chkpt_snapshot_file_apply e w filepath = Some (e', w', res)
    /\ w_trace w' = w_trace w ++ evs
    /\ existsb corrupt_line evs = false
    /\ (exists n, records_read evs = firstn n written)
    /\ (res = Returns (-1) -> logged replay_oom_msg evs = true)
    /\ (res = Returns 0 ->
        logged replay_success_msg evs = true \/ engine_initialized e' = false)
    /\ (logged replay_success_msg evs = true ->
        res = Returns 0 /\ records_read evs = written).
Proof.
  intros Hfr Hdone Hdisk Hio Hopen written.
  pose proof logtype_link_done as Hld. pose proof logtype_elem_done as Hed.
  assert (Hfs : Forall (fun f => framed (fst f) (snd f) /\ fst f <> LOG_SNAPSHOT_DONE)
                       (data_run_frames use_erst scan)).
  { pose proof (data_run_frames_kinds use_erst scan) as Hk.
    rewrite Forall_forall in *. intros f Hin. split; [apply Hfr; exact Hin|].
    destruct (Hk f Hin) as [-> | ->]; lia. }
  unfold chkpt_snapshot_file_apply, sys_open_rdonly. cbn [w_open logger_log emit].
  replace (w_open w <? 0) with false by lia.
  replace (w_open w <? 0) with false by lia.
  set (w1 := emit (set_pos (logger_log w EXTENSION_LOG_INFO
                      "[RECOVERY - SNAPSHOT] applying snapshot file.") 0)
                  (EvOpen filepath (w_open w))).
  assert (Hskip : skipn (Z.to_nat (w_pos w1)) (w_disk w1)
                  = List.concat (map snd (data_run_frames use_erst scan))
                    ++ lrec_snapshot_done).
  { cbn. rewrite Hdisk. symmetry. apply data_run_frames_concat. }
  destruct (apply_loop_total (S (List.length (w_disk w1))) e w1 (w_open w) None
              ltac:(cbn; unfold blen; lia)) as [[[e' w'] res] Hl].
  rewrite Hl.
  assert (Hpos1 : 0 <= w_pos w1) by (cbn; lia).
  assert (Hio1 : w_io w1 = []) by exact Hio.
  destruct (apply_loop_frames _ _ _ w1 _ _ _ _ _ Hfs Hdone Hio1 Hpos1 Hskip Hl)
    as (evs & T & C & Hn & Hm1 & H0 & Hs).
  set (pre := [EvLog EXTENSION_LOG_INFO "[RECOVERY - SNAPSHOT] applying snapshot file.";
               EvOpen filepath (w_open w)]).
  assert (Tall : w_trace w' = w_trace w ++ pre ++ evs).
  { rewrite T. unfold w1. cbn. rewrite <- !app_assoc. reflexivity. }
  destruct res as [ret|].
  - exists e', (sys_close w' (w_open w)), (Returns ret), (pre ++ evs ++ [EvClose (w_open w)]).
    split; [reflexivity|].
    split; [cbn [w_trace sys_close emit]; rewrite Tall, <- !app_assoc; reflexivity|].
    split; [rewrite !existsb_app, C; reflexivity|].
    assert (Hrec : records_read (pre ++ evs ++ [EvClose (w_open w)]) = records_read evs).
    { rewrite !records_read_app. cbn. rewrite app_nil_r. reflexivity. }
    assert (Hlog : forall msg, logged msg (pre ++ evs ++ [EvClose (w_open w)])
                               = logged msg pre || logged msg evs).
    { intros msg. rewrite !logged_app.
      change (logged msg [EvClose (w_open w)]) with false.
      rewrite orb_false_r. reflexivity. }
    rewrite Hrec. split; [exact Hn|].
    split; [intros Hr; rewrite Hlog, (Hm1 Hr), orb_true_r; reflexivity|].
    split.
    + intros Hr. destruct (H0 Hr) as [Hsu | Hi]; [left | right; exact Hi].
      rewrite Hlog, Hsu, orb_true_r. reflexivity.
    + intros Hsu. rewrite Hlog in Hsu. cbn in Hsu.
      destruct (Hs Hsu) as (Hr & Hall & _). auto.
  - exists e', w', AssertFails, (pre ++ evs).
    split; [reflexivity|]. split; [exact Tall|].
    split; [rewrite !existsb_app, C; reflexivity|].
    assert (Hrec : records_read (pre ++ evs) = records_read evs)
      by (rewrite records_read_app; reflexivity).
    rewrite Hrec. split; [exact Hn|]. split; [discriminate|]. split; [discriminate|].
    intros Hsu. rewrite logged_app in Hsu. cbn in Hsu. destruct (Hs Hsu) as (Hr & _).
    discriminate.
Qed.

End WriterToReplay.

(** ** When a replay reports success *)

Section ReplaySuccess.
Context {D : ExtDecls} {E : Engine}.

Lemma apply_logrec_done (e : engine_st) (w : world) (last : option hash_item)
      (rec : LogRec) :
  logtype (header rec) = LOG_SNAPSHOT_DONE ->
  exists e' w',
    apply_logrec e w last rec = (e', w', ApBreak 0)
    /\ w_trace w' = w_trace w ++ release_events last ++ [replay_success_line].
Proof.
  intros Hd. pose proof logtype_link_done as Hld. pose proof logtype_elem_done as Hed.
  unfold apply_logrec.
  replace (logtype (header rec) =? LOG_IT_LINK) with false by lia.
  replace (logtype (header rec) =? LOG_SNAPSHOT_ELEM) with false by lia.
  replace (logtype (header rec) =? LOG_SNAPSHOT_DONE) with true by lia.
  destruct last as [it|]; do 2 eexists; (split; [reflexivity|]); cbn;
    rewrite <- ?app_assoc; reflexivity.
Qed.

Lemma apply_loop_zero (fuel : nat) :
  forall e w fd last e' w',
  apply_loop fuel e w fd last = Some (e', w', Returns 0) ->
  engine_initialized e' = false
  \/ exists pre rec held,
       w_trace w' = w_trace w ++ pre ++ [EvRecord rec] ++ release_events held
                    ++ [replay_success_line]
       /\ logtype (header rec) = LOG_SNAPSHOT_DONE.
Proof.
  induction fuel as [|fuel IH]; intros e w fd last e' w' Hl; [discriminate|].
  simpl in Hl. destruct (engine_initialized e) eqn:Einit; cbn [negb] in Hl.
  2:{ injection Hl as <- <-. left. exact Einit. }
  destruct (read_logrec w fd) as [w1 [rec|]] eqn:Er; [|discriminate].
  destruct (read_logrec_spec _ _ _ _ Er) as (_ & (rd & T1 & _) & _).
  destruct (apply_logrec e w1 last rec) as [[e2 w2] ctl] eqn:Ea.
  destruct (apply_logrec_outcome _ _ _ _ _ _ _ Ea) as (evs & T2 & _ & _ & Hctl & _).
  destruct ctl as [last' | ret |]; [| |discriminate].
  - destruct (IH _ _ _ _ _ _ Hl) as [Hi | (pre & rec' & held & T3 & Hk)]; [left; exact Hi|].
    right. exists (rd ++ [EvRecord rec] ++ evs ++ pre), rec', held.
    split; [|exact Hk]. rewrite T3, T2, T1, <- !app_assoc. reflexivity.
  - injection Hl as <- <- ->.
    destruct Hctl as [(_ & Hk & _) | (H0 & _)]; [|discriminate].
    destruct (apply_logrec_done e w1 last rec Hk) as (e3 & w3 & Heq & T3).
    rewrite Heq in Ea. injection Ea as <- <-.
    right. exists rd, rec, last. split; [|exact Hk].
    rewrite T3, T1, <- !app_assoc. reflexivity.
Qed.

(** X11.  chkpt_snapshot_file_apply returns 0 in two cases only.  Either
    the last record it read was a SnapshotDone record, after which it
    released the item it still held, logged the success line and closed
    the descriptor, reading nothing further; or it found the engine not
    initialized at the top of a round and left the loop with ret still 0.
    In particular, called while the engine is not initialized it returns 0
    without a single read: it logs, opens and closes. *)
Theorem replay_returns_zero_only_at_done (e : engine_st) (w : world) (filepath : string) :
  (forall e' w',
     chkpt_snapshot_file_apply e w filepath = Some (e', w', Returns 0) ->
     engine_initialized e' = false
     \/ exists pre rec held,
          w_trace w'
          = w_trace w ++ pre ++ [EvRecord rec] ++ release_events held
            ++ [replay_success_line; EvClose (w_open w)]
          /\ logtype (header rec) = LOG_SNAPSHOT_DONE)
  /\ (engine_initialized e = false -> 0 <= w_open w ->
      exists w',
        chkpt_snapshot_file_apply e w filepath = Some (e, w', Returns 0)
        /\ w_trace w'
           = w_trace w ++ [replay_start_line; EvOpen filepath (w_open w);
                           EvClose (w_open w)]).
Proof.
  split.
  - intros e' w' Hf. unfold chkpt_snapshot_file_apply, sys_open_rdonly in Hf.
    cbn [w_open logger_log emit] in Hf.
    destruct (w_open w <? 0) eqn:Eo; rewrite ?Eo in Hf; [discriminate|].
    match type of Hf with
    | context [apply_loop ?f ?x ?y ?z ?l] =>
        destruct (apply_loop f x y z l) as [[[e1 w2] [ret|]]|] eqn:El; try discriminate
    end.
    injection Hf as <- <- ->.
    destruct (apply_loop_zero _ _ _ _ _ _ _ El) as [Hi | (pre & rec & held & T & Hk)];
      [left; exact Hi|].
    right. exists ([replay_start_line; EvOpen filepath (w_open w)] ++ pre), rec, held.
    split; [|exact Hk]. cbn [w_trace sys_close emit]. rewrite T. cbn.
    rewrite <- !app_assoc. cbn. rewrite <- !app_assoc. reflexivity.
  - intros Hi Hopen. unfold chkpt_snapshot_file_apply, sys_open_rdonly.
    cbn [w_open logger_log emit].
    replace (w_open w <? 0) with false by lia.
    replace (w_open w <? 0) with false by lia.
    cbn [apply_loop]. rewrite Hi. cbn [negb].
    eexists. split; [reflexivity|]. cbn. rewrite <- !app_assoc. reflexivity.
Qed.

End ReplaySuccess.

(** ** Statistics *)






Section StatsAfterRun.
Context {D : ExtDecls}.



End StatsAfterRun.

(** ** Shutdown *)

Lemma stop_loop_keeps_polling (others : list (snapshot_st -> snapshot_st)) :
  forall ss w,
  (forall k, (k <= List.length others)%nat ->
             running (after_windows ss (firstn k others)) = true) ->
  stop_loop ss w true others = None.
Proof.
  induction others as [|act rest IH]; intros ss w Hbusy.
  - pose proof (Hbusy 0%nat ltac:(simpl; lia)) as H0. simpl in H0.
    simpl. rewrite H0. reflexivity.
  - pose proof (Hbusy 0%nat ltac:(simpl; lia)) as H0. simpl in H0.
    simpl. rewrite H0.
    apply IH. intros k Hk. apply (Hbusy (S k)). simpl. lia.
Qed.

(** What chkpt_snapshot_final does to an initialized module once the stop
    it calls has returned. *)
Lemma final_unfold (ss : snapshot_st) (live : bool) (w : world)
      (others : list (snapshot_st -> snapshot_st)) (ss1 : snapshot_st) (w1 : world) :
  initialized ss = true ->
  chkpt_snapshot_stop ss w others = Some (ss1, w1) ->
  chkpt_snapshot_final ss live w others
  = Some (with_initialized (if fd (file ss1) =? -1 then ss1 else with_fd ss1 (-1)) false,
          false,
          emit (if fd (file ss1) =? -1 then w1 else sys_close w1 (fd (file ss1)))
               destroyed_line).
Proof.
  intros Hi Hs. unfold chkpt_snapshot_final. rewrite Hi, Hs. cbn [negb].
  destruct (fd (file ss1) =? -1); destruct live; reflexivity.
Qed.

(** X15.  chkpt_snapshot_final.  On a module that is not initialized it
    does nothing at all.  Otherwise, once the stop it calls has returned,
    it closes the descriptor the anchor still holds, if any, exactly once
    and sets file.fd to -1, frees the buffer, clears [initialized] and
    logs, as its last act, that the module is destroyed.  A second call
    therefore finds nothing to do: it returns at once and leaves anchor,
    buffer and world as they are, so nothing is closed or freed twice. *)
Theorem final_shuts_down_once (ss : snapshot_st) (live : bool) (w : world)
        (others : list (snapshot_st -> snapshot_st)) :
  forall ss' live' w',
  chkpt_snapshot_final ss live w others = Some (ss', live', w') ->
  initialized ss' = false
  /\ (initialized ss = false -> ss' = ss /\ live' = live /\ w' = w)
  /\ (initialized ss = true ->
      live' = false /\ fd (file ss') = -1
      /\ exists ss1 w1,
           chkpt_snapshot_stop ss w others = Some (ss1, w1)
           /\ w_trace w' = w_trace w1 ++ final_close (fd (file ss1)) ++ [destroyed_line]
           /\ running ss' = running ss1 /\ success ss' = success ss1
           /\ snapped ss' = snapped ss1)
  /\ (forall w2 others2, chkpt_snapshot_final ss' live' w2 others2 = Some (ss', live', w2)).
Proof.
  intros ss' live' w' Hf.
  destruct (initialized ss) eqn:Hi.
  - destruct (chkpt_snapshot_stop ss w others) as [[ss1 w1]|] eqn:Hs.
    2:{ unfold chkpt_snapshot_final in Hf. rewrite Hi, Hs in Hf. discriminate. }
    rewrite (final_unfold ss live w others ss1 w1 Hi Hs) in Hf.
    injection Hf as <- <- <-.
    split; [reflexivity|]. split; [discriminate|]. split.
    + intros _. split; [reflexivity|]. split.
      { destruct (fd (file ss1) =? -1) eqn:Ed; cbn; [lia | reflexivity]. }
      exists ss1, w1. split; [reflexivity|]. unfold final_close.
      destruct (fd (file ss1) =? -1); cbn; rewrite <- ?app_assoc; repeat split; reflexivity.
    + intros w2 others2. unfold chkpt_snapshot_final. reflexivity.
  - unfold chkpt_snapshot_final in Hf. rewrite Hi in Hf. cbn [negb] in Hf.
    injection Hf as <- <- <-.
    split; [exact Hi|]. split; [auto|]. split; [discriminate|].
    intros w2 others2. unfold chkpt_snapshot_final. rewrite Hi. reflexivity.
Qed.

(** X16.  chkpt_snapshot_final and a run in progress.  Called while a KEY
    or DATA snapshot is running, it does not get to free the buffer before
    the worker is through: it returns only after the worker has cleared
    [running] in one of the windows in which the lock was released, and
    keeps polling as long as that has not happened.  Called while a CHKPT
    snapshot is running it does not wait: the stop it calls returns at
    once, and it closes the descriptor the run is writing to and frees the
    buffer with [running] still set. *)
Theorem final_and_a_running_snapshot (ss : snapshot_st) (live : bool) (w : world)
        (others : list (snapshot_st -> snapshot_st)) :
  initialized ss = true -> running ss = true ->
  (mode ss <> CHKPT_SNAPSHOT_MODE_CHKPT ->
   (forall ss' live' w',
      chkpt_snapshot_final ss live w others = Some (ss', live', w') ->
      running ss' = false
      /\ exists k, (0 < k <= List.length others)%nat
           /\ running (after_windows ss (firstn k others)) = false)
   /\ ((forall k, (k <= List.length others)%nat ->
                  running (after_windows ss (firstn k others)) = true) ->
       chkpt_snapshot_final ss live w others = None))
  /\ (mode ss = CHKPT_SNAPSHOT_MODE_CHKPT ->
      exists ss' w',
        chkpt_snapshot_final ss live w others = Some (ss', false, w')
        /\ running ss' = true /\ fd (file ss') = -1
        /\ w_trace w'
           = w_trace w ++ [EvLock; EvUnlock] ++ final_close (fd (file ss))
             ++ [destroyed_line]).
Proof.
  intros Hi Hrun. split.
  - intros Hmode.
    assert (Hstop : chkpt_snapshot_stop ss w others
                    = match stop_loop ss (emit w EvLock) true others with
                      | Some (ss1, w1) =>
                          Some (ss1, emit (logger_log w1 EXTENSION_LOG_INFO
                                                      "Snapshot thread stopped.") EvUnlock)
                      | None => None
                      end).
    { unfold chkpt_snapshot_stop, do_snapshot_stop. rewrite Hrun.
      replace (mode ss =? CHKPT_SNAPSHOT_MODE_CHKPT) with false by lia. cbn [negb orb].
      destruct (stop_loop ss (emit w EvLock) true others) as [[ss1 w1]|]; reflexivity. }
    split.
    + intros ss' live' w' Hf.
      destruct (stop_loop ss (emit w EvLock) true others) as [[ss1 w1]|] eqn:Hl.
      2:{ unfold chkpt_snapshot_final in Hf. rewrite Hi, Hstop in Hf. discriminate. }
      rewrite (final_unfold ss live w others _ _ Hi Hstop) in Hf.
      injection Hf as <- <- <-.
      destruct (stop_loop_wait_result _ _ _ _ _ Hl) as (Hidle & k & Hk & Hpos & Hss & _).
      split.
      * destruct (fd (file ss1) =? -1); cbn; exact Hidle.
      * exists k. split; [split; [apply Hpos; exact Hrun | exact Hk]|].
        rewrite <- Hss. exact Hidle.
    + intros Hbusy. unfold chkpt_snapshot_final. rewrite Hi, Hstop.
      rewrite (stop_loop_keeps_polling others ss (emit w EvLock) Hbusy). reflexivity.
  - intros Hmode.
    assert (Hstop : chkpt_snapshot_stop ss w others
                    = Some (ss, emit (emit w EvLock) EvUnlock)).
    { unfold chkpt_snapshot_stop, do_snapshot_stop. rewrite Hrun, Hmode. reflexivity. }
    rewrite (final_unfold ss live w others _ _ Hi Hstop).
    do 2 eexists. split; [reflexivity|]. unfold final_close.
    destruct (fd (file ss) =? -1) eqn:Ed; cbn; rewrite <- ?app_assoc;
      (split; [exact Hrun|]); (split; [lia || reflexivity | reflexivity]).
Qed.

(** ** Where the encoders store *)

Lemma stores_within_refl (ss : snapshot_st) : stores_within ss ss.
Proof. intros i _. reflexivity. Qed.

Lemma stores_within_trans (s1 s2 s3 : snapshot_st) :
  maxlen (buffer s2) = maxlen (buffer s1) ->
  stores_within s1 s2 -> stores_within s2 s3 -> stores_within s1 s3.
Proof.
  intros Hm H12 H23 i Hi. rewrite (H23 i) by (rewrite Hm; exact Hi). apply H12. exact Hi.
Qed.

Lemma stores_within_same_memory (ss ss' : snapshot_st) :
  memory (buffer ss') = memory (buffer ss) -> stores_within ss ss'.
Proof. intros H i _. rewrite H. reflexivity. Qed.

(** The space check followed by a put of at most the bytes asked for. *)
Lemma check_put_within (ss : snapshot_st) (w : world) (n : Z) (b : bytes) (k : Z) :
  buf_ok ss -> 0 <= n <= maxlen (buffer ss) -> blen b <= n ->
  forall ss1 w1, do_snapshot_buffer_check_space ss w n = (ss1, w1, 0) ->
  stores_within ss (buffer_put ss1 b k).
Proof.
  intros Hok Hn Hb ss1 w1 Hcs.
  destruct (check_space_post ss w n Hok Hn _ _ _ Hcs) as ((_ & [_ Hm] & [Hc _] & _) & Hsp & _).
  destruct (check_space_frame _ _ _ _ _ _ Hcs) as (_ & _ & Hmem & _).
  specialize (Hsp eq_refl). intros i Hi.
  cbn [memory buffer buffer_put with_curlen with_memory with_buffer]. unfold mem_store.
  rewrite Hmem.
  destruct ((curlen (buffer ss1) <=? i) && (i <? curlen (buffer ss1) + blen b)) eqn:E;
    [|reflexivity].
  apply andb_true_iff in E. lia.
Qed.

Section StoresWithin.
Context {D : ExtDecls}.

Lemma key_exptime_field_size (it : hash_item) (curtime : Z) :
  blen (fst (key_exptime_field it curtime)) <= 13.
Proof.
  unfold key_exptime_field.
  destruct (exptime it =? 0); [cbn; lia|].
  destruct (ENABLE_STICKY_ITEM && (exptime it =? u32 (-1))); [cbn; lia|].
  cbn [fst]. rewrite !blen_app.
  set (d := if exptime it >? curtime then u32 (exptime it - curtime) else 1).
  assert (Hd : 0 <= d < 2 ^ 32).
  { unfold d. destruct (exptime it >? curtime); [apply u32_range | lia]. }
  pose proof (fmt_u_length_u32 d Hd) as Hl.
  change (blen (bytes_of " ")) with 1. change (blen [NL]) with 1. change (blen [x00]) with 1.
  lia.
Qed.

Lemma key_dump_item_within (ss : snapshot_st) (w : world) (curtime : Z) (it : hash_item) :
  buf_ok ss -> 24 + nkey it <= maxlen (buffer ss) ->
  forall ss' w' r, key_dump_item ss w curtime it = (ss', w', r) -> stores_within ss ss'.
Proof.
  intros Hok Hfit ss' w' r Hk. unfold key_dump_item in Hk.
  pose proof (blen_nonneg (item_key it)) as Hnk. fold (nkey it) in Hnk.
  destruct (do_snapshot_buffer_check_space ss w (24 + nkey it)) as [[ss1 w1] r1] eqn:Ecs.
  destruct (check_space_frame _ _ _ _ _ _ Ecs) as (_ & _ & Hmem & _ & Hr).
  destruct Hr as [-> | ->].
  - pose proof (key_exptime_field_size it curtime) as Hf.
    destruct (key_exptime_field it curtime) as [fld len]. cbn [fst] in Hf.
    cbn [Z.ltb Z.compare] in Hk. cbn iota in Hk. injection Hk as <- <- <-.
    set (tchar := firstn 1 (bytes_of (nth (Z.to_nat (GET_ITEM_TYPE it)) item_type_string
                                          ""%string))).
    assert (Ht : blen tchar <= 1).
    { unfold tchar, blen. rewrite length_firstn. lia. }
    assert (Hline : blen (tchar ++ bytes_of " " ++ item_key it ++ fld) <= 24 + nkey it).
    { rewrite !blen_app. fold (nkey it). change (blen (bytes_of " ")) with 1. lia. }
    assert (Hn : 0 <= 24 + nkey it <= maxlen (buffer ss)) by lia.
    intros i Hi. cbn [memory buffer with_snapped].
    apply (check_put_within ss w (24 + nkey it) _ (len + nkey it + 2) Hok Hn Hline
             _ _ Ecs i Hi).
  - cbn in Hk. injection Hk as <- <- <-. apply stores_within_same_memory. exact Hmem.
Qed.

Lemma key_dump_loop_within (curtime : Z) (items : list hash_item) :
  forall ss w ss' w' r,
  buf_ok ss -> key_fits (maxlen (buffer ss)) items ->
  key_dump_loop ss w curtime items = (ss', w', r) -> stores_within ss ss'.
Proof.
  induction items as [|it rest IH]; intros ss w ss' w' r Hok Hfit Hk; simpl in Hk.
  - injection Hk as <- <- <-. apply stores_within_refl.
  - inversion Hfit as [|? ? [Hf Ht] Hfr]; subst.
    destruct (key_dump_item ss w curtime it) as [[ss1 w1] r1] eqn:Ei.
    pose proof (key_dump_item_within ss w curtime it Hok Hf _ _ _ Ei) as W1.
    pose proof (key_dump_item_post ss w curtime it Hok Hf Ht _ _ _ Ei) as P.
    destruct (enc_post_result _ _ _ _ _ _ P) as [-> | ->].
    + cbn [Z.ltb Z.compare] in Hk. cbn iota in Hk.
      apply (stores_within_trans _ ss1); [apply (enc_post_maxlen _ _ _ _ _ _ P) | exact W1|].
      apply (IH _ _ _ _ _ (enc_post_buf_ok _ _ _ _ _ _ P)) in Hk; [exact Hk|].
      rewrite (enc_post_maxlen _ _ _ _ _ _ P). exact Hfr.
    + cbn in Hk. injection Hk as <- <- <-. exact W1.
Qed.

Lemma record_within (ss : snapshot_st) (w : world) (rec : bytes) :
  buf_ok ss -> blen rec <= maxlen (buffer ss) ->
  forall ss1 w1 r, do_snapshot_buffer_check_space ss w (blen rec) = (ss1, w1, r) ->
  (r = -1 /\ stores_within ss ss1)
  \/ (r = 0 /\ stores_within ss (buffer_put ss1 rec (blen rec))).
Proof.
  intros Hok Hfit ss1 w1 r Hcs. pose proof (blen_nonneg rec) as Hb.
  destruct (check_space_frame _ _ _ _ _ _ Hcs) as (_ & _ & Hmem & _ & Hr).
  destruct Hr as [-> | ->].
  - right. split; [reflexivity|].
    assert (Hn : 0 <= blen rec <= maxlen (buffer ss)) by lia.
    apply (check_put_within ss w (blen rec) rec _ Hok Hn (Z.le_refl _) _ _ Hcs).
  - left. split; [reflexivity|]. apply stores_within_same_memory. exact Hmem.
Qed.

Lemma data_dump_elems_within (it : hash_item) (elems : list elem) :
  forall ss w ss' w' r,
  buf_ok ss ->
  Forall (fun e => blen (lrec_snapshot_elem it e) <= maxlen (buffer ss)) elems ->
  data_dump_elems ss w it elems = (ss', w', r) -> stores_within ss ss'.
Proof.
  induction elems as [|e rest IH]; intros ss w ss' w' r Hok Hfit Hd; simpl in Hd.
  - injection Hd as <- <- <-. apply stores_within_refl.
  - inversion Hfit as [|? ? Hfe Hfr]; subst.
    destruct (do_snapshot_buffer_check_space ss w (blen (lrec_snapshot_elem it e)))
      as [[ss1 w1] r1] eqn:Ecs.
    destruct (record_within ss w _ Hok Hfe _ _ _ Ecs) as [[Hr W1] | [Hr W1]];
      destruct (record_post ss w _ Hok Hfe _ _ _ Ecs) as [[Hr' P] | [Hr' P]];
      subst r1; try discriminate.
    + cbn in Hd. injection Hd as <- <- <-. exact W1.
    + cbn in Hd.
      apply (stores_within_trans _ _ _ (enc_post_maxlen _ _ _ _ _ _ P) W1).
      apply (IH _ _ _ _ _ (enc_post_buf_ok _ _ _ _ _ _ P)) in Hd; [exact Hd|].
      rewrite (enc_post_maxlen _ _ _ _ _ _ P). exact Hfr.
Qed.

Lemma data_dump_loop_within (erst_array : option (list elems_result_t))
      (items : list hash_item) :
  forall ss w i ss' w' r,
  buf_ok ss -> data_fits (maxlen (buffer ss)) items erst_array i ->
  data_dump_loop ss w items erst_array i = (ss', w', r) -> stores_within ss ss'.
Proof.
  induction items as [|it rest IH]; intros ss w i ss' w' r Hok Hfit Hd; simpl in Hd.
  - injection Hd as <- <- <-. apply stores_within_refl.
  - destruct Hfit as (Hfl & Hfe & Hfr).
    destruct (do_snapshot_buffer_check_space ss w (blen (lrec_link_item it)))
      as [[ss1 w1] r1] eqn:Ecs.
    destruct (record_within ss w _ Hok Hfl _ _ _ Ecs) as [[Hr W1] | [Hr W1]];
      destruct (record_post ss w _ Hok Hfl _ _ _ Ecs) as [[Hr' P] | [Hr' P]];
      subst r1; try discriminate.
    { cbn in Hd. injection Hd as <- <- <-. exact W1. }
    cbn [Z.ltb Z.compare] in Hd. cbn iota in Hd.
    set (ss2 := buffer_put ss1 (lrec_link_item it) (blen (lrec_link_item it))) in *.
    pose proof (enc_post_buf_ok _ _ _ _ _ _ P) as B2.
    pose proof (enc_post_maxlen _ _ _ _ _ _ P) as M2.
    assert (Hinner : exists ss3 w3 ret,
               match erst_array with
               | Some arr =>
                   if IS_COLL_ITEM it
                   then data_dump_elems ss2 w1 it
                          (elem_array (nth i arr {| elem_array := [] |}))
                   else (ss2, w1, 0)
               | None => (ss2, w1, 0)
               end = (ss3, w3, ret)
               /\ stores_within ss2 ss3 /\ buf_ok ss3
               /\ maxlen (buffer ss3) = maxlen (buffer ss2) /\ (ret = 0 \/ ret = -1)).
    { unfold elems_at in Hfe.
      destruct erst_array as [arr|]; [destruct (IS_COLL_ITEM it)|].
      - destruct (data_dump_elems ss2 w1 it (elem_array (nth i arr {| elem_array := [] |})))
          as [[ss3 w3] ret] eqn:Ee.
        rewrite <- M2 in Hfe.
        pose proof (data_dump_elems_within _ _ _ _ _ _ _ B2 Hfe Ee) as W3.
        pose proof (data_dump_elems_post _ _ _ _ _ _ _ B2 Hfe Ee) as P3.
        exists ss3, w3, ret. split; [reflexivity|]. split; [exact W3|].
        split; [apply (enc_post_buf_ok _ _ _ _ _ _ P3)|].
        split; [apply (enc_post_maxlen _ _ _ _ _ _ P3) | apply (enc_post_result _ _ _ _ _ _ P3)].
      - exists ss2, w1, 0. split; [reflexivity|]. split; [apply stores_within_refl|]. auto.
      - exists ss2, w1, 0. split; [reflexivity|]. split; [apply stores_within_refl|]. auto. }
    destruct Hinner as (ss3 & w3 & ret & Heq & W3 & B3 & M3 & Hr3).
    rewrite Heq in Hd.
    assert (W13 : stores_within ss ss3) by (apply (stores_within_trans _ _ _ M2 W1 W3)).
    destruct Hr3 as [-> | ->].
    2:{ cbn in Hd. injection Hd as <- <- <-. exact W13. }
    cbn [Z.eqb] in Hd. cbn iota in Hd.
    apply (stores_within_trans _ ss3); [congruence | exact W13|].
    apply (stores_within_trans _ (with_snapped ss3 (u64 (snapped ss3 + 1))));
      [reflexivity | apply stores_within_same_memory; reflexivity|].
    apply (IH _ _ _ _ _ _) in Hd; [exact Hd | exact B3|].
    cbn [buffer with_snapped]. rewrite M3, M2. exact Hfr.
Qed.

Lemma key_done_within (ss : snapshot_st) (w : world) :
  buf_ok ss -> 256 <= maxlen (buffer ss) ->
  forall ss' w' r, do_snapshot_key_done ss w = (ss', w', r) -> stores_within ss ss'.
Proof.
  intros Hok Hcap ss' w' r Hk. unfold do_snapshot_key_done in Hk.
  destruct (do_snapshot_buffer_check_space ss w 256) as [[ss1 w1] r1] eqn:Ecs.
  destruct (check_space_frame _ _ _ _ _ _ Ecs) as (_ & _ & Hmem & _ & Hr).
  destruct Hr as [-> | ->].
  - cbn [Z.ltb Z.compare] in Hk. cbn iota in Hk.
    match type of Hk with
    | context [do_snapshot_buffer_flush (buffer_put ss1 ?b ?n) ?x] =>
        destruct (do_snapshot_buffer_flush (buffer_put ss1 b n) x) as [[ss3 w3] r3] eqn:Efl;
        assert (W : stores_within ss (buffer_put ss1 b n))
    end.
    { assert (Hn : 0 <= 256 <= maxlen (buffer ss)) by lia.
      refine (check_put_within ss w 256 _ _ Hok Hn _ ss1 w1 Ecs).
      rewrite blen_app. change (blen [x00]) with 1.
      unfold blen at 1. rewrite length_firstn. lia. }
    destruct (flush_frame _ _ _ _ _ Efl) as (_ & _ & Hmem3 & _ & Hr3).
    assert (W3 : stores_within ss ss3).
    { intros i Hi. rewrite Hmem3. apply W. exact Hi. }
    destruct Hr3 as [-> | ->]; cbn in Hk; injection Hk as <- <- <-; exact W3.
  - cbn in Hk. injection Hk as <- <- <-. apply stores_within_same_memory. exact Hmem.
Qed.

Lemma data_done_within (ss : snapshot_st) (w : world) :
  buf_ok ss -> blen lrec_snapshot_done <= maxlen (buffer ss) ->
  forall ss' w' r, do_snapshot_data_done ss w = (ss', w', r) -> stores_within ss ss'.
Proof.
  intros Hok Hfit ss' w' r Hk. unfold do_snapshot_data_done in Hk.
  destruct (do_snapshot_buffer_check_space ss w (blen lrec_snapshot_done))
    as [[ss1 w1] r1] eqn:Ecs.
  destruct (record_within ss w _ Hok Hfit _ _ _ Ecs) as [[-> W1] | [-> W1]].
  - cbn in Hk. injection Hk as <- <- <-. exact W1.
  - cbn [Z.ltb Z.compare] in Hk. cbn iota in Hk.
    match type of Hk with
    | context [do_snapshot_buffer_flush ?s ?x] =>
        destruct (do_snapshot_buffer_flush s x) as [[ss3 w3] r3] eqn:Efl
    end.
    destruct (flush_frame _ _ _ _ _ Efl) as (_ & _ & Hmem3 & _ & Hr3).
    assert (W3 : stores_within ss ss3).
    { intros i Hi. rewrite Hmem3. apply W1. exact Hi. }
    destruct Hr3 as [-> | ->]; cbn in Hk; injection Hk as <- <- <-; exact W3.
Qed.

Lemma scan_body_within (ss : snapshot_st) (w : world) (use_erst : bool) (r : scan_result) :
  buf_ok ss -> done_fits ss -> batch_fits (mode ss) (maxlen (buffer ss)) use_erst r ->
  forall ss' w' ctl, scan_body ss w use_erst r = (ss', w', ctl) -> stores_within ss ss'.
Proof.
  intros Hok Hdone Hfit ss' w' ctl Hb. unfold scan_body in Hb.
  destruct (sr_reqstop r).
  { cbn in Hb. injection Hb as <- <- <-. apply stores_within_same_memory. reflexivity. }
  destruct (reqstop ss).
  { injection Hb as <- <- <-. apply stores_within_refl. }
  destruct (sr_count r =? -2).
  { injection Hb as <- <- <-. apply stores_within_refl. }
  destruct (sr_count r <? 0).
  { destruct (snapshot_func_done (mode ss) ss
                (emit (emit w (EvScanGetnext (sr_count r))) (EvDone (mode ss))))
      as [[ss1 w2] rd] eqn:Ed.
    assert (W : stores_within ss ss1).
    { unfold snapshot_func_done in Ed. unfold done_fits in Hdone.
      destruct (mode ss =? CHKPT_SNAPSHOT_MODE_KEY).
      - apply (key_done_within _ _ Hok (proj1 Hdone) _ _ _ Ed).
      - apply (data_done_within _ _ Hok Hdone _ _ _ Ed). }
    destruct (rd <? 0); injection Hb as <- <- <-; exact W. }
  destruct (sr_count r >? 0).
  { fold (erst_of use_erst r) in Hb.
    destruct (snapshot_func_dump (mode ss) ss
                (emit (emit w (EvScanGetnext (sr_count r))) (EvDump (mode ss) (sr_count r)))
                (sr_items r) (sr_count r) (erst_of use_erst r)) as [[ss1 w2] ret] eqn:Ed.
    assert (W : stores_within ss ss1).
    { unfold snapshot_func_dump in Ed. unfold batch_fits in Hfit.
      destruct (mode ss =? CHKPT_SNAPSHOT_MODE_KEY).
      - apply (key_dump_loop_within _ _ _ _ _ _ _ Hok Hfit Ed).
      - apply (data_dump_loop_within _ _ _ _ _ _ _ _ Hok Hfit Ed). }
    destruct (ret <? 0); injection Hb as <- <- <-; exact W. }
  injection Hb as <- <- <-. apply stores_within_refl.
Qed.

Lemma scan_loop_within (use_erst : bool) (scan : list scan_result) :
  forall ss w ss' w' d,
  buf_ok ss -> run_fits ss use_erst scan ->
  scan_loop ss w use_erst scan = (ss', w', d) -> stores_within ss ss'.
Proof.
  induction scan as [|r rest IH]; intros ss w ss' w' d Hok [Hdone Hfit] Hl; simpl in Hl.
  - destruct (scan_body ss w use_erst scan_exhausted) as [[ss1 w1] ctl] eqn:Eb.
    pose proof (scan_body_within ss w use_erst _ Hok Hdone (batch_fits_exhausted _ _ _)
                                 _ _ _ Eb) as W.
    destruct ctl; injection Hl as <- <- <-; exact W.
  - inversion Hfit as [|? ? Hf Hfr]; subst.
    destruct (scan_body ss w use_erst r) as [[ss1 w1] ctl] eqn:Eb.
    pose proof (scan_body_within ss w use_erst r Hok Hdone Hf _ _ _ Eb) as W.
    pose proof (scan_body_run ss w use_erst r Hok Hdone Hf _ _ _ Eb) as Hstep.
    destruct ctl as [|d1].
    + destruct Hstep as (_ & S & B & _).
      destruct (same_run_fields _ _ S) as (Hm & _ & _ & _ & _ & _ & Hx).
      apply (stores_within_trans _ ss1 _ Hx W).
      apply (IH _ _ _ _ _ B) in Hl; [exact Hl|].
      split; [apply (done_fits_same_run _ _ S Hdone)|]. rewrite Hm, Hx. exact Hfr.
    + injection Hl as <- <- <-. exact W.
Qed.

(** X17.  Everything the encoders store goes into the buffer.  In a run
    whose space requests are each at most the capacity (a key line asks
    for the key and 24 bytes more, a record for its size, the summary for
    256 bytes), no memcpy, sprintf or snprintf of the run, the
    terminating NUL bytes included, changes a byte outside the [maxlen]
    bytes of buffer.memory: the 24 bytes reserved besides the key cover
    the longest line, and snprintf cuts the summary at the 256 bytes that
    were checked for, however long the prefix is. *)
Theorem encoders_store_within_buffer (ss : snapshot_st) (w : world)
        (scan : list scan_result) :
  buf_ok ss -> run_fits ss (uses_erst (mode ss)) scan ->
  forall ss' w' d, do_snapshot_action ss w scan = (ss', w', d) ->
  maxlen (buffer ss') = maxlen (buffer ss)
  /\ forall i, i < 0 \/ maxlen (buffer ss) <= i ->
               memory (buffer ss') i = memory (buffer ss) i.
Proof.
  intros Hok Hfit ss' w' d Ha.
  destruct (do_snapshot_action_shape _ _ _ _ _ _ Ha) as ((_ & _ & _ & _ & _ & _ & _ & _ & _
                                                          & _ & _ & Hmax) & Hfail & _).
  split; [exact Hmax|].
  destruct (Z.ltb_spec (w_open w) 0) as [Hneg | Hpos].
  - destruct (Hfail Hneg) as (_ & -> & _). intros i _. reflexivity.
  - destruct (do_snapshot_action_factor ss w scan Hpos _ _ _ Ha)
      as (w3 & ss4 & w4 & El & _ & _ & _ & _ & _ & B4 & _).
    rewrite B4.
    apply (scan_loop_within _ _ (with_fd ss (w_open w)) _ _ _ _ Hok Hfit El).
Qed.

End StoresWithin.

(** ** A run in which nothing fails *)

Lemma sys_write_quiet (w : world) (fd : Z) (buf : bytes) :
  w_io w = [] ->
  sys_write w fd buf
  = (emit (set_disk w (w_disk w ++ buf)) (EvWrite fd buf (blen buf)), blen buf).
Proof. intros Hio. unfold sys_write. rewrite (next_io_quiet w Hio). reflexivity. Qed.

Lemma sys_fsync_quiet (w : world) (fd : Z) :
  w_io w = [] -> sys_fsync w fd = (emit w (EvFsync fd 0), 0).
Proof. intros Hio. unfold sys_fsync. rewrite (next_io_quiet w Hio). reflexivity. Qed.

Lemma check_space_quiet (ss : snapshot_st) (w : world) (n : Z) :
  0 <= curlen (buffer ss) < 2 ^ 32 - 1 -> w_io w = [] ->
  forall ss1 w1 r, do_snapshot_buffer_check_space ss w n = (ss1, w1, r) ->
  r = 0 /\ w_io w1 = [].
Proof.
  intros Hc Hio ss1 w1 r Hcs. unfold do_snapshot_buffer_check_space in Hcs.
  destruct (u32 (curlen (buffer ss) + n) >? maxlen (buffer ss)).
  - rewrite (sys_write_quiet w _ _ Hio) in Hcs.
    rewrite blen_mem_load in Hcs by lia. rewrite u32_small in Hcs by lia.
    rewrite Z.eqb_refl in Hcs. cbn [negb] in Hcs. injection Hcs as <- <- <-.
    split; [reflexivity | exact Hio].
  - injection Hcs as <- <- <-. split; [reflexivity | exact Hio].
Qed.

Lemma flush_quiet (ss : snapshot_st) (w : world) :
  0 <= curlen (buffer ss) < 2 ^ 32 - 1 -> w_io w = [] ->
  forall ss1 w1 r, do_snapshot_buffer_flush ss w = (ss1, w1, r) ->
  r = 0 /\ w_io w1 = [].
Proof.
  intros Hc Hio ss1 w1 r Hfl. unfold do_snapshot_buffer_flush in Hfl.
  destruct (curlen (buffer ss) >? 0).
  - rewrite (sys_write_quiet w _ _ Hio) in Hfl.
    rewrite blen_mem_load in Hfl by lia. rewrite u32_small in Hfl by lia.
    rewrite Z.eqb_refl in Hfl. cbn [negb] in Hfl.
    rewrite sys_fsync_quiet in Hfl by exact Hio.
    injection Hfl as <- <- <-. split; [reflexivity | exact Hio].
  - rewrite sys_fsync_quiet in Hfl by exact Hio.
    injection Hfl as <- <- <-. split; [reflexivity | exact Hio].
Qed.

Lemma buf_ok_curlen (ss : snapshot_st) : buf_ok ss -> 0 <= curlen (buffer ss) < 2 ^ 32 - 1.
Proof. intros [Hc Hm]. lia. Qed.

Section QuietRun.
Context {D : ExtDecls}.

Lemma key_dump_loop_quiet (curtime : Z) (items : list hash_item) :
  forall ss w ss' w' r,
  buf_ok ss -> key_fits (maxlen (buffer ss)) items -> w_io w = [] ->
  key_dump_loop ss w curtime items = (ss', w', r) -> r = 0 /\ w_io w' = [].
Proof.
  induction items as [|it rest IH]; intros ss w ss' w' r Hok Hfit Hio Hk; simpl in Hk.
  - injection Hk as <- <- <-. auto.
  - inversion Hfit as [|? ? [Hf Ht] Hfr]; subst.
    destruct (key_dump_item ss w curtime it) as [[ss1 w1] r1] eqn:Ei.
    pose proof (key_dump_item_post ss w curtime it Hok Hf Ht _ _ _ Ei) as P.
    assert (Hq : r1 = 0 /\ w_io w1 = []).
    { unfold key_dump_item in Ei.
      destruct (do_snapshot_buffer_check_space ss w (24 + nkey it)) as [[ssc wc] rc] eqn:Ecs.
      destruct (check_space_quiet ss w _ (buf_ok_curlen ss Hok) Hio _ _ _ Ecs) as [-> Hio1].
      destruct (key_exptime_field it curtime) as [fld len].
      cbn [Z.ltb Z.compare] in Ei. cbn iota in Ei. injection Ei as <- <- <-. auto. }
    destruct Hq as [-> Hio1]. cbn [Z.ltb Z.compare] in Hk. cbn iota in Hk.
    apply (IH _ _ _ _ _ (enc_post_buf_ok _ _ _ _ _ _ P)) in Hk; [exact Hk | | exact Hio1].
    rewrite (enc_post_maxlen _ _ _ _ _ _ P). exact Hfr.
Qed.

Lemma data_dump_elems_quiet (it : hash_item) (elems : list elem) :
  forall ss w ss' w' r,
  buf_ok ss ->
  Forall (fun e => blen (lrec_snapshot_elem it e) <= maxlen (buffer ss)) elems ->
  w_io w = [] ->
  data_dump_elems ss w it elems = (ss', w', r) -> r = 0 /\ w_io w' = [].
Proof.
  induction elems as [|e rest IH]; intros ss w ss' w' r Hok Hfit Hio Hd; simpl in Hd.
  - injection Hd as <- <- <-. auto.
  - inversion Hfit as [|? ? Hfe Hfr]; subst.
    destruct (do_snapshot_buffer_check_space ss w (blen (lrec_snapshot_elem it e)))
      as [[ss1 w1] r1] eqn:Ecs.
    destruct (check_space_quiet ss w _ (buf_ok_curlen ss Hok) Hio _ _ _ Ecs) as [-> Hio1].
    destruct (record_post ss w _ Hok Hfe _ _ _ Ecs) as [[Hr' P] | [_ P]]; [discriminate|].
    cbn in Hd.
    apply (IH _ _ _ _ _ (enc_post_buf_ok _ _ _ _ _ _ P)) in Hd; [exact Hd | | exact Hio1].
    rewrite (enc_post_maxlen _ _ _ _ _ _ P). exact Hfr.
Qed.

Lemma data_dump_loop_quiet (erst_array : option (list elems_result_t))
      (items : list hash_item) :
  forall ss w i ss' w' r,
  buf_ok ss -> data_fits (maxlen (buffer ss)) items erst_array i -> w_io w = [] ->
  data_dump_loop ss w items erst_array i = (ss', w', r) -> r = 0 /\ w_io w' = [].
Proof.
  induction items as [|it rest IH]; intros ss w i ss' w' r Hok Hfit Hio Hd; simpl in Hd.
  - injection Hd as <- <- <-. auto.
  - destruct Hfit as (Hfl & Hfe & Hfr).
    destruct (do_snapshot_buffer_check_space ss w (blen (lrec_link_item it)))
      as [[ss1 w1] r1] eqn:Ecs.
    destruct (check_space_quiet ss w _ (buf_ok_curlen ss Hok) Hio _ _ _ Ecs) as [-> Hio1].
    destruct (record_post ss w _ Hok Hfl _ _ _ Ecs) as [[Hr' P] | [_ P]]; [discriminate|].
    cbn [Z.ltb Z.compare] in Hd. cbn iota in Hd.
    set (ss2 := buffer_put ss1 (lrec_link_item it) (blen (lrec_link_item it))) in *.
    pose proof (enc_post_buf_ok _ _ _ _ _ _ P) as B2.
    pose proof (enc_post_maxlen _ _ _ _ _ _ P) as M2.
    assert (Hinner : exists ss3 w3,
               match erst_array with
               | Some arr =>
                   if IS_COLL_ITEM it
                   then data_dump_elems ss2 w1 it
                          (elem_array (nth i arr {| elem_array := [] |}))
                   else (ss2, w1, 0)
               | None => (ss2, w1, 0)
               end = (ss3, w3, 0)
               /\ buf_ok ss3 /\ maxlen (buffer ss3) = maxlen (buffer ss2) /\ w_io w3 = []).
    { unfold elems_at in Hfe.
      destruct erst_array as [arr|]; [destruct (IS_COLL_ITEM it)|].
      - destruct (data_dump_elems ss2 w1 it (elem_array (nth i arr {| elem_array := [] |})))
          as [[ss3 w3] ret] eqn:Ee.
        rewrite <- M2 in Hfe.
        destruct (data_dump_elems_quiet _ _ _ _ _ _ _ B2 Hfe Hio1 Ee) as [-> Hio3].
        pose proof (data_dump_elems_post _ _ _ _ _ _ _ B2 Hfe Ee) as P3.
        exists ss3, w3. split; [reflexivity|].
        split; [apply (enc_post_buf_ok _ _ _ _ _ _ P3)|].
        split; [apply (enc_post_maxlen _ _ _ _ _ _ P3) | exact Hio3].
      - exists ss2, w1. auto.
      - exists ss2, w1. auto. }
    destruct Hinner as (ss3 & w3 & Heq & B3 & M3 & Hio3).
    rewrite Heq in Hd. cbn [Z.eqb] in Hd. cbn iota in Hd.
    apply (IH _ _ _ _ _ _) in Hd; [exact Hd | exact B3 | | exact Hio3].
    cbn [buffer with_snapped]. rewrite M3, M2. exact Hfr.
Qed.

Lemma snapshot_func_done_quiet (ss : snapshot_st) (w : world) :
  buf_ok ss -> done_fits ss -> w_io w = [] ->
  forall ss' w' r, snapshot_func_done (mode ss) ss w = (ss', w', r) -> r = 0.
Proof.
  intros Hok Hfit Hio ss' w' r Hd. unfold snapshot_func_done in Hd. unfold done_fits in Hfit.
  destruct (mode ss =? CHKPT_SNAPSHOT_MODE_KEY).
  - destruct Hfit as [Hcap Hpfx]. unfold do_snapshot_key_done in Hd.
    destruct (do_snapshot_buffer_check_space ss w 256) as [[ss1 w1] r1] eqn:Ecs.
    destruct (check_space_quiet ss w _ (buf_ok_curlen ss Hok) Hio _ _ _ Ecs) as [-> Hio1].
    destruct (check_space_post ss w 256 Hok ltac:(lia) _ _ _ Ecs)
      as ((_ & S & [Hc Hm] & _) & _).
    cbn [Z.ltb Z.compare] in Hd. cbn iota in Hd.
    fold (key_summary ss1 w1) in Hd.
    pose proof (key_summary_length ss1 w1) as Hlen.
    destruct (same_run_fields _ _ S) as (_ & _ & _ & Hp & _).
    rewrite Hp in Hlen.
    match type of Hd with
    | context [do_snapshot_buffer_flush ?s ?x] =>
        destruct (do_snapshot_buffer_flush s x) as [[ss3 w3] r3] eqn:Efl
    end.
    apply flush_quiet in Efl; [|rewrite curlen_buffer_put, u32_small by lia; lia | exact Hio1].
    destruct Efl as [-> _]. cbn in Hd. injection Hd as <- <- <-. reflexivity.
  - unfold do_snapshot_data_done in Hd.
    destruct (do_snapshot_buffer_check_space ss w (blen lrec_snapshot_done))
      as [[ss1 w1] r1] eqn:Ecs.
    destruct (check_space_quiet ss w _ (buf_ok_curlen ss Hok) Hio _ _ _ Ecs) as [-> Hio1].
    destruct (record_post ss w _ Hok Hfit _ _ _ Ecs) as [[Hr' P] | [_ P]]; [discriminate|].
    cbn [Z.ltb Z.compare] in Hd. cbn iota in Hd.
    match type of Hd with
    | context [do_snapshot_buffer_flush ?s ?x] =>
        destruct (do_snapshot_buffer_flush s x) as [[ss3 w3] r3] eqn:Efl
    end.
    apply flush_quiet in Efl;
      [|apply buf_ok_curlen; apply (enc_post_buf_ok _ _ _ _ _ _ P) | exact Hio1].
    destruct Efl as [-> _]. cbn in Hd. injection Hd as <- <- <-. reflexivity.
Qed.

Lemma scan_body_quiet (ss : snapshot_st) (w : world) (use_erst : bool) (r : scan_result) :
  buf_ok ss -> done_fits ss -> batch_fits (mode ss) (maxlen (buffer ss)) use_erst r ->
  w_io w = [] -> reqstop ss = false -> sr_reqstop r = false -> sr_count r <> -2 ->
  forall ss' w' ctl, scan_body ss w use_erst r = (ss', w', ctl) ->
  match ctl with
  | Continue => w_io w' = [] /\ reqstop ss' = false
  | Break d => d = true
  end.
Proof.
  intros Hok Hdone Hfit Hio Hreq Hsr Hc ss' w' ctl Hb. unfold scan_body in Hb.
  rewrite Hsr, Hreq in Hb.
  replace (sr_count r =? -2) with false in Hb by lia.
  destruct (sr_count r <? 0).
  { destruct (snapshot_func_done (mode ss) ss
                (emit (emit w (EvScanGetnext (sr_count r))) (EvDone (mode ss))))
      as [[ss1 w2] rd] eqn:Ed.
    rewrite (snapshot_func_done_quiet ss
               (emit (emit w (EvScanGetnext (sr_count r))) (EvDone (mode ss)))
               Hok Hdone Hio _ _ _ Ed) in Hb.
    cbn in Hb. injection Hb as <- <- <-. reflexivity. }
  destruct (sr_count r >? 0).
  { fold (erst_of use_erst r) in Hb.
    destruct (snapshot_func_dump (mode ss) ss
                (emit (emit w (EvScanGetnext (sr_count r))) (EvDump (mode ss) (sr_count r)))
                (sr_items r) (sr_count r) (erst_of use_erst r)) as [[ss1 w2] ret] eqn:Ed.
    destruct (snapshot_func_dump_post ss _ use_erst r Hok Hfit _ _ _ Ed)
      as (out & (_ & S & _) & _).
    assert (Hq : ret = 0 /\ w_io w2 = []).
    { unfold snapshot_func_dump in Ed. unfold batch_fits in Hfit.
      destruct (mode ss =? CHKPT_SNAPSHOT_MODE_KEY).
      - apply (key_dump_loop_quiet _ _ ss
                 (emit (emit w (EvScanGetnext (sr_count r))) (EvDump (mode ss) (sr_count r)))
                 _ _ _ Hok Hfit Hio Ed).
      - apply (data_dump_loop_quiet _ _ ss
                 (emit (emit w (EvScanGetnext (sr_count r))) (EvDump (mode ss) (sr_count r)))
                 _ _ _ _ Hok Hfit Hio Ed). }
    destruct Hq as [-> Hio2]. cbn in Hb. injection Hb as <- <- <-.
    split; [exact Hio2|]. destruct (same_run_fields _ _ S) as (_ & _ & Hrq & _). congruence. }
  injection Hb as <- <- <-. auto.
Qed.

Lemma scan_loop_quiet (use_erst : bool) (scan : list scan_result) :
  forall ss w ss' w' d,
  buf_ok ss -> run_fits ss use_erst scan -> w_io w = [] -> reqstop ss = false ->
  Forall (fun r => sr_reqstop r = false /\ sr_count r <> -2) scan ->
  scan_loop ss w use_erst scan = (ss', w', d) -> d = true.
Proof.
  induction scan as [|r rest IH]; intros ss w ss' w' d Hok [Hdone Hfit] Hio Hreq Hsc Hl;
    simpl in Hl.
  - destruct (scan_body ss w use_erst scan_exhausted) as [[ss1 w1] ctl] eqn:Eb.
    pose proof (scan_body_quiet ss w use_erst _ Hok Hdone (batch_fits_exhausted _ _ _) Hio Hreq
                                eq_refl ltac:(cbn; lia) _ _ _ Eb) as Hq.
    pose proof (scan_body_run ss w use_erst _ Hok Hdone (batch_fits_exhausted _ _ _) _ _ _ Eb)
      as Hstep.
    destruct ctl as [|d1]; injection Hl as <- <- <-; [|exact Hq].
    destruct Hstep as (_ & _ & _ & Hc & _). cbn in Hc. lia.
  - inversion Hfit as [|? ? Hf Hfr]; subst. inversion Hsc as [|? ? [Hs1 Hs2] Hsr]; subst.
    destruct (scan_body ss w use_erst r) as [[ss1 w1] ctl] eqn:Eb.
    pose proof (scan_body_quiet ss w use_erst r Hok Hdone Hf Hio Hreq Hs1 Hs2 _ _ _ Eb) as Hq.
    pose proof (scan_body_run ss w use_erst r Hok Hdone Hf _ _ _ Eb) as Hstep.
    destruct ctl as [|d1]; [|injection Hl as <- <- <-; exact Hq].
    destruct Hq as [Hio1 Hreq1]. destruct Hstep as (_ & S & B & _).
    destruct (same_run_fields _ _ S) as (Hm & _ & _ & _ & _ & _ & Hx).
    apply (IH _ _ _ _ _ B) in Hl; [exact Hl | | exact Hio1 | exact Hreq1 | exact Hsr].
    split; [apply (done_fits_same_run _ _ S Hdone)|]. rewrite Hm, Hx. exact Hfr.
Qed.

(** X18.  When nothing fails, the run succeeds.  If open() succeeds, the
    kernel carries out every write and fsync in full, no stop request
    arrives, the scanner never reports out of memory, and every space
    request is at most the capacity, then do_snapshot_action runs to the
    end of the scan, completes the done step and returns true with
    [success] set.  So a run fails only for one of these reasons: open,
    write or fsync failed, a stop was requested, or the scanner ran out
    of memory. *)
Theorem run_succeeds_when_nothing_fails (ss : snapshot_st) (w : world)
        (scan : list scan_result) :
  buf_ok ss -> run_fits ss (uses_erst (mode ss)) scan ->
  w_io w = [] -> 0 <= w_open w -> reqstop ss = false ->
  Forall (fun r => sr_reqstop r = false /\ sr_count r <> -2) scan ->
  forall ss' w' d, do_snapshot_action ss w scan = (ss', w', d) ->
  d = true /\ success ss' = true.
Proof.
  intros Hok Hfit Hio Hopen Hreq Hsc ss' w' d Ha.
  destruct (do_snapshot_action_factor ss w scan Hopen _ _ _ Ha)
    as (w3 & ss4 & w4 & El & _ & _ & _ & _ & _ & _ & _ & _ & _ & Hio3).
  assert (Hd : d = true).
  { apply (scan_loop_quiet _ _ (with_fd ss (w_open w)) w3 ss4 w4 d Hok Hfit
             ltac:(congruence) Hreq Hsc El). }
  split; [exact Hd|].
  destruct (do_snapshot_action_shape _ _ _ _ _ _ Ha) as ((Hs & _) & _). congruence.
Qed.

End QuietRun.

(** ** The properties above on sample runs *)

Ltac mode_range :=
  unfold CHKPT_SNAPSHOT_MODE_KEY, CHKPT_SNAPSHOT_MODE_DATA, CHKPT_SNAPSHOT_MODE_CHKPT,
         CHKPT_SNAPSHOT_MODE_MAX; lia.

Lemma direct_snapshot_outcome_witness :
  exists ss' w' filesize,
    chkpt_snapshot_direct (D := sample_decls) anchor0 quiet_world CHKPT_SNAPSHOT_MODE_DATA
                          None (-1) (Some "/tmp/f"%string) [sample_batch]
    = (ss', w', ENGINE_SUCCESS, filesize)
    /\ running ss' = false /\ fd (file ss') = -1 /\ size (file ss') = blen (w_disk w').
Proof.
  destruct (chkpt_snapshot_direct (D := sample_decls) anchor0 quiet_world
              CHKPT_SNAPSHOT_MODE_DATA None (-1) (Some "/tmp/f"%string) [sample_batch])
    as [[[ss' w'] ret] filesize] eqn:Ed.
  assert (Hret : ret = ENGINE_SUCCESS).
  { change ret with (snd (fst (ss', w', ret, filesize))). rewrite <- Ed.
    vm_compute. reflexivity. }
  assert (Hm : 0 <= CHKPT_SNAPSHOT_MODE_DATA < CHKPT_SNAPSHOT_MODE_MAX) by mode_range.
  assert (Hopen : 0 < w_open quiet_world) by (cbn; lia).
  destruct (direct_snapshot_outcome (D := sample_decls) anchor0 quiet_world
              CHKPT_SNAPSHOT_MODE_DATA None (-1) (Some "/tmp/f"%string) [sample_batch]
              Hm eq_refl ss' w' ret filesize Ed) as (Hrun & _ & _ & _ & Hsz & _).
  exists ss', w', filesize. subst ret. split; [reflexivity|].
  split; [exact Hrun | exact (Hsz Hopen)].
Defined.

Lemma direct_snapshot_open_failure_witness :
  exists ss' w',
    chkpt_snapshot_direct (D := sample_decls) anchor0 world_no_open CHKPT_SNAPSHOT_MODE_KEY
                          None (-1) None [sample_batch]
    = (ss', w', ENGINE_FAILED, None)
    /\ w_disk w' = bytes_of "old".
Proof.
  assert (Hm : 0 <= CHKPT_SNAPSHOT_MODE_KEY < CHKPT_SNAPSHOT_MODE_MAX) by mode_range.
  assert (Hopen : w_open world_no_open < 0) by (cbn; lia).
  destruct (direct_snapshot_open_failure (D := sample_decls) anchor0 world_no_open
              CHKPT_SNAPSHOT_MODE_KEY None (-1) None [sample_batch] Hm eq_refl Hopen)
    as (ss' & w' & Heq & _ & Hdisk & _).
  exists ss', w'. split; [exact Heq | exact Hdisk].
Defined.


Lemma stop_request_ends_scan_witness :
  sr_reqstop stop_round = true
  /\ snd (scan_loop (D := sample_decls) (anchor_prepared CHKPT_SNAPSHOT_MODE_KEY) quiet_world
                    false ([sample_batch] ++ stop_round :: [sample_batch; scan_exhausted]))
     = false.
Proof.
  assert (Hs : sr_reqstop stop_round = true) by reflexivity.
  split; [exact Hs|].
  destruct (stop_request_ends_scan (D := sample_decls) false [sample_batch]
              [sample_batch; scan_exhausted] stop_round
              (anchor_prepared CHKPT_SNAPSHOT_MODE_KEY) quiet_world Hs) as [_ Hend].
  destruct (scan_loop (D := sample_decls) (anchor_prepared CHKPT_SNAPSHOT_MODE_KEY)
              quiet_world false ([sample_batch] ++ stop_round :: [sample_batch; scan_exhausted]))
    as [[ss' w'] d] eqn:El.
  assert (Hpre : Forall (fun q => 0 <= sr_count q) [sample_batch])
    by (repeat constructor; cbn; lia).
  exact (proj1 (Hend Hpre ss' w' d eq_refl)).
Defined.



Lemma data_snapshot_passes_validity_witness :
  exists ss' w' wr',
    do_snapshot_action (D := sample_decls) (anchor_prepared CHKPT_SNAPSHOT_MODE_DATA)
                       quiet_world [sample_batch] = (ss', w', true)
    /\ chkpt_snapshot_check_file_validity (D := sample_decls) (world_with_disk (w_disk w'))
                                          7 0
       = Returns (wr', size (file ss'), 0).
Proof.
  destruct (do_snapshot_action (D := sample_decls) (anchor_prepared CHKPT_SNAPSHOT_MODE_DATA)
              quiet_world [sample_batch]) as [[ss' w'] d] eqn:Ea.
  assert (Hd : d = true).
  { change d with (snd (ss', w', d)). rewrite <- Ea. vm_compute. reflexivity. }
  subst d.
  assert (Hmode : mode (anchor_prepared CHKPT_SNAPSHOT_MODE_DATA) <> CHKPT_SNAPSHOT_MODE_KEY)
    by (cbn; unfold CHKPT_SNAPSHOT_MODE_DATA, CHKPT_SNAPSHOT_MODE_KEY; lia).
  assert (Hopen : 0 < w_open quiet_world) by (cbn; lia).
  assert (Hfd : 0 < 7) by lia.
  destruct (data_snapshot_passes_validity (D := sample_decls)
              (anchor_prepared CHKPT_SNAPSHOT_MODE_DATA) quiet_world [sample_batch]
              eq_refl eq_refl (anchor_prepared_buf_ok CHKPT_SNAPSHOT_MODE_DATA) Hmode eq_refl
              sample_run_fits Hopen ss' w' Ea (world_with_disk (w_disk w')) 7 0
              eq_refl eq_refl Hfd) as (wr' & Heq & _).
  exists ss', w', wr'. split; [reflexivity | exact Heq].
Defined.

Lemma sample_frames_framed :
  Forall (fun f => framed (D := sample_decls) (fst f) (snd f))
         (data_run_frames (D := sample_decls) true [sample_batch])
  /\ framed (D := sample_decls) (LOG_SNAPSHOT_DONE (ExtDecls := sample_decls))
            (lrec_snapshot_done (ExtDecls := sample_decls)).
Proof.
  split.
  - match goal with
    | |- Forall _ ?l => let l' := eval vm_compute in l in change l with l'
    end.
    repeat (apply Forall_cons;
            [unfold framed; repeat split; vm_compute;
             first [reflexivity | intro; discriminate]|]).
    apply Forall_nil.
  - unfold framed. repeat split; vm_compute; first [reflexivity | intro; discriminate].
Qed.

Lemma snapshot_replays_without_corruption_witness :
  exists e' w' evs,
    chkpt_snapshot_file_apply (D := sample_decls) (E := sample_engine) []
      (world_with_disk (data_run_output (D := sample_decls) true [sample_batch])) "/tmp/f"
    = Some (e', w', Returns 0)
    /\ records_read evs
       = map (frame_rec (D := sample_decls))
             (map snd (data_run_frames (D := sample_decls) true [sample_batch])
              ++ [lrec_snapshot_done (ExtDecls := sample_decls)]).
Proof.
  destruct sample_frames_framed as [Hfs Hdone].
  assert (Hopen : 0 <= w_open (world_with_disk
                                 (data_run_output (D := sample_decls) true [sample_batch])))
    by (cbn; lia).
  destruct (snapshot_replays_without_corruption (D := sample_decls) (E := sample_engine)
              true [sample_batch] []
              (world_with_disk (data_run_output (D := sample_decls) true [sample_batch]))
              "/tmp/f" Hfs Hdone eq_refl eq_refl Hopen)
    as (e' & w' & res & evs & Heq & T & _ & _ & _ & H0 & Hs).
  assert (Hres : res = Returns 0).
  { assert (Hr : Some (e', w', res)
                 = chkpt_snapshot_file_apply (D := sample_decls) (E := sample_engine) []
                     (world_with_disk (data_run_output (D := sample_decls) true
                                                       [sample_batch])) "/tmp/f")
      by (symmetry; exact Heq).
    vm_compute in Hr. injection Hr as _ _ Hr. exact Hr. }
  subst res. destruct (H0 eq_refl) as [Hsucc | Hinit]; [|discriminate].
  exists e', w', evs. split; [exact Heq|]. apply (Hs Hsucc).
Defined.


Lemma final_shuts_down_once_witness :
  exists ss' w',
    chkpt_snapshot_final anchor0 true quiet_world [] = Some (ss', false, w')
    /\ initialized ss' = false
    /\ chkpt_snapshot_final ss' false w' [] = Some (ss', false, w').
Proof.
  destruct (chkpt_snapshot_final anchor0 true quiet_world []) as [[[ss' live'] w']|] eqn:Ef;
    [|vm_compute in Ef; discriminate].
  destruct (final_shuts_down_once anchor0 true quiet_world [] ss' live' w' Ef)
    as (Hi & _ & Hlive & Hagain).
  destruct (Hlive eq_refl) as (-> & _).
  exists ss', w'. split; [reflexivity|]. split; [exact Hi | apply Hagain].
Defined.

Lemma final_and_a_running_snapshot_witness :
  (exists ss' w',
     chkpt_snapshot_final (anchor_running CHKPT_SNAPSHOT_MODE_CHKPT) true quiet_world []
     = Some (ss', false, w')
     /\ running ss' = true)
  /\ chkpt_snapshot_final (anchor_running CHKPT_SNAPSHOT_MODE_DATA) true quiet_world
                          [worker_busy; worker_busy] = None.
Proof.
  split.
  - destruct (final_and_a_running_snapshot (anchor_running CHKPT_SNAPSHOT_MODE_CHKPT) true
                quiet_world [] eq_refl eq_refl) as [_ Hchkpt].
    destruct (Hchkpt eq_refl) as (ss' & w' & Heq & Hrun & _).
    exists ss', w'. split; [exact Heq | exact Hrun].
  - destruct (final_and_a_running_snapshot (anchor_running CHKPT_SNAPSHOT_MODE_DATA) true
                quiet_world [worker_busy; worker_busy] eq_refl eq_refl) as [Hdata _].
    assert (Hmode : mode (anchor_running CHKPT_SNAPSHOT_MODE_DATA) <> CHKPT_SNAPSHOT_MODE_CHKPT)
      by (cbn; unfold CHKPT_SNAPSHOT_MODE_DATA, CHKPT_SNAPSHOT_MODE_CHKPT; lia).
    apply (proj2 (Hdata Hmode)).
    intros k Hk. destruct k as [|[|[|k]]]; reflexivity.
Defined.

Lemma encoders_store_within_buffer_witness :
  memory (buffer (fst (fst (do_snapshot_action (D := sample_decls)
                              (anchor_prepared CHKPT_SNAPSHOT_MODE_DATA) quiet_world
                              [sample_batch])))) SNAPSHOT_BUFFER_SIZE
  = x00.
Proof.
  destruct (do_snapshot_action (D := sample_decls) (anchor_prepared CHKPT_SNAPSHOT_MODE_DATA)
              quiet_world [sample_batch]) as [[ss' w'] d] eqn:Ea.
  destruct (encoders_store_within_buffer (D := sample_decls)
              (anchor_prepared CHKPT_SNAPSHOT_MODE_DATA) quiet_world [sample_batch]
              (anchor_prepared_buf_ok CHKPT_SNAPSHOT_MODE_DATA) sample_run_fits ss' w' d Ea)
    as [_ Hmem].
  cbn [fst]. rewrite (Hmem SNAPSHOT_BUFFER_SIZE); [reflexivity|].
  right. cbn. lia.
Defined.

Lemma run_succeeds_when_nothing_fails_witness :
  exists ss' w',
    do_snapshot_action (D := sample_decls) (anchor_prepared CHKPT_SNAPSHOT_MODE_DATA)
                       quiet_world [sample_batch] = (ss', w', true)
    /\ success ss' = true.
Proof.
  destruct (do_snapshot_action (D := sample_decls) (anchor_prepared CHKPT_SNAPSHOT_MODE_DATA)
              quiet_world [sample_batch]) as [[ss' w'] d] eqn:Ea.
  assert (Hio : w_io quiet_world = []) by reflexivity.
  assert (Hopen : 0 <= w_open quiet_world) by (cbn; lia).
  assert (Hsc : Forall (fun r => sr_reqstop r = false /\ sr_count r <> -2) [sample_batch]).
  { constructor; [split; [reflexivity | cbn; lia] | constructor]. }
  destruct (run_succeeds_when_nothing_fails (D := sample_decls)
              (anchor_prepared CHKPT_SNAPSHOT_MODE_DATA) quiet_world [sample_batch]
              (anchor_prepared_buf_ok CHKPT_SNAPSHOT_MODE_DATA) sample_run_fits
              Hio Hopen eq_refl Hsc ss' w' d Ea) as [-> Hs].
  exists ss', w'. split; [reflexivity | exact Hs].
Defined.
